(** * DrTrace C++ client: a shallow embedding of [drtrace_sink.hpp]

    The development follows the header top-down: log levels and
    [parse_log_level], [DrtraceConfig] and [DrtraceConfig::from_env],
    [HttpTransport] with its circuit breaker and retry loop, and
    [core::DrtraceCore] with serialization, the bounded batch buffer and
    [flush_internal].

    Conventions.
    - [std::string] and [const char*] are [string] (a sequence of bytes,
      [ascii]); a null [const char*] is [None].
    - [size_t] is [N], [int], [long] and [std::chrono::milliseconds] counts
      are [Z]; the two places where the transport computes with 64-bit
      counts, the circuit deadline and the backoff, use [Int64.add] and
      [Int64.mul].
    - Effects are explicit: every operation returns the new state together
      with the list of [Event]s it performed, in program order.  Values the
      code reads from outside its own thread (the atomic shutdown flag, the
      steady clock, libcurl's answers) come from an [Env] oracle. *)

From Stdlib Require Import Bool Ascii String List ZArith NArith Lia DecimalString.
From Stdlib Require DecimalPos.
Import ListNotations.

Local Open Scope string_scope.
Local Open Scope list_scope.

(** ** Characters and strings *)

(** The double quote, written by code so that no literal has to escape it. *)
Definition dq : ascii := "034"%char.

(** [quoted s] is [s] between two double quotes. *)
Definition quoted (s : string) : string := String dq (s ++ String dq "").

Definition code (c : ascii) : N := N_of_ascii c.

Fixpoint string_map (f : ascii -> ascii) (s : string) : string :=
  match s with
  | EmptyString => EmptyString
  | String c s' => String (f c) (string_map f s')
  end.

(** [std::tolower] in the "C" locale, on an [unsigned char]. *)
Definition tolower (c : ascii) : ascii :=
  if (65 <=? code c)%N && (code c <=? 90)%N then ascii_of_N (code c + 32) else c.

(** ** Log levels *)

Module Level.

(** [enum class LogLevel { DEBUG = 0, INFO = 1, WARN = 2, ERROR = 3, CRITICAL = 4 }] *)
Inductive LogLevel : Set := DEBUG | INFO | WARN | ERROR | CRITICAL.

Definition rank (l : LogLevel) : Z :=
  match l with
  | DEBUG => 0
  | INFO => 1
  | WARN => 2
  | ERROR => 3
  | CRITICAL => 4
  end.

(** [a < b] on the enumeration compares the underlying integers. *)
Definition ltb (a b : LogLevel) : bool := (rank a <? rank b)%Z.

(** [parse_log_level(const char* str)], lines 65-81. *)
Definition parse_log_level (str : option string) : LogLevel :=
  match str with
  | None => DEBUG
  | Some EmptyString => DEBUG
  | Some s =>
      let level := string_map tolower s in
      if level =? "debug" then DEBUG
      else if level =? "info" then INFO
      else if (level =? "warn") || (level =? "warning") then WARN
      else if level =? "error" then ERROR
      else if level =? "critical" then CRITICAL
      else DEBUG
  end.

(** *** Spelling a name in any letter case

    [spells s name] says that [s] is [name] up to the case of its letters:
    same length, and each character of [s] is the character of [name] or,
    where that one is a lower-case letter, its upper-case form.  It is
    defined without [tolower]. *)

Definition is_lower (c : ascii) : bool := (97 <=? code c)%N && (code c <=? 122)%N.

Definition upper_of (c : ascii) : ascii := ascii_of_N (code c - 32).

Definition char_spells (c n : ascii) : bool :=
  Ascii.eqb c n || (is_lower n && Ascii.eqb c (upper_of n)).

Fixpoint spells (s name : string) : bool :=
  match s, name with
  | EmptyString, EmptyString => true
  | String c s', String n name' => char_spells c n && spells s' name'
  | _, _ => false
  end.

(** No upper-case letter occurs in [name]. *)
Fixpoint no_upper (name : string) : bool :=
  match name with
  | EmptyString => true
  | String n name' => negb ((65 <=? code n)%N && (code n <=? 90)%N) && no_upper name'
  end.

Definition recognized (s : string) : bool :=
  spells s "debug" || spells s "info" || spells s "warn" || spells s "warning"
  || spells s "error" || spells s "critical".

End Level.

(** ** Configuration *)

Module Config.
Import Level.
Local Open Scope Z_scope.

(** [struct DrtraceConfig], lines 86-145, with its member initializers. *)
Record DrtraceConfig : Set := mkConfig {
  application_id : string;
  daemon_url : string;
  service_name : string;
  enabled : bool;
  batch_size : N;
  flush_interval : Z;
  circuit_reset_interval : Z;
  max_buffer_size : N;
  min_level : LogLevel;
  http_timeout : Z;
  retry_backoff : Z;
  max_retries : Z
}.

Definition default_config : DrtraceConfig :=
  {| application_id := "";
     daemon_url := "http://localhost:8001/logs/ingest";
     service_name := "";
     enabled := true;
     batch_size := 10;
     flush_interval := 5000;
     circuit_reset_interval := 30000;
     max_buffer_size := 10000;
     min_level := DEBUG;
     http_timeout := 1000;
     retry_backoff := 100;
     max_retries := 3 |}.

Definition set_application_id (c : DrtraceConfig) (v : string) :=
  mkConfig v (daemon_url c) (service_name c) (enabled c) (batch_size c)
    (flush_interval c) (circuit_reset_interval c) (max_buffer_size c)
    (min_level c) (http_timeout c) (retry_backoff c) (max_retries c).
Definition set_daemon_url (c : DrtraceConfig) (v : string) :=
  mkConfig (application_id c) v (service_name c) (enabled c) (batch_size c)
    (flush_interval c) (circuit_reset_interval c) (max_buffer_size c)
    (min_level c) (http_timeout c) (retry_backoff c) (max_retries c).
Definition set_service_name (c : DrtraceConfig) (v : string) :=
  mkConfig (application_id c) (daemon_url c) v (enabled c) (batch_size c)
    (flush_interval c) (circuit_reset_interval c) (max_buffer_size c)
    (min_level c) (http_timeout c) (retry_backoff c) (max_retries c).
Definition set_enabled (c : DrtraceConfig) (v : bool) :=
  mkConfig (application_id c) (daemon_url c) (service_name c) v (batch_size c)
    (flush_interval c) (circuit_reset_interval c) (max_buffer_size c)
    (min_level c) (http_timeout c) (retry_backoff c) (max_retries c).
Definition set_batch_size (c : DrtraceConfig) (v : N) :=
  mkConfig (application_id c) (daemon_url c) (service_name c) (enabled c) v
    (flush_interval c) (circuit_reset_interval c) (max_buffer_size c)
    (min_level c) (http_timeout c) (retry_backoff c) (max_retries c).
Definition set_circuit_reset_interval (c : DrtraceConfig) (v : Z) :=
  mkConfig (application_id c) (daemon_url c) (service_name c) (enabled c)
    (batch_size c) (flush_interval c) v (max_buffer_size c)
    (min_level c) (http_timeout c) (retry_backoff c) (max_retries c).
Definition set_max_buffer_size (c : DrtraceConfig) (v : N) :=
  mkConfig (application_id c) (daemon_url c) (service_name c) (enabled c)
    (batch_size c) (flush_interval c) (circuit_reset_interval c) v
    (min_level c) (http_timeout c) (retry_backoff c) (max_retries c).
Definition set_min_level (c : DrtraceConfig) (v : LogLevel) :=
  mkConfig (application_id c) (daemon_url c) (service_name c) (enabled c)
    (batch_size c) (flush_interval c) (circuit_reset_interval c)
    (max_buffer_size c) v (http_timeout c) (retry_backoff c) (max_retries c).
Definition set_http_timeout (c : DrtraceConfig) (v : Z) :=
  mkConfig (application_id c) (daemon_url c) (service_name c) (enabled c)
    (batch_size c) (flush_interval c) (circuit_reset_interval c)
    (max_buffer_size c) (min_level c) v (retry_backoff c) (max_retries c).
Definition set_retry_backoff (c : DrtraceConfig) (v : Z) :=
  mkConfig (application_id c) (daemon_url c) (service_name c) (enabled c)
    (batch_size c) (flush_interval c) (circuit_reset_interval c)
    (max_buffer_size c) (min_level c) (http_timeout c) v (max_retries c).
Definition set_max_retries (c : DrtraceConfig) (v : Z) :=
  mkConfig (application_id c) (daemon_url c) (service_name c) (enabled c)
    (batch_size c) (flush_interval c) (circuit_reset_interval c)
    (max_buffer_size c) (min_level c) (http_timeout c) (retry_backoff c) v.

(** *** [std::stol] and [std::stoi]

    Both call [strtol] in base 10: leading white space ([isspace]) is
    skipped, one sign is accepted, then the longest run of decimal digits is
    read and whatever follows is left alone.  They throw
    [std::invalid_argument] when no digit was read and [std::out_of_range]
    when the value does not fit the result type ([long] is the 64-bit long
    of LP64 platforms, [int] is 32 bits). *)

Inductive conversion : Set :=
| Converted (v : Z)
| InvalidArgument
| OutOfRange.

Definition isspace (c : ascii) : bool :=
  (code c =? 32)%N || ((9 <=? code c)%N && (code c <=? 13)%N).

Definition isdigit (c : ascii) : bool := (48 <=? code c)%N && (code c <=? 57)%N.

Fixpoint skip_space (s : string) : string :=
  match s with
  | String c s' => if isspace c then skip_space s' else s
  | EmptyString => s
  end.

Fixpoint digits_value (acc : Z) (s : string) : Z :=
  match s with
  | String c s' =>
      if isdigit c then digits_value (10 * acc + (Z.of_N (code c) - 48)) s' else acc
  | EmptyString => acc
  end.

(** The integer [strtol(s, &end, 10)] reads, or [None] when it reads no digit. *)
Definition strtol10 (s : string) : option Z :=
  let s1 := skip_space s in
  let '(negative, s2) :=
    match s1 with
    | String "-" r => (true, r)
    | String "+" r => (false, r)
    | _ => (false, s1)
    end in
  match s2 with
  | String c _ =>
      if isdigit c
      then Some (if negative then - digits_value 0 s2 else digits_value 0 s2)
      else None
  | EmptyString => None
  end.

Definition LONG_MIN : Z := - 2 ^ 63.
Definition LONG_MAX : Z := 2 ^ 63 - 1.
Definition INT_MIN : Z := - 2 ^ 31.
Definition INT_MAX : Z := 2 ^ 31 - 1.

Definition in_range (lo hi v : Z) : bool := (lo <=? v)%Z && (v <=? hi)%Z.

Definition stol (s : string) : conversion :=
  match strtol10 s with
  | None => InvalidArgument
  | Some v => if in_range LONG_MIN LONG_MAX v then Converted v else OutOfRange
  end.

Definition stoi (s : string) : conversion :=
  match strtol10 s with
  | None => InvalidArgument
  | Some v => if in_range INT_MIN INT_MAX v then Converted v else OutOfRange
  end.

(** *** [DrtraceConfig::from_env], lines 700-814

    The process environment: [getenv] is [std::getenv] (a null result is
    [None]) and [config_file_application_id] is what
    [detail::read_application_id_from_config("_drtrace/config.json")]
    returns (the empty string when the file or the field is missing). *)
Record ProcEnv : Type := {
  getenv : string -> option string;
  config_file_application_id : string
}.

(** Lines 703-725: the application identifier. *)
Definition read_application_id (e : ProcEnv) (config : DrtraceConfig) : DrtraceConfig :=
  match getenv e "DRTRACE_APPLICATION_ID" with
  | None =>
      let app_id_from_config := config_file_application_id e in
      if negb (app_id_from_config =? "")%string
      then set_application_id config app_id_from_config
      else set_application_id config "my-app"
  | Some app_id => set_application_id config app_id
  end.

(** Lines 727-730. *)
Definition read_daemon_url (e : ProcEnv) (config : DrtraceConfig) : DrtraceConfig :=
  match getenv e "DRTRACE_DAEMON_URL" with
  | Some daemon_url => set_daemon_url config daemon_url
  | None => config
  end.

(** Lines 732-735. *)
Definition read_service_name (e : ProcEnv) (config : DrtraceConfig) : DrtraceConfig :=
  match getenv e "DRTRACE_SERVICE_NAME" with
  | Some service_name => set_service_name config service_name
  | None => config
  end.

(** Lines 737-740. *)
Definition read_enabled (e : ProcEnv) (config : DrtraceConfig) : DrtraceConfig :=
  match getenv e "DRTRACE_ENABLED" with
  | Some enabled =>
      if (enabled =? "false")%string then set_enabled config false else config
  | None => config
  end.

(** Lines 742-753: circuit breaker reset interval (milliseconds).  The
    [catch (...)] keeps the default on either exception. *)
Definition read_circuit_reset_ms (e : ProcEnv) (config : DrtraceConfig) : DrtraceConfig :=
  match getenv e "DRTRACE_CIRCUIT_RESET_MS" with
  | Some circuit_reset_ms =>
      match stol circuit_reset_ms with
      | Converted ms =>
          if 0 <? ms then set_circuit_reset_interval config ms else config
      | _ => config
      end
  | None => config
  end.

(** Lines 755-766: maximum buffer size; [static_cast<size_t>] of a
    non-negative [long]. *)
Definition read_max_buffer_size (e : ProcEnv) (config : DrtraceConfig) : DrtraceConfig :=
  match getenv e "DRTRACE_MAX_BUFFER_SIZE" with
  | Some max_buffer =>
      match stol max_buffer with
      | Converted size =>
          if 0 <=? size then set_max_buffer_size config (Z.to_N size) else config
      | _ => config
      end
  | None => config
  end.

(** Lines 768-772: minimum log level. *)
Definition read_min_level (e : ProcEnv) (config : DrtraceConfig) : DrtraceConfig :=
  match getenv e "DRTRACE_MIN_LEVEL" with
  | Some min_level => set_min_level config (parse_log_level (Some min_level))
  | None => config
  end.

(** Lines 774-785: HTTP timeout (milliseconds). *)
Definition read_http_timeout_ms (e : ProcEnv) (config : DrtraceConfig) : DrtraceConfig :=
  match getenv e "DRTRACE_HTTP_TIMEOUT_MS" with
  | Some http_timeout =>
      match stol http_timeout with
      | Converted ms => if 0 <? ms then set_http_timeout config ms else config
      | _ => config
      end
  | None => config
  end.

(** Lines 787-798: retry backoff (milliseconds). *)
Definition read_retry_backoff_ms (e : ProcEnv) (config : DrtraceConfig) : DrtraceConfig :=
  match getenv e "DRTRACE_RETRY_BACKOFF_MS" with
  | Some retry_backoff =>
      match stol retry_backoff with
      | Converted ms => if 0 <? ms then set_retry_backoff config ms else config
      | _ => config
      end
  | None => config
  end.

(** Lines 800-811: max retries. *)
Definition read_max_retries (e : ProcEnv) (config : DrtraceConfig) : DrtraceConfig :=
  match getenv e "DRTRACE_MAX_RETRIES" with
  | Some max_retries =>
      match stoi max_retries with
      | Converted retries =>
          if 0 <=? retries then set_max_retries config retries else config
      | _ => config
      end
  | None => config
  end.

(** The function runs these blocks in order on a default-constructed
    [DrtraceConfig]. *)
Definition from_env (e : ProcEnv) : DrtraceConfig :=
  let config := default_config in
  let config := read_application_id e config in
  let config := read_daemon_url e config in
  let config := read_service_name e config in
  let config := read_enabled e config in
  let config := read_circuit_reset_ms e config in
  let config := read_max_buffer_size e config in
  let config := read_min_level e config in
  let config := read_http_timeout_ms e config in
  let config := read_retry_backoff_ms e config in
  let config := read_max_retries e config in
  config.

(** What the documentation of the overrides promises for one numeric
    variable [var] with compiled-in default [default], smallest accepted
    value [least] and conversion [conv], about the configured [value]. *)
Definition override_rule (conv : string -> conversion) (least : Z)
    (var : option string) (default value : Z) : Prop :=
  (var = None -> value = default) /\
  (forall s, var = Some s ->
     conv s = InvalidArgument \/ conv s = OutOfRange -> value = default) /\
  (forall s v, var = Some s -> conv s = Converted v -> v < least -> value = default) /\
  (forall s v, var = Some s -> conv s = Converted v -> least <= v -> value = v).

(** An environment that sets the listed variables and nothing else. *)
Fixpoint env_lookup (vars : list (string * string)) (name : string) : option string :=
  match vars with
  | [] => None
  | (k, v) :: rest => if (k =? name)%string then Some v else env_lookup rest name
  end.

Definition env_of (vars : list (string * string)) : ProcEnv :=
  {| getenv := env_lookup vars; config_file_application_id := "" |}.

(** The overrides used to exercise [from_env] below. *)
Definition sample_overrides : ProcEnv :=
  env_of [("DRTRACE_CIRCUIT_RESET_MS", "abc");
          ("DRTRACE_MAX_BUFFER_SIZE", "0");
          ("DRTRACE_HTTP_TIMEOUT_MS", "-1000");
          ("DRTRACE_RETRY_BACKOFF_MS", "250");
          ("DRTRACE_MAX_RETRIES", "0")]%string.

End Config.

(** ** Effects

    What an operation does to the world, in program order: the two mutations
    of the batch buffer, the hand-off of a batch to the transport, and inside
    [send_batch] the acquisition of [curl_mutex_], the configuration of the
    curl handle, each [curl_easy_perform] and each [sleep_for]. *)
Inductive Event : Set :=
| BufErase (dropped : string)
| BufPush (json_record : string)
| SendBatch (log_records : list string)
| Lock
| Setup (url payload : string) (timeout_ms : Z)
| Perform (attempt : Z)
| Sleep (ms : Z).

(** ** 64-bit signed arithmetic

    [now_ms()] is an [int64_t] and a [std::chrono::milliseconds] counts in a
    signed 64-bit integer.  The client adds and multiplies them without a
    range check; [add] and [mul] are the results the compiled code
    produces, reduced modulo 2^64 into the signed range. *)

Module Int64.
Local Open Scope Z_scope.

Definition INT64_MIN : Z := - 9223372036854775808.
Definition INT64_MAX : Z := 9223372036854775807.

Definition in_range (z : Z) : bool := (INT64_MIN <=? z) && (z <=? INT64_MAX).

Definition wrap (z : Z) : Z :=
  (z + 9223372036854775808) mod 18446744073709551616 - 9223372036854775808.

Definition add (a b : Z) : Z := wrap (a + b).

Definition mul (a b : Z) : Z := wrap (a * b).

End Int64.

(** ** HTTP transport and circuit breaker *)

Module Transport.
Import Config.
Local Open Scope Z_scope.

(** The places where [send_batch] loads [shutdown_flag_]. *)
Inductive Checkpoint : Set :=
| BeforeLock
| AfterLock
| BeforeAttempt (attempt : Z).

(** The outcome of one [curl_easy_perform]: a transport-level error
    ([res != CURLE_OK]) or the response code of the completed exchange. *)
Inductive CurlResult : Set :=
| CurlError
| HttpStatus (response_code : Z).

(** What one call of [send_batch] reads from outside its thread:
    [shutdown_flag_] is written only by the destructor, on another thread,
    so each load is an input; [now_ms_check] and [now_ms_open] are the values
    of [now_ms()] read in [is_circuit_open] and in [open_circuit]. *)
Record Env : Type := {
  shutdown_flag_ : Checkpoint -> bool;
  now_ms_check : Z;
  now_ms_open : Z;
  curl_easy_perform : Z -> CurlResult
}.

(** [class HttpTransport], lines 177-270; [curl_handle_] records whether the
    handle is non-null. *)
Record HttpTransport : Set := mkTransport {
  endpoint_ : string;
  application_id_ : string;
  max_retries_ : Z;
  base_backoff_ms_ : Z;
  http_timeout_ : Z;
  curl_handle_ : bool;
  circuit_open_ : bool;
  circuit_open_until_ms_ : Z;
  circuit_reset_interval_ : Z
}.

(** The constructor, lines 817-832; [curl_easy_init_ok] tells whether
    [curl_easy_init()] returned a handle. *)
Definition new (config : DrtraceConfig) (curl_easy_init_ok : bool) : HttpTransport :=
  {| endpoint_ := daemon_url config;
     application_id_ := application_id config;
     max_retries_ := max_retries config;
     base_backoff_ms_ := retry_backoff config;
     http_timeout_ := http_timeout config;
     curl_handle_ := curl_easy_init_ok;
     circuit_open_ := false;
     circuit_open_until_ms_ := 0;
     circuit_reset_interval_ := circuit_reset_interval config |}.

(** [is_circuit_open], lines 238-247. *)
Definition is_circuit_open (t : HttpTransport) (now_ms : Z) : bool :=
  if negb (circuit_open_ t) then false
  else if circuit_open_until_ms_ t <=? now_ms then false
  else true.

(** [open_circuit], lines 253-259: the deadline is the [int64_t] sum
    [now_ms() + circuit_reset_interval_.count()]. *)
Definition open_circuit (t : HttpTransport) (now_ms : Z) : HttpTransport :=
  mkTransport (endpoint_ t) (application_id_ t) (max_retries_ t)
    (base_backoff_ms_ t) (http_timeout_ t) (curl_handle_ t)
    true (Int64.add now_ms (circuit_reset_interval_ t)) (circuit_reset_interval_ t).

(** [close_circuit], lines 264-266. *)
Definition close_circuit (t : HttpTransport) : HttpTransport :=
  mkTransport (endpoint_ t) (application_id_ t) (max_retries_ t)
    (base_backoff_ms_ t) (http_timeout_ t) (curl_handle_ t)
    false (circuit_open_until_ms_ t) (circuit_reset_interval_ t).

(** The payload loop of [send_batch], lines 913-918, [i] being its index. *)
Fixpoint payload_records (i : nat) (log_records : list string) : string :=
  match log_records with
  | [] => ""
  | r :: rest =>
      ((if (0 <? i)%nat then "," else "") ++ r ++ payload_records (S i) rest)%string
  end.

(** Lines 911-921. *)
Definition build_payload (t : HttpTransport) (log_records : list string) : string :=
  ("{" ++ quoted "application_id" ++ ":" ++ quoted (application_id_ t) ++ ","
   ++ quoted "logs" ++ ":[" ++ payload_records 0 log_records ++ "]}")%string.

(** [res == CURLE_OK && response_code >= 200 && response_code < 300] *)
Definition is_success (r : CurlResult) : bool :=
  match r with
  | CurlError => false
  | HttpStatus response_code => (200 <=? response_code) && (response_code <? 300)
  end.

(** The retry loop, lines 954-985.  [for (attempt = 1; attempt <=
    max_retries_; ++attempt)] runs its body for [attempt = 1 .. max_retries_];
    [remaining] counts the iterations still to run, so [retry_loop] is
    entered with [remaining = Z.to_nat max_retries_] and [attempt = 1].
    The backoff [base_backoff_ms_ * attempt] is a product of the 64-bit
    millisecond count.  Leaving the loop at its end opens the circuit.
    [attempt] is an [int] that runs from 1 to [max_retries_ + 1]; the
    overflow of [++attempt] when [max_retries_] is [INT_MAX] is not
    represented. *)
Fixpoint retry_loop (t : HttpTransport) (env : Env) (remaining : nat) (attempt : Z)
  : bool * HttpTransport * list Event :=
  match remaining with
  | O => (false, open_circuit t (now_ms_open env), [])
  | S remaining' =>
      if shutdown_flag_ env (BeforeAttempt attempt) then (false, t, [])
      else if is_success (curl_easy_perform env attempt)
      then (true, close_circuit t, [Perform attempt])
      else
        let backoff :=
          if attempt <? max_retries_ t
          then [Sleep (Int64.mul (base_backoff_ms_ t) attempt)] else [] in
        let '(ok, t', events) := retry_loop t env remaining' (attempt + 1) in
        (ok, t', Perform attempt :: backoff ++ events)
  end.

(** [HttpTransport::send_batch], lines 892-986. *)
Definition send_batch (t : HttpTransport) (env : Env) (log_records : list string)
  : bool * HttpTransport * list Event :=
  if shutdown_flag_ env BeforeLock then (false, t, [])
  else match log_records with
  | [] => (false, t, [])
  | _ :: _ =>
      if is_circuit_open t (now_ms_check env) then (false, t, [])
      else
        let payload_str := build_payload t log_records in
        if shutdown_flag_ env AfterLock || negb (curl_handle_ t)
        then (false, t, [Lock])
        else
          let '(ok, t', events) :=
            retry_loop t env (Z.to_nat (max_retries_ t)) 1 in
          (ok, t', Lock :: Setup (endpoint_ t) payload_str (http_timeout_ t) :: events)
  end.

(** *** Vocabulary for the properties of [send_batch] *)

(** The wire payload as the protocol describes it, character by character:
    an opening brace, the key [application_id] between double quotes, a
    colon, the identifier between double quotes, a comma, the key [logs]
    between double quotes, a colon, and between square brackets the records
    joined by commas; a closing brace. *)
Definition wire_payload (application_id : string) (log_records : list string) : string :=
  String.concat ""
    ["{"; String dq "application_id"; String dq ":";
     String dq application_id; String dq ",";
     String dq "logs"; String dq ":";
     "["; String.concat "," log_records; "]"; "}"].

(** The call gets past every early return: no shutdown seen before or after
    taking the lock, a non-empty batch, no fast-fail, a live handle. *)
Definition guards_pass (t : HttpTransport) (env : Env) (log_records : list string) : Prop :=
  shutdown_flag_ env BeforeLock = false /\
  log_records <> [] /\
  is_circuit_open t (now_ms_check env) = false /\
  shutdown_flag_ env AfterLock = false /\
  curl_handle_ t = true.

(** Attempt [i] is made (no shutdown seen before it) and does not succeed. *)
Definition attempt_fails (env : Env) (i : nat) : Prop :=
  shutdown_flag_ env (BeforeAttempt (Z.of_nat i)) = false /\
  is_success (curl_easy_perform env (Z.of_nat i)) = false.

(** Attempts [1 .. k], each followed by its backoff sleep. *)
Definition failed_attempts (backoff : Z) (k : nat) : list Event :=
  flat_map (fun i => [Perform (Z.of_nat i); Sleep (Int64.mul backoff (Z.of_nat i))])
    (seq 1 k).

(** *** Sample transport and environments used to exercise [send_batch] *)

(** Built from the default configuration: 3 retries, 100 ms backoff base,
    30 s circuit reset interval. *)
Definition sample_transport : HttpTransport :=
  new (set_application_id default_config "my-app") true.


(** A transport whose application identifier holds a double quote, as
    DRTRACE_APPLICATION_ID can set it. *)
Definition quote_id_transport : HttpTransport :=
  new (set_application_id default_config (String "a" (String dq "b"))) true.

(** No shutdown; every attempt ends in a transport error. *)
Definition env_down (now_check now_open : Z) : Env :=
  {| shutdown_flag_ := fun _ => false;
     now_ms_check := now_check;
     now_ms_open := now_open;
     curl_easy_perform := fun _ => CurlError |}.

(** No shutdown; attempts before [k] answer 503, attempt [k] and later 200. *)
Definition env_up_at (k : Z) (now_check : Z) : Env :=
  {| shutdown_flag_ := fun _ => false;
     now_ms_check := now_check;
     now_ms_open := now_check;
     curl_easy_perform := fun i => if i <? k then HttpStatus 503 else HttpStatus 200 |}.

(** Shutdown becomes visible at checkpoint [c] and stays; attempts fail. *)
Definition env_shutdown_at (c : Checkpoint) : Env :=
  {| shutdown_flag_ := fun c' =>
       match c, c' with
       | BeforeLock, _ => true
       | AfterLock, BeforeLock => false
       | AfterLock, _ => true
       | BeforeAttempt k, BeforeAttempt k' => k <=? k'
       | BeforeAttempt _, _ => false
       end;
     now_ms_check := 0;
     now_ms_open := 0;
     curl_easy_perform := fun _ => CurlError |}.

End Transport.

(** ** The logging engine *)

Module Core.
Import Level Config Transport.
Local Open Scope Z_scope.

(** [struct SourceLocation] and [struct LogRecord], lines 285-303.
    [timestamp] is the [system_clock] time since the epoch in nanoseconds;
    [context] lists the entries of the [std::map] in iteration (key) order. *)
Record SourceLocation : Set := {
  filename : string;
  line : Z;
  function : string
}.

Record LogRecord : Set := {
  level : LogLevel;
  message : string;
  logger_name : string;
  timestamp : Z;
  source : SourceLocation;
  context : list (string * string)
}.

(** What serialization takes from the C++ runtime: [print_double s ms] is
    the text [operator<<] writes for the [double] [s + ms / 1000.0] under
    [std::fixed << std::setprecision(6)], and [this_thread_id] is the text
    written for [std::this_thread::get_id()]. *)
Record Platform : Type := {
  print_double : Z -> Z -> string;
  this_thread_id : string
}.

(** *** [escape_json], lines 1080-1116 *)

Definition hex_digit (n : N) : ascii :=
  if (n <? 10)%N then ascii_of_N (48 + n) else ascii_of_N (87 + n).

(** [std::hex << std::setw(4) << std::setfill('0') << n] for [n < 65536]. *)
Definition hex4 (n : N) : string :=
  String (hex_digit ((n / 4096) mod 16))
    (String (hex_digit ((n / 256) mod 16))
       (String (hex_digit ((n / 16) mod 16))
          (String (hex_digit (n mod 16)) ""))).

(** The body of the loop: the [switch] on one character. *)
Definition escape_char (c : ascii) : string :=
  if Ascii.eqb c dq then String "\" (String dq "")
  else if Ascii.eqb c "\" then "\\"
  else if Ascii.eqb c "008" then "\b"
  else if Ascii.eqb c "012" then "\f"
  else if Ascii.eqb c "010" then "\n"
  else if Ascii.eqb c "013" then "\r"
  else if Ascii.eqb c "009" then "\t"
  else if (code c <? 32)%N then ("\u" ++ hex4 (code c))%string
  else String c "".

Fixpoint escape_json (str : string) : string :=
  match str with
  | EmptyString => ""
  | String c rest => (escape_char c ++ escape_json rest)%string
  end.

(** *** [serialize_record], lines 1118-1183 *)

Definition level_str (l : LogLevel) : string :=
  match l with
  | DEBUG => "debug"
  | INFO => "info"
  | WARN => "warn"
  | ERROR => "error"
  | CRITICAL => "critical"
  end.

(** [operator<<] on an [int]. *)
Definition print_int (n : Z) : string := NilZero.string_of_int (Z.to_int n).

(** The loop over [record.context], lines 1176-1178. *)
Fixpoint context_entries (entries : list (string * string)) : string :=
  match entries with
  | [] => ""
  | (key, value) :: rest =>
      ("," ++ quoted (escape_json key) ++ ":" ++ quoted (escape_json value)
       ++ context_entries rest)%string
  end.

(** Lines 1124-1128: whole seconds and the remaining milliseconds, both by
    [duration_cast] (truncation), and the text written for [ts]. *)
Definition ts_text (p : Platform) (record : LogRecord) : string :=
  let ts_seconds := Z.quot (timestamp record) 1000000000 in
  let ts_fractional :=
    Z.quot (timestamp record - ts_seconds * 1000000000) 1000000 in
  print_double p ts_seconds ts_fractional.

Definition serialize_record (p : Platform) (config : DrtraceConfig)
    (record : LogRecord) : string :=
  ("{"
   ++ quoted "ts" ++ ":" ++ ts_text p record ++ ","
   ++ quoted "level" ++ ":" ++ quoted (escape_json (level_str (level record))) ++ ","
   ++ quoted "message" ++ ":" ++ quoted (escape_json (message record)) ++ ","
   ++ quoted "application_id" ++ ":" ++ quoted (escape_json (application_id config)) ++ ","
   ++ quoted "module_name" ++ ":" ++ quoted (escape_json (logger_name record))
   ++ (if negb (service_name config =? "")%string
       then "," ++ quoted "service_name" ++ ":" ++ quoted (escape_json (service_name config))
       else "")
   ++ (if negb (filename (source record) =? "")%string
       then "," ++ quoted "file_path" ++ ":" ++ quoted (escape_json (filename (source record)))
       else "")
   ++ (if (0 <? line (source record))%Z
       then "," ++ quoted "line_no" ++ ":" ++ print_int (line (source record))
       else "")
   ++ "," ++ quoted "context" ++ ":{" ++ quoted "language" ++ ":" ++ quoted "cpp"
   ++ "," ++ quoted "thread_id" ++ ":" ++ quoted (this_thread_id p)
   ++ context_entries (context record)
   ++ "}"
   ++ "}")%string.

(** *** The engine state: [batch_] and the transport it owns

    [config_] is a [const] reference and is passed to each operation. *)
Record DrtraceCore : Set := mkCore {
  batch_ : list string;
  transport_ : HttpTransport
}.

(** The constructor, lines 1026-1031. *)
Definition new (config : DrtraceConfig) (curl_easy_init_ok : bool) : DrtraceCore :=
  {| batch_ := []; transport_ := Transport.new config curl_easy_init_ok |}.

(** [flush_internal], lines 1185-1201.  [transport_] is set by the
    constructor and never reset, so the test [if (transport_)] holds. *)
Definition flush_internal (env : Env) (core : DrtraceCore)
  : DrtraceCore * list Event :=
  match batch_ core with
  | [] => (core, [])
  | _ :: _ =>
      let to_send := batch_ core in
      let '(_, t', events) := send_batch (transport_ core) env to_send in
      ({| batch_ := []; transport_ := t' |}, SendBatch to_send :: events)
  end.

(** [flush], lines 1075-1078. *)
Definition flush (env : Env) (core : DrtraceCore) : DrtraceCore * list Event :=
  flush_internal env core.

(** [log], lines 1042-1073. *)
Definition log (p : Platform) (config : DrtraceConfig) (env : Env)
    (record : LogRecord) (core : DrtraceCore) : DrtraceCore * list Event :=
  if negb (enabled config) then (core, [])
  else if Level.ltb (level record) (min_level config) then (core, [])
  else
    let '(batch1, erased) :=
      if (0 <? max_buffer_size config)%N
         && (max_buffer_size config <=? N.of_nat (length (batch_ core)))%N
      then match batch_ core with
           | [] => ([], [])
           | oldest :: rest => (rest, [BufErase oldest])
           end
      else (batch_ core, []) in
    let json_record := serialize_record p config record in
    let batch2 := batch1 ++ [json_record] in
    let should_flush := (batch_size config <=? N.of_nat (length batch2))%N in
    let core2 := {| batch_ := batch2; transport_ := transport_ core |} in
    if should_flush
    then let '(core3, events) := flush_internal env core2 in
         (core3, erased ++ BufPush json_record :: events)
    else (core2, erased ++ [BufPush json_record]).

(** *** Sequences of calls *)

Inductive Call : Type :=
| CallLog (env : Env) (record : LogRecord)
| CallFlush (env : Env).

Definition call (p : Platform) (config : DrtraceConfig) (c : Call)
    (core : DrtraceCore) : DrtraceCore * list Event :=
  match c with
  | CallLog env record => log p config env record core
  | CallFlush env => flush env core
  end.

Fixpoint run (p : Platform) (config : DrtraceConfig) (calls : list Call)
    (core : DrtraceCore) : DrtraceCore * list Event :=
  match calls with
  | [] => (core, [])
  | c :: rest =>
      let '(core1, events1) := call p config c core in
      let '(core2, events2) := run p config rest core1 in
      (core2, events1 ++ events2)
  end.

(** *** Reading a trace *)

Definition pushed (events : list Event) : list string :=
  flat_map (fun e => match e with BufPush r => [r] | _ => [] end) events.

Definition erased (events : list Event) : list string :=
  flat_map (fun e => match e with BufErase r => [r] | _ => [] end) events.

Definition sent_batches (events : list Event) : list (list string) :=
  flat_map (fun e => match e with SendBatch b => [b] | _ => [] end) events.

Definition performs (events : list Event) : list Z :=
  flat_map (fun e => match e with Perform a => [a] | _ => [] end) events.

(** The last [n] elements of a list. *)
Definition lastn {A : Type} (n : nat) (l : list A) : list A :=
  skipn (length l - n) l.

(** An event of the transport: not a buffer mutation, not a hand-off. *)
Definition transport_event (e : Event) : bool :=
  match e with
  | Lock | Setup _ _ _ | Perform _ | Sleep _ => true
  | BufErase _ | BufPush _ | SendBatch _ => false
  end.

(** *** Vocabulary for the properties of [log] *)

(** [log] does not return early on [record]. *)
Definition accepted (config : DrtraceConfig) (record : LogRecord) : bool :=
  enabled config && negb (Level.ltb (level record) (min_level config)).

(** Consecutive [log] calls, each with its own environment. *)
Definition log_calls (l : list (Env * LogRecord)) : list Call :=
  map (fun er => CallLog (fst er) (snd er)) l.

(** *** Samples used to exercise the engine *)

Definition sample_platform : Platform :=
  {| print_double := fun s ms =>
       (print_int s ++ "." ++ print_int (ms / 100) ++ print_int ((ms / 10) mod 10)
        ++ print_int (ms mod 10) ++ "000")%string;
     this_thread_id := "140245" |}.

(** The record [DrtraceClient::info("Message <i>")] builds, context left
    empty. *)
Definition message_record (l : LogLevel) (i : nat) : LogRecord :=
  {| level := l;
     message := ("Message " ++ print_int (Z.of_nat i))%string;
     logger_name := "test-logger";
     timestamp := 1700000000123456789 + Z.of_nat i;
     source := {| filename := ""; line := 0; function := "" |};
     context := [] |}.

(** [max_buffer_size = 100] with the given [batch_size], as in the
    backpressure tests. *)
Definition backpressure_config (batch : N) : DrtraceConfig :=
  set_batch_size
    (set_max_buffer_size (set_application_id default_config "test-app") 100)
    batch.

Definition two_hundred_logs : list (Env * LogRecord) :=
  map (fun i => (env_down 0 0, message_record INFO i)) (seq 0 200).

(** The backpressure test of [log]: a bound is set and the buffer has
    reached it. *)
Definition at_capacity (config : DrtraceConfig) (batch : list string) : bool :=
  (0 <? max_buffer_size config)%N
  && (max_buffer_size config <=? N.of_nat (length batch))%N.

End Core.

(** ** A JSON reader

    Not part of the client: the reference reader against which the round
    trip of [serialize_record] is stated.  It reads compact JSON text (no
    white space) made of objects, strings and numbers, which is all the
    serializer emits; a number is kept as its literal. *)

Module JsonReader.

Inductive value : Set :=
| VString (s : string)
| VNumber (literal : string)
| VObject (ms : members)
with members : Set :=
| MNil
| MCons (key : string) (v : value) (rest : members).

(** *** Strings *)

Definition hex_value (c : ascii) : option N :=
  let n := code c in
  if (48 <=? n)%N && (n <=? 57)%N then Some (n - 48)%N
  else if (97 <=? n)%N && (n <=? 102)%N then Some (n - 87)%N
  else if (65 <=? n)%N && (n <=? 70)%N then Some (n - 55)%N
  else None.

Definition hex4_value (a b c d : ascii) : option N :=
  match hex_value a, hex_value b, hex_value c, hex_value d with
  | Some x, Some y, Some z, Some w => Some (((x * 16 + y) * 16 + z) * 16 + w)%N
  | _, _, _, _ => None
  end.

(** The UTF-8 bytes of a code point of the basic plane; a surrogate has none. *)
Definition utf8 (n : N) : option string :=
  if (n <? 128)%N then Some (String (ascii_of_N n) "")
  else if (n <? 2048)%N
  then Some (String (ascii_of_N (192 + n / 64)) (String (ascii_of_N (128 + n mod 64)) ""))
  else if (55296 <=? n)%N && (n <? 57344)%N then None
  else Some (String (ascii_of_N (224 + n / 4096))
               (String (ascii_of_N (128 + (n / 64) mod 64))
                  (String (ascii_of_N (128 + n mod 64)) ""))).

(** The character a two-character escape stands for. *)
Definition unescape (e : ascii) : option ascii :=
  if Ascii.eqb e dq then Some dq
  else if Ascii.eqb e "\" then Some "\"%char
  else if Ascii.eqb e "/" then Some "/"%char
  else if Ascii.eqb e "b" then Some "008"%char
  else if Ascii.eqb e "f" then Some "012"%char
  else if Ascii.eqb e "n" then Some "010"%char
  else if Ascii.eqb e "r" then Some "013"%char
  else if Ascii.eqb e "t" then Some "009"%char
  else None.

Definition prepend (prefix : string) (r : option (string * string))
  : option (string * string) :=
  match r with
  | Some (str, rest) => Some ((prefix ++ str)%string, rest)
  | None => None
  end.

(** [read_chars s] reads the characters of a string literal whose opening
    quote has been consumed, up to and including the closing quote: the
    decoded characters and the text after the literal.  A raw control
    character is an error, as JSON requires. *)
Fixpoint read_chars (s : string) : option (string * string) :=
  match s with
  | EmptyString => None
  | String c rest =>
      if Ascii.eqb c dq then Some (EmptyString, rest)
      else if Ascii.eqb c "\" then
        match rest with
        | EmptyString => None
        | String e rest1 =>
            if Ascii.eqb e "u" then
              match rest1 with
              | String h1 (String h2 (String h3 (String h4 rest2))) =>
                  match hex4_value h1 h2 h3 h4 with
                  | Some n =>
                      match utf8 n with
                      | Some bytes => prepend bytes (read_chars rest2)
                      | None => None
                      end
                  | None => None
                  end
              | _ => None
              end
            else
              match unescape e with
              | Some ch => prepend (String ch "") (read_chars rest1)
              | None => None
              end
        end
      else if (code c <? 32)%N then None
      else prepend (String c "") (read_chars rest)
  end.

(** *** Numbers *)

Definition number_char (c : ascii) : bool :=
  ((48 <=? code c)%N && (code c <=? 57)%N)
  || Ascii.eqb c "-" || Ascii.eqb c "+" || Ascii.eqb c "."
  || Ascii.eqb c "e" || Ascii.eqb c "E".

Fixpoint span_number (s : string) : string * string :=
  match s with
  | EmptyString => (EmptyString, EmptyString)
  | String c rest =>
      if number_char c
      then let '(lit, r) := span_number rest in (String c lit, r)
      else (EmptyString, s)
  end.

Definition read_number (s : string) : option (string * string) :=
  match span_number s with
  | (EmptyString, _) => None
  | (lit, rest) => Some (lit, rest)
  end.

(** *** Values *)

Fixpoint read_value (fuel : nat) (s : string) : option (value * string) :=
  match fuel with
  | O => None
  | S fuel' =>
      match s with
      | EmptyString => None
      | String c rest =>
          if Ascii.eqb c dq then
            match read_chars rest with
            | Some (str, r) => Some (VString str, r)
            | None => None
            end
          else if Ascii.eqb c "{" then
            match rest with
            | String "}" r => Some (VObject MNil, r)
            | _ =>
                match read_members fuel' rest with
                | Some (ms, r) => Some (VObject ms, r)
                | None => None
                end
            end
          else
            match read_number s with
            | Some (lit, r) => Some (VNumber lit, r)
            | None => None
            end
      end
  end
with read_members (fuel : nat) (s : string) : option (members * string) :=
  match fuel with
  | O => None
  | S fuel' =>
      match s with
      | String c rest =>
          if Ascii.eqb c dq then
            match read_chars rest with
            | Some (key, String ":" r1) =>
                match read_value fuel' r1 with
                | Some (v, String "," r2) =>
                    match read_members fuel' r2 with
                    | Some (ms, r3) => Some (MCons key v ms, r3)
                    | None => None
                    end
                | Some (v, String "}" r2) => Some (MCons key v MNil, r2)
                | _ => None
                end
            | _ => None
            end
          else None
      | EmptyString => None
      end
  end.

(** The whole text is one value. *)
Definition parse (s : string) : option value :=
  match read_value (S (String.length s)) s with
  | Some (v, EmptyString) => Some v
  | _ => None
  end.

(** The first member named [key]. *)
Fixpoint lookup (key : string) (ms : members) : option value :=
  match ms with
  | MNil => None
  | MCons k v rest => if (k =? key)%string then Some v else lookup key rest
  end.

Definition string_member (key : string) (v : value) : option string :=
  match v with
  | VObject ms =>
      match lookup key ms with
      | Some (VString s) => Some s
      | _ => None
      end
  | _ => None
  end.

End JsonReader.

(** ** A reader for the batch envelope

    Not part of the client: it reads the JSON text of an object with two
    members, the first a string and the second an array of values, which is
    the shape of the body [send_batch] posts.  Keys and strings are read by
    [read_chars], array elements by [read_value]. *)

Module Envelope.
Import JsonReader.

Definition expect (c : ascii) (s : string) : option string :=
  match s with
  | String c' rest => if Ascii.eqb c' c then Some rest else None
  | EmptyString => None
  end.

(** A string literal, opening quote included. *)
Definition read_string (s : string) : option (string * string) :=
  match expect dq s with
  | Some rest => read_chars rest
  | None => None
  end.

(** The elements of a non-empty array and its closing bracket. *)
Fixpoint read_elements (fuel : nat) (s : string) : option (list value * string) :=
  match fuel with
  | O => None
  | S fuel' =>
      match read_value (S (String.length s)) s with
      | Some (v, rest) =>
          match expect "," rest, expect "]" rest with
          | Some r, _ =>
              match read_elements fuel' r with
              | Some (vs, r') => Some (v :: vs, r')
              | None => None
              end
          | None, Some r => Some ([v], r)
          | None, None => None
          end
      | None => None
      end
  end.

(** An array, opening bracket included. *)
Definition read_array (s : string) : option (list value * string) :=
  match expect "[" s with
  | Some rest =>
      match expect "]" rest with
      | Some r => Some ([], r)
      | None => read_elements (S (String.length rest)) rest
      end
  | None => None
  end.

(** What an envelope holds: the two keys, the string and the elements. *)
Record envelope : Set := mkEnvelope {
  first_key : string;
  first_value : string;
  second_key : string;
  second_value : list value
}.

(** The whole text is one object [{<string>:<string>,<string>:<array>}]. *)
Definition parse (s : string) : option envelope :=
  match expect "{" s with
  | Some r0 =>
    match read_string r0 with
    | Some (k1, r1) =>
      match expect ":" r1 with
      | Some r2 =>
        match read_string r2 with
        | Some (v1, r3) =>
          match expect "," r3 with
          | Some r4 =>
            match read_string r4 with
            | Some (k2, r5) =>
              match expect ":" r5 with
              | Some r6 =>
                match read_array r6 with
                | Some (vs, r7) =>
                  match expect "}" r7 with
                  | Some EmptyString => Some (mkEnvelope k1 v1 k2 vs)
                  | _ => None
                  end
                | None => None
                end
              | None => None
              end
            | None => None
            end
          | None => None
          end
        | None => None
        end
      | None => None
      end
    | None => None
    end
  | None => None
  end.

End Envelope.

(** ** The value a serialized record denotes

    The printer [render] and the value [record_value] state what
    [serialize_record] is expected to write; neither is code of the client. *)

Module RoundTrip.
Import Level Config Core JsonReader.

Fixpoint string_forall (f : ascii -> bool) (s : string) : bool :=
  match s with
  | EmptyString => true
  | String c rest => f c && string_forall f rest
  end.

(** A non-empty run of number characters. *)
Definition number_text (s : string) : bool :=
  negb (s =? "")%string && string_forall number_char s.

(** No quote, no backslash, no control character: text that needs no escape. *)
Definition plain_text (s : string) : bool :=
  string_forall
    (fun c => negb (Ascii.eqb c dq) && negb (Ascii.eqb c "\") && negb (code c <? 32)%N) s.

(** The text after a value does not continue a number. *)
Definition delimited (rest : string) : bool :=
  match rest with
  | EmptyString => true
  | String c _ => negb (number_char c)
  end.

(** Compact JSON text of a value, strings escaped by [escape_json]. *)
Fixpoint render (v : value) : string :=
  match v with
  | VString s => quoted (escape_json s)
  | VNumber literal => literal
  | VObject MNil => "{}"
  | VObject (MCons k v' ms) =>
      ("{" ++ quoted (escape_json k) ++ ":" ++ render v' ++ render_tail ms ++ "}")%string
  end
with render_tail (ms : members) : string :=
  match ms with
  | MNil => ""
  | MCons k v ms' =>
      ("," ++ quoted (escape_json k) ++ ":" ++ render v ++ render_tail ms')%string
  end.

Fixpoint well_formed (v : value) : bool :=
  match v with
  | VString _ => true
  | VNumber literal => number_text literal
  | VObject ms => well_formed_members ms
  end
with well_formed_members (ms : members) : bool :=
  match ms with
  | MNil => true
  | MCons _ v ms' => well_formed v && well_formed_members ms'
  end.

(** Fuel that suffices to read a value back. *)
Fixpoint need (v : value) : nat :=
  match v with
  | VObject ms => S (need_members ms)
  | _ => 1
  end
with need_members (ms : members) : nat :=
  match ms with
  | MNil => 0
  | MCons _ v ms' => S (Nat.max (need v) (need_members ms'))
  end.

Fixpoint context_members (entries : list (string * string)) : members :=
  match entries with
  | [] => MNil
  | (key, value) :: rest => MCons key (VString value) (context_members rest)
  end.

(** The level names of the wire protocol: lower case,
    [debug|info|warn|error|critical]. *)
Definition wire_level_name (l : LogLevel) : string :=
  match l with
  | DEBUG => "debug"
  | INFO => "info"
  | WARN => "warn"
  | ERROR => "error"
  | CRITICAL => "critical"
  end.

(** The unified-schema object of a record. *)
Definition record_value (p : Platform) (config : DrtraceConfig)
    (record : LogRecord) : value :=
  VObject
    (MCons "ts" (VNumber (ts_text p record))
    (MCons "level" (VString (wire_level_name (level record)))
    (MCons "message" (VString (message record))
    (MCons "application_id" (VString (application_id config))
    (MCons "module_name" (VString (logger_name record))
    ((fun rest =>
        if negb (service_name config =? "")%string
        then MCons "service_name" (VString (service_name config)) rest else rest)
    ((fun rest =>
        if negb (filename (source record) =? "")%string
        then MCons "file_path" (VString (filename (source record))) rest else rest)
    ((fun rest =>
        if (0 <? line (source record))%Z
        then MCons "line_no" (VNumber (print_int (line (source record)))) rest else rest)
    (MCons "context"
       (VObject
          (MCons "language" (VString "cpp")
          (MCons "thread_id" (VString (this_thread_id p))
             (context_members (context record)))))
       MNil))))))))).

(** A record with every kind of character in its message. *)
Definition tricky_record : LogRecord :=
  {| level := ERROR;
     message :=
       String dq (String "\" (String "008" (String "012" (String "010"
         (String "013" (String "009" (String "001" (String "031" (String "127"
           (String "195" (String "169" (String "240" (String "159" (String "152"
             (String "128" "plain/text")))))))))))))));
     logger_name := "test-logger";
     timestamp := 1700000000123456789;
     source := {| filename := "src/main.cpp"; line := 42; function := "main" |};
     context := [("thread_id", "140245"); ("user", String dq "x")] |}.

End RoundTrip.

(** ** Vocabulary for numerals in the environment *)

Module EnvText.
Import Config.

(** The text does not go on with a digit: [strtol] stops reading here. *)
Definition ends_number (suffix : string) : bool :=
  match suffix with
  | EmptyString => true
  | String c _ => negb (isdigit c)
  end.

(** White space only. *)
Fixpoint blank (ws : string) : bool :=
  match ws with
  | EmptyString => true
  | String c rest => isspace c && blank rest
  end.

End EnvText.

(** ** The direct client API *)

Module Client.
Import Level Config Transport Core.

(** [class DrtraceClient], lines 521-638.  [core_] is created by the
    constructor and never reset, so the tests [if (core_)] hold; the
    configuration is passed to each operation as for the engine. *)
Record DrtraceClient : Set := mkClient {
  logger_name_ : string;
  core_ : DrtraceCore
}.

(** The constructor, lines 523-527; the logger name defaults to "default". *)
Definition new (config : DrtraceConfig) (logger_name : option string)
    (curl_easy_init_ok : bool) : DrtraceClient :=
  {| logger_name_ := match logger_name with Some n => n | None => "default" end;
     core_ := Core.new config curl_easy_init_ok |}.

(** The record built by [DrtraceClient::log], lines 558-575: [now] is
    [system_clock::now()], a null [filename] or [function] leaves the member
    empty, and the context holds the calling thread's identifier. *)
Definition make_record (p : Platform) (logger_name : string) (now : Z)
    (level : LogLevel) (message : string) (filename : option string) (line : Z)
    (function : option string) : LogRecord :=
  {| Core.level := level;
     Core.message := message;
     Core.logger_name := logger_name;
     Core.timestamp := now;
     Core.source :=
       {| Core.filename := match filename with Some f => f | None => "" end;
          Core.line := line;
          Core.function := match function with Some f => f | None => "" end |};
     Core.context := [("thread_id", this_thread_id p)] |}.

(** [DrtraceClient::log], lines 549-578. *)
Definition log (p : Platform) (config : DrtraceConfig) (env : Env) (now : Z)
    (level : LogLevel) (message : string) (filename : option string) (line : Z)
    (function : option string) (client : DrtraceClient)
  : DrtraceClient * list Event :=
  if negb (enabled config) then (client, [])
  else
    let record :=
      make_record p (logger_name_ client) now level message filename line function in
    let '(core', events) := Core.log p config env record (core_ client) in
    (mkClient (logger_name_ client) core', events).

(** The convenience methods, lines 583-616, with their default arguments
    made explicit by the caller. *)
Definition debug p config env now message filename line function client :=
  log p config env now DEBUG message filename line function client.
Definition info p config env now message filename line function client :=
  log p config env now INFO message filename line function client.
Definition warn p config env now message filename line function client :=
  log p config env now WARN message filename line function client.
Definition error p config env now message filename line function client :=
  log p config env now ERROR message filename line function client.
Definition critical p config env now message filename line function client :=
  log p config env now CRITICAL message filename line function client.

(** [DrtraceClient::flush], lines 621-625, which the destructor also runs. *)
Definition flush (env : Env) (client : DrtraceClient) : DrtraceClient * list Event :=
  let '(core', events) := Core.flush env (core_ client) in
  (mkClient (logger_name_ client) core', events).

End Client.

(** ** The spdlog adapter *)

Module Sink.
Import Level Config Transport Core.

(** [spdlog::level::level_enum]; [off] stands for every value the switch of
    [convert_to_log_record] leaves to its default. *)
Inductive level_enum : Set := trace | debug | info | warn | err | critical | off.

Definition severity (l : level_enum) : Z :=
  match l with
  | trace => 0 | debug => 1 | info => 2 | warn => 3 | err => 4 | critical => 5
  | off => 6
  end.

(** What the adapter reads of [spdlog::details::log_msg]. *)
Record log_msg : Set := {
  msg_level : level_enum;
  payload : string;
  msg_logger_name : string;
  time : Z;
  source_filename : option string;
  source_line : Z;
  source_funcname : option string
}.

(** The switch of [convert_to_log_record], lines 438-458. *)
Definition map_level (l : level_enum) : LogLevel :=
  match l with
  | trace | debug => DEBUG
  | info => INFO
  | warn => WARN
  | err => ERROR
  | critical => CRITICAL
  | off => INFO
  end.

(** [convert_to_log_record], lines 434-482. *)
Definition convert_to_log_record (p : Platform) (msg : log_msg) : LogRecord :=
  {| Core.level := map_level (msg_level msg);
     Core.message := payload msg;
     Core.logger_name := msg_logger_name msg;
     Core.timestamp := time msg;
     Core.source :=
       {| Core.filename := match source_filename msg with Some f => f | None => "" end;
          Core.line := source_line msg;
          Core.function := match source_funcname msg with Some f => f | None => "" end |};
     Core.context := [("thread_id", this_thread_id p)] |}.

(** [sink_it_], lines 411-421; [core_] is set by the constructor and never
    reset, so it is not null. *)
Definition sink_it_ (p : Platform) (config : DrtraceConfig) (env : Env)
    (msg : log_msg) (core : DrtraceCore) : DrtraceCore * list Event :=
  if negb (enabled config) then (core, [])
  else Core.log p config env (convert_to_log_record p msg) core.

End Sink.

(** ** One-time initialization of libcurl *)

Module CurlInit.

(** The state of [detail::curl_init_ref_count()]. *)
Definition ref_count : Set := Z.

(** [detail::ensure_curl_initialized], lines 163-168: the new count, and
    whether [curl_global_init] was called. *)
Definition ensure_curl_initialized (count : ref_count) : ref_count * bool :=
  ((count + 1)%Z, (count =? 0)%Z).

(** The last statement of [~HttpTransport], line 889. *)
Definition release (count : ref_count) : ref_count := (count - 1)%Z.

(** Transports coming and going. *)
Inductive Op : Set := Construct | Destruct.

(** The count after a sequence of constructions and destructions, and the
    number of calls of [curl_global_init] they made. *)
Fixpoint run (ops : list Op) (count : ref_count) : ref_count * nat :=
  match ops with
  | [] => (count, O)
  | Construct :: rest =>
      let '(count1, called) := ensure_curl_initialized count in
      let '(count2, calls) := run rest count1 in
      (count2, if called then S calls else calls)
  | Destruct :: rest => run rest (release count)
  end.

(** Number of transports alive after [ops], none being alive before. *)
Fixpoint alive (ops : list Op) : Z :=
  match ops with
  | [] => 0
  | Construct :: rest => (alive rest + 1)%Z
  | Destruct :: rest => (alive rest - 1)%Z
  end.

(** No destruction without a transport to destroy, at every point. *)
Fixpoint well_bracketed (ops : list Op) (live : Z) : bool :=
  match ops with
  | [] => true
  | Construct :: rest => well_bracketed rest (live + 1)
  | Destruct :: rest => (1 <=? live)%Z && well_bracketed rest (live - 1)
  end.

End CurlInit.

(** ** More trace readers *)

Module TraceMore.

(** The durations of the [sleep_for] calls of a trace, in order. *)
Definition sleeps (events : list Event) : list Z :=
  flat_map (fun e => match e with Sleep ms => [ms] | _ => [] end) events.

(** The sum of a list of durations. *)
Definition total (durations : list Z) : Z := fold_right Z.add 0%Z durations.

(** The records that left the buffer, in the order they left it: an evicted
    record at its [erase], the records of a batch at its hand-off. *)
Definition departed (events : list Event) : list string :=
  flat_map (fun e =>
              match e with
              | BufErase r => [r]
              | SendBatch b => b
              | _ => []
              end) events.

(** The records given to [log] by a sequence of calls, in order. *)
Definition logged (calls : list Core.Call) : list Core.LogRecord :=
  flat_map (fun c =>
              match c with
              | Core.CallLog _ record => [record]
              | Core.CallFlush _ => []
              end) calls.

End TraceMore.

(** ** Member names of an object *)

Module Members.
Import JsonReader.

Fixpoint keys (ms : members) : list string :=
  match ms with
  | MNil => []
  | MCons k _ rest => k :: keys rest
  end.

End Members.

(** * Properties *)

(** ** Facts on strings *)

Section StringFacts.

Lemma append_nil_r (s : string) : (s ++ "")%string = s.
Proof. induction s as [| c s IH]; simpl; [reflexivity | rewrite IH; reflexivity]. Qed.

Lemma append_assoc (a b c : string) : ((a ++ b) ++ c = a ++ (b ++ c))%string.
Proof. induction a as [| x a IH]; simpl; [reflexivity | rewrite IH; reflexivity]. Qed.

Lemma length_append (a b : string) :
  String.length (a ++ b)%string = (String.length a + String.length b)%nat.
Proof. induction a as [| x a IH]; simpl; [reflexivity | rewrite IH; reflexivity]. Qed.

End StringFacts.

(** ** Facts on [tolower] and [spells] *)

Section CaseFacts.
Import Level.

Lemma tolower_upper_of (n : ascii) :
  is_lower n = true -> tolower (upper_of n) = n.
Proof.
  destruct n as [[] [] [] [] [] [] [] []]; vm_compute; intros;
    first [reflexivity | discriminate].
Qed.

Lemma tolower_spells_char (c n : ascii) :
  negb ((65 <=? code n)%N && (code n <=? 90)%N) = true ->
  char_spells c n = true -> tolower c = n.
Proof.
  intros Hn Hc. unfold char_spells in Hc.
  apply orb_prop in Hc as [Hc | Hc].
  - apply Ascii.eqb_eq in Hc; subst c. unfold tolower.
    apply negb_true_iff in Hn. rewrite Hn. reflexivity.
  - apply andb_prop in Hc as [Hl Hc].
    apply Ascii.eqb_eq in Hc; subst c. apply tolower_upper_of, Hl.
Qed.

Lemma spells_char_tolower (c : ascii) : char_spells c (tolower c) = true.
Proof. destruct c as [[] [] [] [] [] [] [] []]; vm_compute; reflexivity. Qed.

Lemma spells_lower (s name : string) :
  no_upper name = true -> spells s name = true -> string_map tolower s = name.
Proof.
  revert name; induction s as [| c s IH]; intros [| n name]; simpl;
    try discriminate; try reflexivity.
  intros Hn Hs.
  apply andb_prop in Hn as [Hn Hname].
  apply andb_prop in Hs as [Hc Hs].
  rewrite (tolower_spells_char c n Hn Hc), (IH name Hname Hs).
  reflexivity.
Qed.

Lemma lower_spells (s : string) : spells s (string_map tolower s) = true.
Proof.
  induction s as [| c s IH]; simpl; [reflexivity |].
  rewrite spells_char_tolower, IH. reflexivity.
Qed.

Lemma spells_refl (s : string) : spells s s = true.
Proof.
  induction s as [| c s IH]; simpl; [reflexivity |].
  unfold char_spells. rewrite Ascii.eqb_refl, IH. reflexivity.
Qed.

End CaseFacts.

(** ** [parse_log_level] *)

Section ParseLogLevel.
Import Level.

Lemma parse_lowered (s : string) :
  s <> "" ->
  parse_log_level (Some s) =
  let level := string_map tolower s in
  if level =? "debug" then DEBUG
  else if level =? "info" then INFO
  else if (level =? "warn") || (level =? "warning") then WARN
  else if level =? "error" then ERROR
  else if level =? "critical" then CRITICAL
  else DEBUG.
Proof. destruct s; [congruence | reflexivity]. Qed.

Lemma parse_spelled (s name : string) :
  name <> "" -> no_upper name = true -> spells s name = true ->
  parse_log_level (Some s) = parse_log_level (Some name).
Proof.
  intros Hne Hup Hs.
  assert (Hl : string_map tolower s = name) by (apply spells_lower; assumption).
  assert (Hn : string_map tolower name = name)
    by (apply spells_lower; [assumption | apply spells_refl]).
  assert (Hs0 : s <> "") by (intros ->; simpl in Hl; congruence).
  rewrite (parse_lowered s Hs0), (parse_lowered name Hne).
  cbv zeta. rewrite Hl, Hn. reflexivity.
Qed.

Lemma spells_of_lowered (s name : string) :
  string_map tolower s = name -> spells s name = true.
Proof. intros <-. apply lower_spells. Qed.

Lemma parse_unrecognized (s : string) :
  recognized s = false -> parse_log_level (Some s) = DEBUG.
Proof.
  intros Hr. destruct s as [| c s]; [reflexivity |].
  rewrite parse_lowered by discriminate. cbv zeta.
  set (l := string_map tolower (String c s)).
  assert (Hsp : forall name, l = name -> spells (String c s) name = true)
    by (intros name; apply spells_of_lowered).
  unfold recognized in Hr.
  repeat (apply orb_false_elim in Hr; destruct Hr as [Hr ?]).
  repeat match goal with
  | |- context [(l =? ?name)%string] =>
      let E := fresh "E" in
      destruct (l =? name)%string eqn:E;
      [ apply String.eqb_eq in E; apply Hsp in E; congruence | ]
  end.
  reflexivity.
Qed.

(** C10: [parse_log_level] is a total function that returns DEBUG for a null
    pointer and for the empty string, maps every spelling of "debug",
    "info", "warn", "error", "critical" in any letter case to that level,
    every spelling of "warning" to WARN, and every other string to DEBUG. *)
Theorem parse_log_level_total_case_insensitive :
  parse_log_level None = DEBUG /\
  parse_log_level (Some "") = DEBUG /\
  forall s : string,
    (spells s "debug" = true -> parse_log_level (Some s) = DEBUG) /\
    (spells s "info" = true -> parse_log_level (Some s) = INFO) /\
    (spells s "warn" = true -> parse_log_level (Some s) = WARN) /\
    (spells s "warning" = true -> parse_log_level (Some s) = WARN) /\
    (spells s "error" = true -> parse_log_level (Some s) = ERROR) /\
    (spells s "critical" = true -> parse_log_level (Some s) = CRITICAL) /\
    (recognized s = false -> parse_log_level (Some s) = DEBUG).
Proof.
  split; [reflexivity |]. split; [reflexivity |].
  intros s.
  repeat split; try apply parse_unrecognized;
    intros H; apply parse_spelled in H; try discriminate; try reflexivity;
    rewrite H; reflexivity.
Qed.

Lemma parse_log_level_total_case_insensitive_witness :
  parse_log_level (Some "DeBuG") = DEBUG /\
  parse_log_level (Some "INFO") = INFO /\
  parse_log_level (Some "Warn") = WARN /\
  parse_log_level (Some "WARNING") = WARN /\
  parse_log_level (Some "eRRor") = ERROR /\
  parse_log_level (Some "CRITICAL") = CRITICAL /\
  parse_log_level (Some "trace") = DEBUG.
Proof.
  destruct parse_log_level_total_case_insensitive as (_ & _ & H).
  split; [destruct (H "DeBuG") as (h & _); apply h; reflexivity |].
  split; [destruct (H "INFO") as (_ & h & _); apply h; reflexivity |].
  split; [destruct (H "Warn") as (_ & _ & h & _); apply h; reflexivity |].
  split; [destruct (H "WARNING") as (_ & _ & _ & h & _); apply h; reflexivity |].
  split; [destruct (H "eRRor") as (_ & _ & _ & _ & h & _); apply h; reflexivity |].
  split; [destruct (H "CRITICAL") as (_ & _ & _ & _ & _ & h & _); apply h; reflexivity |].
  destruct (H "trace") as (_ & _ & _ & _ & _ & _ & h); apply h; reflexivity.
Defined.

End ParseLogLevel.

(** ** [DrtraceConfig::from_env] *)

Section FromEnv.
Import Level Config.
Local Open Scope Z_scope.

Ltac case_matches :=
  repeat match goal with
  | |- context [match ?x with _ => _ end] => destruct x
  end.

(** A block that assigns other members leaves member [F] alone. *)
Ltac skip_block F :=
  match goal with
  | |- F (?f ?e ?c) = _ =>
      let H := fresh in
      assert (H : forall c0, F (f e c0) = F c0)
        by (intro; unfold f; case_matches; reflexivity);
      rewrite (H c); clear H
  end.

(** The block that assigns [F] reads nothing else of the configuration. *)
Ltac own_block F :=
  match goal with
  | |- F (?f ?e ?c) = F (?f ?e ?d) =>
      let H := fresh in
      assert (H : forall c0 d0, F c0 = F d0 -> F (f e c0) = F (f e d0))
        by (intros ? ? ?; unfold f; case_matches; simpl; first [assumption | reflexivity]);
      apply H; clear H
  end.

Ltac member_of_from_env F :=
  unfold from_env; cbv zeta;
  repeat skip_block F; own_block F; repeat skip_block F; reflexivity.

Lemma from_env_circuit_reset_interval (e : ProcEnv) :
  circuit_reset_interval (from_env e) =
  circuit_reset_interval (read_circuit_reset_ms e default_config).
Proof. member_of_from_env circuit_reset_interval. Qed.

Lemma from_env_max_buffer_size (e : ProcEnv) :
  max_buffer_size (from_env e) =
  max_buffer_size (read_max_buffer_size e default_config).
Proof. member_of_from_env max_buffer_size. Qed.

Lemma from_env_http_timeout (e : ProcEnv) :
  http_timeout (from_env e) =
  http_timeout (read_http_timeout_ms e default_config).
Proof. member_of_from_env http_timeout. Qed.

Lemma from_env_retry_backoff (e : ProcEnv) :
  retry_backoff (from_env e) =
  retry_backoff (read_retry_backoff_ms e default_config).
Proof. member_of_from_env retry_backoff. Qed.

Lemma from_env_max_retries (e : ProcEnv) :
  max_retries (from_env e) =
  max_retries (read_max_retries e default_config).
Proof. member_of_from_env max_retries. Qed.

Lemma override_rule_intro (conv : string -> conversion) (least : Z)
    (var : option string) (default value : Z) :
  value =
    match var with
    | Some s =>
        match conv s with
        | Converted v => if least <=? v then v else default
        | _ => default
        end
    | None => default
    end ->
  override_rule conv least var default value.
Proof.
  intros ->. unfold override_rule. repeat split.
  - intros ->. reflexivity.
  - intros s -> [-> | ->]; reflexivity.
  - intros s v -> -> Hv. destruct (Z.leb_spec least v); [lia | reflexivity].
  - intros s v -> -> Hv. destruct (Z.leb_spec least v); [reflexivity | lia].
Qed.

Lemma strtol10_non_numeric (c : ascii) (rest : string) :
  isspace c = false -> isdigit c = false -> c <> "-"%char -> c <> "+"%char ->
  strtol10 (String c rest) = None.
Proof.
  intros Hs Hd Hm Hp. unfold strtol10. simpl skip_space. rewrite Hs.
  destruct (Ascii.eqb_spec c "-"); [congruence |].
  destruct (Ascii.eqb_spec c "+"); [congruence |].
  assert (E : match String c rest with
              | String "-" r => (true, r)
              | String "+" r => (false, r)
              | _ => (false, String c rest)
              end = (false, String c rest)).
  { destruct c as [[] [] [] [] [] [] [] []]; try reflexivity; congruence. }
  rewrite E. rewrite Hd. reflexivity.
Qed.

(** C9, as the claim states it, fails for the retry count: with
    [DRTRACE_MAX_RETRIES=0] the non-positive value [0] is not ignored, the
    configured [max_retries] is [0] and not the default [3]. *)
Lemma from_env_zero_max_retries_accepted :
  getenv (env_of [("DRTRACE_MAX_RETRIES", "0")]) "DRTRACE_MAX_RETRIES" = Some "0"%string /\
  stoi "0" = Converted 0 /\
  max_retries default_config = 3 /\
  max_retries (from_env (env_of [("DRTRACE_MAX_RETRIES", "0")])) = 0 /\
  ~ override_rule stoi 1
      (getenv (env_of [("DRTRACE_MAX_RETRIES", "0")]) "DRTRACE_MAX_RETRIES")
      3 (max_retries (from_env (env_of [("DRTRACE_MAX_RETRIES", "0")]))).
Proof.
  repeat split; try reflexivity.
  intros (_ & _ & H & _).
  specialize (H "0"%string 0 eq_refl eq_refl).
  vm_compute in H. specialize (H eq_refl). discriminate H.
Qed.

(** C9, amended: for every environment, each numeric override of
    [from_env] keeps the compiled-in default when the variable is unset,
    when its value is invalid ([std::stol] / [std::stoi] throws: no leading
    decimal integer, or out of range) and when the integer read is below the
    smallest accepted value; otherwise the integer read is stored.  The
    smallest accepted value is 1 for the circuit reset interval, the HTTP
    timeout and the retry backoff, and 0 for the maximum buffer size and for
    the maximum number of retries.  A string that starts with neither white
    space, a sign nor a digit is invalid. *)
Theorem from_env_numeric_overrides (e : ProcEnv) :
  override_rule stol 1 (getenv e "DRTRACE_CIRCUIT_RESET_MS")
    30000 (circuit_reset_interval (from_env e)) /\
  override_rule stol 0 (getenv e "DRTRACE_MAX_BUFFER_SIZE")
    10000 (Z.of_N (max_buffer_size (from_env e))) /\
  override_rule stol 1 (getenv e "DRTRACE_HTTP_TIMEOUT_MS")
    1000 (http_timeout (from_env e)) /\
  override_rule stol 1 (getenv e "DRTRACE_RETRY_BACKOFF_MS")
    100 (retry_backoff (from_env e)) /\
  override_rule stoi 0 (getenv e "DRTRACE_MAX_RETRIES")
    3 (max_retries (from_env e)) /\
  (forall c rest,
     isspace c = false -> isdigit c = false -> c <> "-"%char -> c <> "+"%char ->
     stol (String c rest) = InvalidArgument /\
     stoi (String c rest) = InvalidArgument).
Proof.
  refine (conj _ (conj _ (conj _ (conj _ (conj _ _))))); [| | | | | intros; split].
  - apply override_rule_intro. rewrite from_env_circuit_reset_interval.
    unfold read_circuit_reset_ms.
    destruct (getenv e "DRTRACE_CIRCUIT_RESET_MS") as [s |]; [| reflexivity].
    destruct (stol s) as [v | |]; try reflexivity.
    change (1 <=? v) with (Z.succ 0 <=? v).
    destruct (Z.ltb_spec 0 v), (Z.leb_spec (Z.succ 0) v); try lia; reflexivity.
  - apply override_rule_intro. rewrite from_env_max_buffer_size.
    unfold read_max_buffer_size.
    destruct (getenv e "DRTRACE_MAX_BUFFER_SIZE") as [s |]; [| reflexivity].
    destruct (stol s) as [v | |]; try reflexivity.
    destruct (Z.leb_spec 0 v); [| reflexivity].
    simpl. lia.
  - apply override_rule_intro. rewrite from_env_http_timeout.
    unfold read_http_timeout_ms.
    destruct (getenv e "DRTRACE_HTTP_TIMEOUT_MS") as [s |]; [| reflexivity].
    destruct (stol s) as [v | |]; try reflexivity.
    change (1 <=? v) with (Z.succ 0 <=? v).
    destruct (Z.ltb_spec 0 v), (Z.leb_spec (Z.succ 0) v); try lia; reflexivity.
  - apply override_rule_intro. rewrite from_env_retry_backoff.
    unfold read_retry_backoff_ms.
    destruct (getenv e "DRTRACE_RETRY_BACKOFF_MS") as [s |]; [| reflexivity].
    destruct (stol s) as [v | |]; try reflexivity.
    change (1 <=? v) with (Z.succ 0 <=? v).
    destruct (Z.ltb_spec 0 v), (Z.leb_spec (Z.succ 0) v); try lia; reflexivity.
  - apply override_rule_intro. rewrite from_env_max_retries.
    unfold read_max_retries.
    destruct (getenv e "DRTRACE_MAX_RETRIES") as [s |]; [| reflexivity].
    destruct (stoi s) as [v | |]; try reflexivity.
    destruct (Z.leb_spec 0 v); reflexivity.
  - unfold stol. rewrite strtol10_non_numeric by assumption. reflexivity.
  - unfold stoi. rewrite strtol10_non_numeric by assumption. reflexivity.
Qed.

Lemma from_env_numeric_overrides_witness :
  circuit_reset_interval (from_env sample_overrides) = 30000 /\
  Z.of_N (max_buffer_size (from_env sample_overrides)) = 0 /\
  http_timeout (from_env sample_overrides) = 1000 /\
  retry_backoff (from_env sample_overrides) = 250 /\
  max_retries (from_env sample_overrides) = 0.
Proof.
  destruct (from_env_numeric_overrides sample_overrides)
    as (H1 & H2 & H3 & H4 & H5 & _).
  split; [| split; [| split; [| split]]].
  - destruct H1 as (_ & H & _ & _).
    apply (H "abc"%string); [reflexivity | left; reflexivity].
  - destruct H2 as (_ & _ & _ & H).
    apply (H "0"%string 0); [reflexivity | reflexivity | lia].
  - destruct H3 as (_ & _ & H & _).
    apply (H "-1000"%string (-1000)); [reflexivity | reflexivity | lia].
  - destruct H4 as (_ & _ & _ & H).
    apply (H "250"%string 250); [reflexivity | reflexivity | lia].
  - destruct H5 as (_ & _ & _ & H).
    apply (H "0"%string 0); [reflexivity | reflexivity | lia].
Defined.

End FromEnv.

(** ** 64-bit arithmetic *)

Section Int64Facts.
Local Open Scope Z_scope.

Lemma wrap_exact (z : Z) : Int64.in_range z = true -> Int64.wrap z = z.
Proof.
  unfold Int64.in_range, Int64.INT64_MIN, Int64.INT64_MAX, Int64.wrap. intros H.
  apply andb_prop in H as [Hlo Hhi]. apply Z.leb_le in Hlo, Hhi.
  rewrite Z.mod_small; lia.
Qed.

Lemma add_exact (a b : Z) : Int64.in_range (a + b) = true -> Int64.add a b = a + b.
Proof. apply wrap_exact. Qed.

Lemma mul_exact (a b : Z) : Int64.in_range (a * b) = true -> Int64.mul a b = a * b.
Proof. apply wrap_exact. Qed.

Lemma in_range_between (lo hi z : Z) :
  Int64.in_range lo = true -> Int64.in_range hi = true -> lo <= z <= hi ->
  Int64.in_range z = true.
Proof.
  unfold Int64.in_range. intros Hlo Hhi Hz.
  apply andb_prop in Hlo as [Hlo _]. apply andb_prop in Hhi as [_ Hhi].
  apply Z.leb_le in Hlo, Hhi.
  apply andb_true_intro. split; apply Z.leb_le; lia.
Qed.

End Int64Facts.

(** ** [HttpTransport::send_batch]: payload, guards, retry loop *)

Section SendBatch.
Import Config Transport Core.
Local Open Scope Z_scope.

Lemma payload_records_join (r : string) (rest : list string) (i : nat) :
  (0 < i)%nat ->
  (r ++ payload_records i rest)%string = String.concat "," (r :: rest).
Proof.
  revert r i; induction rest as [| r' rest IH]; intros r i Hi.
  - simpl. apply append_nil_r.
  - cbn [payload_records String.concat].
    destruct (Nat.ltb_spec 0 i) as [_ | Hc]; [| lia].
    rewrite (IH r' (S i)) by lia. reflexivity.
Qed.

Lemma payload_records_concat (log_records : list string) :
  payload_records 0 log_records = String.concat "," log_records.
Proof.
  destruct log_records as [| r rest]; [reflexivity |].
  cbn [payload_records]. simpl (0 <? 0)%nat. cbn [String.append].
  apply payload_records_join. lia.
Qed.

Lemma build_payload_wire (t : HttpTransport) (log_records : list string) :
  build_payload t log_records = wire_payload (application_id_ t) log_records.
Proof.
  unfold build_payload, wire_payload, quoted. rewrite payload_records_concat.
  cbn [String.concat].
  repeat first [rewrite append_assoc | progress cbn [append]].
  reflexivity.
Qed.

Lemma send_batch_guards_pass (t : HttpTransport) (env : Env) (log_records : list string) :
  guards_pass t env log_records ->
  send_batch t env log_records =
  let '(ok, t', events) := retry_loop t env (Z.to_nat (max_retries_ t)) 1 in
  (ok, t',
   Lock :: Setup (endpoint_ t) (build_payload t log_records) (http_timeout_ t) :: events).
Proof.
  intros (H0 & Hne & Hc & H1 & Hh). unfold send_batch.
  rewrite H0. destruct log_records as [| r rest]; [congruence |].
  rewrite Hc, H1, Hh. reflexivity.
Qed.

(** *** The retry loop *)

Lemma retry_loop_failed_prefix (t : HttpTransport) (env : Env) (m r a : nat) :
  (forall i, (a <= i < a + m)%nat -> attempt_fails env i) ->
  Z.of_nat (a + m) <= max_retries_ t ->
  retry_loop t env (m + r) (Z.of_nat a) =
  let '(ok, t', events) := retry_loop t env r (Z.of_nat (a + m)) in
  (ok, t',
   flat_map (fun i => [Perform (Z.of_nat i);
                       Sleep (Int64.mul (base_backoff_ms_ t) (Z.of_nat i))])
     (seq a m) ++ events).
Proof.
  revert a; induction m as [| m IH]; intros a Hfail Hmax.
  - rewrite Nat.add_0_r. simpl.
    destruct (retry_loop t env r (Z.of_nat a)) as [[ok t'] events]. reflexivity.
  - destruct (Hfail a ltac:(lia)) as [Hs Hp].
    cbn [Nat.add retry_loop]. rewrite Hs, Hp.
    destruct (Z.ltb_spec (Z.of_nat a) (max_retries_ t)) as [_ | Hc]; [| lia].
    replace (Z.of_nat a + 1) with (Z.of_nat (S a)) by lia.
    rewrite (IH (S a)) by (try (intros i Hi; apply Hfail); lia).
    replace (S a + m)%nat with (a + S m)%nat by lia.
    destruct (retry_loop t env r (Z.of_nat (a + S m))) as [[ok t'] events].
    reflexivity.
Qed.

Lemma retry_loop_success_at (t : HttpTransport) (env : Env) (k : nat) :
  (1 <= k <= Z.to_nat (max_retries_ t))%nat ->
  (forall i, (1 <= i < k)%nat -> attempt_fails env i) ->
  shutdown_flag_ env (BeforeAttempt (Z.of_nat k)) = false ->
  is_success (curl_easy_perform env (Z.of_nat k)) = true ->
  retry_loop t env (Z.to_nat (max_retries_ t)) 1 =
  (true, close_circuit t,
   failed_attempts (base_backoff_ms_ t) (k - 1) ++ [Perform (Z.of_nat k)]).
Proof.
  intros Hk Hfail Hs Hp.
  replace (Z.to_nat (max_retries_ t))
    with ((k - 1) + S (Z.to_nat (max_retries_ t) - k))%nat by lia.
  change 1 with (Z.of_nat 1).
  rewrite retry_loop_failed_prefix by (try (intros i Hi; apply Hfail); lia).
  replace (1 + (k - 1))%nat with k by lia.
  cbn [retry_loop]. rewrite Hs, Hp. reflexivity.
Qed.

Lemma retry_loop_shutdown_at (t : HttpTransport) (env : Env) (k : nat) :
  (1 <= k <= Z.to_nat (max_retries_ t))%nat ->
  (forall i, (1 <= i < k)%nat -> attempt_fails env i) ->
  shutdown_flag_ env (BeforeAttempt (Z.of_nat k)) = true ->
  retry_loop t env (Z.to_nat (max_retries_ t)) 1 =
  (false, t, failed_attempts (base_backoff_ms_ t) (k - 1)).
Proof.
  intros Hk Hfail Hs.
  replace (Z.to_nat (max_retries_ t))
    with ((k - 1) + S (Z.to_nat (max_retries_ t) - k))%nat by lia.
  change 1 with (Z.of_nat 1).
  rewrite retry_loop_failed_prefix by (try (intros i Hi; apply Hfail); lia).
  replace (1 + (k - 1))%nat with k by lia.
  cbn [retry_loop]. rewrite Hs. rewrite app_nil_r. reflexivity.
Qed.

Lemma retry_loop_exhausted (t : HttpTransport) (env : Env) :
  (forall i, (1 <= i <= Z.to_nat (max_retries_ t))%nat -> attempt_fails env i) ->
  retry_loop t env (Z.to_nat (max_retries_ t)) 1 =
  (false, open_circuit t (now_ms_open env),
   match Z.to_nat (max_retries_ t) with
   | O => []
   | S m => failed_attempts (base_backoff_ms_ t) m ++ [Perform (Z.of_nat (S m))]
   end).
Proof.
  intros Hfail.
  destruct (Z.to_nat (max_retries_ t)) as [| m] eqn:En; [reflexivity |].
  replace (S m) with (m + 1)%nat at 1 by lia.
  change 1 with (Z.of_nat 1).
  rewrite retry_loop_failed_prefix by (try (intros i Hi; apply Hfail); lia).
  destruct (Hfail (S m) ltac:(lia)) as [Hs Hp].
  cbn [retry_loop]. replace (1 + m)%nat with (S m) by lia.
  rewrite Hs, Hp.
  destruct (Z.ltb_spec (Z.of_nat (S m)) (max_retries_ t)) as [Hc | _]; [lia |].
  reflexivity.
Qed.

Lemma performs_app (a b : list Event) : performs (a ++ b) = performs a ++ performs b.
Proof. apply flat_map_app. Qed.

Lemma retry_loop_attempts_bounded (t : HttpTransport) (env : Env) (r : nat) (a : Z) :
  (length (performs (snd (retry_loop t env r a))) <= r)%nat.
Proof.
  revert a; induction r as [| r IH]; intros a; cbn [retry_loop]; [simpl; lia |].
  destruct (shutdown_flag_ env (BeforeAttempt a)); [simpl; lia |].
  destruct (is_success (curl_easy_perform env a)); [simpl; lia |].
  specialize (IH (a + 1)).
  destruct (retry_loop t env r (a + 1)) as [[ok t'] events].
  cbn [snd] in *. change (Perform a :: ?l) with ([Perform a] ++ l).
  rewrite !performs_app.
  destruct (a <? max_retries_ t); simpl; lia.
Qed.

Lemma retry_loop_no_setup (t : HttpTransport) (env : Env) (r : nat) (a : Z)
    (url payload : string) (timeout_ms : Z) :
  ~ In (Setup url payload timeout_ms) (snd (retry_loop t env r a)).
Proof.
  revert a; induction r as [| r IH]; intros a; cbn [retry_loop]; [simpl; tauto |].
  destruct (shutdown_flag_ env (BeforeAttempt a)); [simpl; tauto |].
  destruct (is_success (curl_easy_perform env a)).
  - simpl. intros [H | []]. discriminate H.
  - specialize (IH (a + 1)).
    destruct (retry_loop t env r (a + 1)) as [[ok t'] events]. cbn [snd] in *.
    intros [H | H]; [discriminate H |].
    apply in_app_or in H as [H | H]; [| exact (IH H)].
    destruct (a <? max_retries_ t); simpl in H; [destruct H as [H | []] |];
      [discriminate H | exact H].
Qed.

(** C8: [send_batch] returns false with no effect at all, so before taking
    [curl_mutex_], when the shutdown flag is set or the batch is empty; and
    once past the circuit check it takes the lock, loads the flag again and
    returns false, with the lock as its only effect (no curl option set, no
    attempt), when the flag is now set or the handle is null. *)
Theorem send_batch_early_returns (t : HttpTransport) (env : Env)
    (log_records : list string) :
  (shutdown_flag_ env BeforeLock = true ->
   send_batch t env log_records = (false, t, [])) /\
  (log_records = [] -> send_batch t env log_records = (false, t, [])) /\
  (shutdown_flag_ env BeforeLock = false ->
   log_records <> [] ->
   is_circuit_open t (now_ms_check env) = false ->
   shutdown_flag_ env AfterLock = true \/ curl_handle_ t = false ->
   send_batch t env log_records = (false, t, [Lock])).
Proof.
  unfold send_batch. split; [| split].
  - intros ->. reflexivity.
  - intros ->. destruct (shutdown_flag_ env BeforeLock); reflexivity.
  - intros -> Hne -> Hor.
    destruct log_records as [| r rest]; [congruence |].
    destruct Hor as [-> | ->]; [reflexivity |].
    rewrite orb_true_r. reflexivity.
Qed.

Lemma send_batch_early_returns_witness :
  send_batch sample_transport (env_shutdown_at BeforeLock) ["{a}"]%string
    = (false, sample_transport, []) /\
  send_batch sample_transport (env_down 0 0) [] = (false, sample_transport, []) /\
  send_batch sample_transport (env_shutdown_at AfterLock) ["{a}"]%string
    = (false, sample_transport, [Lock]).
Proof.
  split; [| split].
  - destruct (send_batch_early_returns sample_transport
                (env_shutdown_at BeforeLock) ["{a}"]%string) as (H & _ & _).
    apply H. reflexivity.
  - destruct (send_batch_early_returns sample_transport (env_down 0 0) [])
      as (_ & H & _).
    apply H. reflexivity.
  - destruct (send_batch_early_returns sample_transport
                (env_shutdown_at AfterLock) ["{a}"]%string) as (_ & _ & H).
    apply H; [reflexivity | discriminate | reflexivity | left; reflexivity].
Defined.

Lemma is_success_2xx (c : Z) : is_success (HttpStatus c) = true <-> 200 <= c <= 299.
Proof.
  unfold is_success. rewrite andb_true_iff, Z.leb_le, Z.ltb_lt. lia.
Qed.

Lemma send_batch_attempts_bounded (t : HttpTransport) (env : Env)
    (log_records : list string) :
  (length (performs (snd (send_batch t env log_records)))
   <= Z.to_nat (max_retries_ t))%nat.
Proof.
  unfold send_batch.
  destruct (shutdown_flag_ env BeforeLock); [simpl; lia |].
  destruct log_records as [| r rest]; [simpl; lia |].
  destruct (is_circuit_open t (now_ms_check env)); [simpl; lia |].
  destruct (shutdown_flag_ env AfterLock || negb (curl_handle_ t)); [simpl; lia |].
  pose proof (retry_loop_attempts_bounded t env (Z.to_nat (max_retries_ t)) 1) as H.
  destruct (retry_loop t env (Z.to_nat (max_retries_ t)) 1) as [[ok t'] events].
  exact H.
Qed.

Lemma send_batch_shutdown_at (t : HttpTransport) (env : Env)
    (log_records : list string) (k : nat) :
  guards_pass t env log_records ->
  (1 <= k <= Z.to_nat (max_retries_ t))%nat ->
  (forall i, (1 <= i < k)%nat -> attempt_fails env i) ->
  shutdown_flag_ env (BeforeAttempt (Z.of_nat k)) = true ->
  send_batch t env log_records =
  (false, t,
   Lock :: Setup (endpoint_ t) (build_payload t log_records) (http_timeout_ t)
     :: failed_attempts (base_backoff_ms_ t) (k - 1)).
Proof.
  intros Hg Hk Hfail Hs. rewrite (send_batch_guards_pass t env log_records Hg).
  rewrite (retry_loop_shutdown_at t env k Hk Hfail Hs). reflexivity.
Qed.

Lemma send_batch_success_at (t : HttpTransport) (env : Env)
    (log_records : list string) (k : nat) :
  guards_pass t env log_records ->
  (1 <= k <= Z.to_nat (max_retries_ t))%nat ->
  (forall i, (1 <= i < k)%nat -> attempt_fails env i) ->
  shutdown_flag_ env (BeforeAttempt (Z.of_nat k)) = false ->
  is_success (curl_easy_perform env (Z.of_nat k)) = true ->
  send_batch t env log_records =
  (true, close_circuit t,
   Lock :: Setup (endpoint_ t) (build_payload t log_records) (http_timeout_ t)
     :: failed_attempts (base_backoff_ms_ t) (k - 1) ++ [Perform (Z.of_nat k)]).
Proof.
  intros Hg Hk Hfail Hs Hp. rewrite (send_batch_guards_pass t env log_records Hg).
  rewrite (retry_loop_success_at t env k Hk Hfail Hs Hp). reflexivity.
Qed.

Lemma send_batch_exhausted (t : HttpTransport) (env : Env)
    (log_records : list string) :
  guards_pass t env log_records ->
  (forall i, (1 <= i <= Z.to_nat (max_retries_ t))%nat -> attempt_fails env i) ->
  send_batch t env log_records =
  (false, open_circuit t (now_ms_open env),
   Lock :: Setup (endpoint_ t) (build_payload t log_records) (http_timeout_ t)
     :: match Z.to_nat (max_retries_ t) with
        | O => []
        | S m => failed_attempts (base_backoff_ms_ t) m ++ [Perform (Z.of_nat (S m))]
        end).
Proof.
  intros Hg Hfail. rewrite (send_batch_guards_pass t env log_records Hg).
  rewrite (retry_loop_exhausted t env Hfail). reflexivity.
Qed.

(** What the two writers of the circuit leave in the transport. *)
Lemma close_circuit_state (t : HttpTransport) :
  circuit_open_ (close_circuit t) = false /\
  circuit_open_until_ms_ (close_circuit t) = circuit_open_until_ms_ t.
Proof. split; reflexivity. Qed.

Lemma open_circuit_state (t : HttpTransport) (now_ms : Z) :
  circuit_open_ (open_circuit t now_ms) = true /\
  circuit_open_until_ms_ (open_circuit t now_ms)
    = Int64.add now_ms (circuit_reset_interval_ t) /\
  (Int64.in_range (now_ms + circuit_reset_interval_ t) = true ->
   circuit_open_until_ms_ (open_circuit t now_ms) = now_ms + circuit_reset_interval_ t).
Proof.
  split; [reflexivity |]. split; [reflexivity |].
  intros H. cbn [open_circuit circuit_open_until_ms_]. apply add_exact, H.
Qed.

(** C5: in [send_batch] the HTTP call is performed at most [max_retries_]
    times.  For a call that gets past the early returns: if the shutdown
    flag is seen set before attempt [k], after [k - 1] failed attempts, the
    call returns false and leaves the circuit as it was; if attempt [k] is
    the first to answer with a code in 200..299, the call returns true right
    after it and the circuit flag is false; every failed attempt [i] that
    is not the last is followed by a sleep of [base_backoff_ms_ * i], a
    product of the 64-bit millisecond count and so the exact product
    whenever that fits, before attempt [i + 1]; and if all [max_retries_]
    attempts fail, the last is followed by no sleep, false is returned, and
    the circuit flag is true with the deadline [now + circuit_reset_interval_]. *)
Theorem send_batch_retries (t : HttpTransport) (env : Env)
    (log_records : list string) :
  (length (performs (snd (send_batch t env log_records)))
   <= Z.to_nat (max_retries_ t))%nat /\
  (forall c, is_success (HttpStatus c) = true <-> 200 <= c <= 299) /\
  is_success CurlError = false /\
  (guards_pass t env log_records ->
   forall k : nat,
     (1 <= k <= Z.to_nat (max_retries_ t))%nat ->
     (forall i, (1 <= i < k)%nat -> attempt_fails env i) ->
     (shutdown_flag_ env (BeforeAttempt (Z.of_nat k)) = true ->
      send_batch t env log_records =
      (false, t,
       Lock :: Setup (endpoint_ t) (build_payload t log_records) (http_timeout_ t)
         :: failed_attempts (base_backoff_ms_ t) (k - 1))) /\
     (shutdown_flag_ env (BeforeAttempt (Z.of_nat k)) = false ->
      is_success (curl_easy_perform env (Z.of_nat k)) = true ->
      send_batch t env log_records =
      (true, close_circuit t,
       Lock :: Setup (endpoint_ t) (build_payload t log_records) (http_timeout_ t)
         :: failed_attempts (base_backoff_ms_ t) (k - 1)
            ++ [Perform (Z.of_nat k)]) /\
      circuit_open_ (snd (fst (send_batch t env log_records))) = false)) /\
  (guards_pass t env log_records ->
   (forall i, (1 <= i <= Z.to_nat (max_retries_ t))%nat -> attempt_fails env i) ->
   send_batch t env log_records =
   (false, open_circuit t (now_ms_open env),
    Lock :: Setup (endpoint_ t) (build_payload t log_records) (http_timeout_ t)
      :: match Z.to_nat (max_retries_ t) with
         | O => []
         | S m => failed_attempts (base_backoff_ms_ t) m ++ [Perform (Z.of_nat (S m))]
         end) /\
   circuit_open_ (snd (fst (send_batch t env log_records))) = true /\
   circuit_open_until_ms_ (snd (fst (send_batch t env log_records)))
     = Int64.add (now_ms_open env) (circuit_reset_interval_ t)) /\
  (forall k : nat,
     failed_attempts (base_backoff_ms_ t) k =
     flat_map (fun i => [Perform (Z.of_nat i);
                         Sleep (Int64.mul (base_backoff_ms_ t) (Z.of_nat i))])
       (seq 1 k)) /\
  (forall i : nat,
     Int64.in_range (base_backoff_ms_ t * Z.of_nat i) = true ->
     Int64.mul (base_backoff_ms_ t) (Z.of_nat i) = base_backoff_ms_ t * Z.of_nat i).
Proof.
  split; [apply send_batch_attempts_bounded |].
  split; [apply is_success_2xx |].
  split; [reflexivity |].
  split; [| split; [| split]].
  - intros Hg k Hk Hfail. split.
    + intros Hs. apply send_batch_shutdown_at; assumption.
    + intros Hs Hp.
      rewrite (send_batch_success_at t env log_records k Hg Hk Hfail Hs Hp).
      split; reflexivity.
  - intros Hg Hfail. rewrite (send_batch_exhausted t env log_records Hg Hfail).
    repeat split.
  - intros k. reflexivity.
  - intros i Hi. apply mul_exact, Hi.
Qed.

Lemma sample_guards_pass (env : Env) :
  shutdown_flag_ env BeforeLock = false ->
  shutdown_flag_ env AfterLock = false ->
  guards_pass sample_transport env ["{a}"]%string.
Proof. intros H0 H1. repeat split; try assumption; discriminate. Qed.

Lemma send_batch_retries_witness :
  (send_batch sample_transport (env_down 0 7) ["{a}"]%string =
     (false, open_circuit sample_transport 7,
      [Lock;
       Setup (endpoint_ sample_transport) (wire_payload "my-app" ["{a}"%string]) 1000;
       Perform 1; Sleep 100; Perform 2; Sleep 200; Perform 3]) /\
   circuit_open_
     (snd (fst (send_batch sample_transport (env_down 0 7) ["{a}"]%string))) = true /\
   circuit_open_until_ms_
     (snd (fst (send_batch sample_transport (env_down 0 7) ["{a}"]%string))) = 30007) /\
  (send_batch sample_transport (env_up_at 2 0) ["{a}"]%string =
     (true, close_circuit sample_transport,
      [Lock;
       Setup (endpoint_ sample_transport) (wire_payload "my-app" ["{a}"%string]) 1000;
       Perform 1; Sleep 100; Perform 2]) /\
   circuit_open_
     (snd (fst (send_batch sample_transport (env_up_at 2 0) ["{a}"]%string))) = false) /\
  send_batch sample_transport (env_shutdown_at (BeforeAttempt 2)) ["{a}"]%string =
    (false, sample_transport,
     [Lock;
      Setup (endpoint_ sample_transport) (wire_payload "my-app" ["{a}"%string]) 1000;
      Perform 1; Sleep 100]).
Proof.
  split; [| split].
  - destruct (send_batch_retries sample_transport (env_down 0 7) ["{a}"]%string)
      as (_ & _ & _ & _ & H & _).
    apply H; [apply sample_guards_pass; reflexivity |].
    intros i Hi; split; reflexivity.
  - destruct (send_batch_retries sample_transport (env_up_at 2 0) ["{a}"]%string)
      as (_ & _ & _ & H & _).
    destruct (H (sample_guards_pass (env_up_at 2 0) eq_refl eq_refl) 2%nat) as [_ H2].
    + vm_compute; lia.
    + intros i Hi. assert (i = 1%nat) as -> by lia. split; reflexivity.
    + apply H2; reflexivity.
  - destruct (send_batch_retries sample_transport
                (env_shutdown_at (BeforeAttempt 2)) ["{a}"]%string)
      as (_ & _ & _ & H & _).
    destruct (H (sample_guards_pass (env_shutdown_at (BeforeAttempt 2)) eq_refl eq_refl)
                2%nat) as [H2 _].
    + vm_compute; lia.
    + intros i Hi. assert (i = 1%nat) as -> by lia. split; reflexivity.
    + apply H2; reflexivity.
Defined.

(** *** The circuit breaker *)







End SendBatch.

(** ** The engine: [flush_internal] and [log] *)

Section Engine.
Import Level Config Transport Core.
Local Open Scope Z_scope.

(** *** Traces *)

Lemma retry_loop_transport_events (t : HttpTransport) (env : Env) (r : nat) (a : Z) :
  forallb transport_event (snd (retry_loop t env r a)) = true.
Proof.
  revert a; induction r as [| r IH]; intros a; cbn [retry_loop]; [reflexivity |].
  destruct (shutdown_flag_ env (BeforeAttempt a)); [reflexivity |].
  destruct (is_success (curl_easy_perform env a)); [reflexivity |].
  specialize (IH (a + 1)).
  destruct (retry_loop t env r (a + 1)) as [[ok t'] events]. cbn [snd] in *.
  cbn [forallb transport_event]. rewrite forallb_app, IH.
  destruct (a <? max_retries_ t); reflexivity.
Qed.

Lemma send_batch_transport_events (t : HttpTransport) (env : Env)
    (log_records : list string) :
  forallb transport_event (snd (send_batch t env log_records)) = true.
Proof.
  unfold send_batch.
  destruct (shutdown_flag_ env BeforeLock); [reflexivity |].
  destruct log_records as [| r rest]; [reflexivity |].
  destruct (is_circuit_open t (now_ms_check env)); [reflexivity |].
  destruct (shutdown_flag_ env AfterLock || negb (curl_handle_ t)); [reflexivity |].
  pose proof (retry_loop_transport_events t env (Z.to_nat (max_retries_ t)) 1) as H.
  destruct (retry_loop t env (Z.to_nat (max_retries_ t)) 1) as [[ok t'] events].
  exact H.
Qed.

Lemma transport_events_silent (events : list Event) :
  forallb transport_event events = true ->
  pushed events = [] /\ erased events = [] /\ sent_batches events = [].
Proof.
  induction events as [| e events IH]; [repeat split |].
  cbn [forallb]. intros H. apply andb_prop in H as [He H].
  destruct (IH H) as (Hp & Her & Hs).
  destruct e; try discriminate He; repeat split; assumption.
Qed.

Lemma pushed_app (a b : list Event) : pushed (a ++ b) = pushed a ++ pushed b.
Proof. apply flat_map_app. Qed.

Lemma erased_app (a b : list Event) : erased (a ++ b) = erased a ++ erased b.
Proof. apply flat_map_app. Qed.

Lemma sent_batches_app (a b : list Event) :
  sent_batches (a ++ b) = sent_batches a ++ sent_batches b.
Proof. apply flat_map_app. Qed.

(** *** [flush_internal] *)

Lemma flush_internal_nonempty (env : Env) (core : DrtraceCore) :
  batch_ core <> [] ->
  flush_internal env core =
  ({| batch_ := [];
      transport_ := snd (fst (send_batch (transport_ core) env (batch_ core))) |},
   SendBatch (batch_ core) :: snd (send_batch (transport_ core) env (batch_ core))).
Proof.
  intros Hne. unfold flush_internal.
  destruct (batch_ core) as [| r rest] eqn:Eb; [congruence |].
  destruct (send_batch (transport_ core) env (r :: rest)) as [[ok t'] events].
  reflexivity.
Qed.

Lemma flush_internal_trace (env : Env) (core : DrtraceCore) :
  batch_ core <> [] ->
  batch_ (fst (flush_internal env core)) = [] /\
  sent_batches (snd (flush_internal env core)) = [batch_ core] /\
  pushed (snd (flush_internal env core)) = [] /\
  erased (snd (flush_internal env core)) = [].
Proof.
  intros Hne. rewrite (flush_internal_nonempty env core Hne). cbn [fst snd batch_].
  destruct (transport_events_silent _
              (send_batch_transport_events (transport_ core) env (batch_ core)))
    as (Hp & He & Hs).
  split; [reflexivity |].
  change (SendBatch ?b :: ?l) with ([SendBatch b] ++ l).
  rewrite sent_batches_app, pushed_app, erased_app, Hp, He, Hs.
  repeat split.
Qed.

(** *** [log] *)

Lemma log_rejected (p : Platform) (config : DrtraceConfig) (env : Env)
    (record : LogRecord) (core : DrtraceCore) :
  accepted config record = false -> log p config env record core = (core, []).
Proof.
  unfold accepted, log. intros H.
  destruct (enabled config); [| reflexivity]. simpl in H.
  apply negb_false_iff in H. rewrite H. reflexivity.
Qed.

(** What an accepted [log] does, in one equation. *)
Lemma log_accepted (p : Platform) (config : DrtraceConfig) (env : Env)
    (record : LogRecord) (core : DrtraceCore) :
  accepted config record = true ->
  let evict := at_capacity config (batch_ core) in
  let kept := if evict then tl (batch_ core) else batch_ core in
  let gone := if evict then firstn 1 (batch_ core) else [] in
  let json_record := serialize_record p config record in
  let core2 := mkCore (kept ++ [json_record]) (transport_ core) in
  log p config env record core =
  if (batch_size config <=? N.of_nat (length (kept ++ [json_record])))%N
  then (fst (flush_internal env core2),
        map BufErase gone ++ BufPush json_record :: snd (flush_internal env core2))
  else (core2, map BufErase gone ++ [BufPush json_record]).
Proof.
  unfold accepted, log, at_capacity. intros H.
  apply andb_prop in H as [He Hl]. apply negb_true_iff in Hl.
  rewrite He, Hl. cbn [negb]. cbv zeta.
  destruct ((0 <? max_buffer_size config)%N
            && (max_buffer_size config <=? N.of_nat (length (batch_ core)))%N).
  - destruct (batch_ core) as [| oldest rest]; cbn [tl firstn map];
      match goal with
      | |- context [(batch_size config <=? ?n)%N] =>
          destruct (batch_size config <=? n)%N
      end; try reflexivity;
      match goal with
      | |- context [flush_internal env ?c] =>
          destruct (flush_internal env c) as [core3 events]
      end; reflexivity.
  - match goal with
    | |- context [(batch_size config <=? ?n)%N] =>
        destruct (batch_size config <=? n)%N
    end; try reflexivity.
    match goal with
    | |- context [flush_internal env ?c] =>
        destruct (flush_internal env c) as [core3 events]
    end; reflexivity.
Qed.

Lemma app_one_nonempty {A : Type} (l : list A) (x : A) : l ++ [x] <> [].
Proof. destruct l; discriminate. Qed.

Lemma log_accepted_trace (p : Platform) (config : DrtraceConfig) (env : Env)
    (record : LogRecord) (core : DrtraceCore) :
  accepted config record = true ->
  pushed (snd (log p config env record core)) = [serialize_record p config record] /\
  erased (snd (log p config env record core)) =
    (if at_capacity config (batch_ core) then firstn 1 (batch_ core) else []) /\
  concat (sent_batches (snd (log p config env record core)))
    ++ batch_ (fst (log p config env record core)) =
    (if at_capacity config (batch_ core) then tl (batch_ core) else batch_ core)
    ++ [serialize_record p config record].
Proof.
  intros Ha. rewrite (log_accepted p config env record core Ha). cbv zeta.
  set (kept := if at_capacity config (batch_ core) then tl (batch_ core) else batch_ core).
  set (gone := if at_capacity config (batch_ core) then firstn 1 (batch_ core) else []).
  set (json_record := serialize_record p config record).
  assert (Hg : pushed (map BufErase gone) = [] /\ erased (map BufErase gone) = gone
               /\ sent_batches (map BufErase gone) = []).
  { clear. induction gone as [| g gone (IH1 & IH2 & IH3)]; [repeat split |].
    cbn. unfold pushed, erased, sent_batches in *.
    rewrite IH1, IH2, IH3. repeat split. }
  destruct Hg as (Hg1 & Hg2 & Hg3).
  destruct (batch_size config <=? N.of_nat (length (kept ++ [json_record])))%N;
    cbn [fst snd].
  - destruct (flush_internal_trace env (mkCore (kept ++ [json_record]) (transport_ core)))
      as (Hb & Hs & Hp & He); [apply app_one_nonempty |].
    change (BufPush json_record :: ?l) with ([BufPush json_record] ++ l).
    rewrite !pushed_app, !erased_app, !sent_batches_app, Hg1, Hg2, Hg3, Hb, Hs, Hp, He.
    cbn. rewrite !app_nil_r. repeat split.
  - rewrite !pushed_app, !erased_app, !sent_batches_app, Hg1, Hg2, Hg3.
    cbn. rewrite !app_nil_r. repeat split.
Qed.

Lemma run_cons (p : Platform) (config : DrtraceConfig) (c : Call) (rest : list Call)
    (core : DrtraceCore) :
  run p config (c :: rest) core =
  (fst (run p config rest (fst (call p config c core))),
   snd (call p config c core) ++ snd (run p config rest (fst (call p config c core)))).
Proof.
  cbn [run]. destruct (call p config c core) as [core1 events1]. cbn [fst snd].
  destruct (run p config rest core1) as [core2 events2]. reflexivity.
Qed.

Lemma pushed_log (p : Platform) (config : DrtraceConfig) (env : Env)
    (record : LogRecord) (core : DrtraceCore) :
  pushed (snd (log p config env record core)) =
  if accepted config record then [serialize_record p config record] else [].
Proof.
  destruct (accepted config record) eqn:Ha.
  - apply log_accepted_trace, Ha.
  - rewrite (log_rejected p config env record core Ha). reflexivity.
Qed.

Lemma pushed_run_logs (p : Platform) (config : DrtraceConfig)
    (l : list (Env * LogRecord)) (core : DrtraceCore) :
  pushed (snd (run p config (log_calls l) core)) =
  map (serialize_record p config) (filter (accepted config) (map snd l)).
Proof.
  revert core; induction l as [| [env record] l IH]; intros core; [reflexivity |].
  cbn [log_calls map fst snd]. rewrite run_cons. cbn [snd call].
  rewrite pushed_app, pushed_log. fold (log_calls l). rewrite IH.
  cbn [filter]. destruct (accepted config record); reflexivity.
Qed.

(** C2: [log] leaves the engine untouched, with no effect, when the engine
    is disabled or when the level of the record is strictly below
    [min_level]; otherwise it appends exactly one record to the buffer, the
    serialized one, which then is the last of what the buffer holds or, if
    the append triggered a flush, of the batch handed to the transport.
    With [min_level = WARN], logging one record at each of the five levels
    appends exactly the warn, error and critical records, in that order. *)
Theorem log_level_filtering (p : Platform) (config : DrtraceConfig) :
  (forall env record core,
     enabled config = false -> log p config env record core = (core, [])) /\
  (forall env record core,
     rank (level record) < rank (min_level config) ->
     log p config env record core = (core, [])) /\
  (forall env record core,
     enabled config = true ->
     rank (min_level config) <= rank (level record) ->
     pushed (snd (log p config env record core)) = [serialize_record p config record] /\
     concat (sent_batches (snd (log p config env record core)))
       ++ batch_ (fst (log p config env record core)) =
       (if at_capacity config (batch_ core) then tl (batch_ core) else batch_ core)
       ++ [serialize_record p config record]) /\
  (forall e1 e2 e3 e4 e5 r_debug r_info r_warn r_error r_critical core,
     enabled config = true ->
     min_level config = WARN ->
     level r_debug = DEBUG -> level r_info = INFO -> level r_warn = WARN ->
     level r_error = ERROR -> level r_critical = CRITICAL ->
     pushed (snd (run p config
                    (log_calls [(e1, r_debug); (e2, r_info); (e3, r_warn);
                                (e4, r_error); (e5, r_critical)]) core)) =
     [serialize_record p config r_warn; serialize_record p config r_error;
      serialize_record p config r_critical]).
Proof.
  split; [| split; [| split]].
  - intros env record core He. apply log_rejected. unfold accepted.
    rewrite He. reflexivity.
  - intros env record core Hl. apply log_rejected. unfold accepted, Level.ltb.
    apply Z.ltb_lt in Hl. rewrite Hl. apply andb_false_r.
  - intros env record core He Hl.
    assert (Ha : accepted config record = true).
    { unfold accepted, Level.ltb. rewrite He.
      destruct (Z.ltb_spec (rank (level record)) (rank (min_level config)));
        [lia | reflexivity]. }
    destruct (log_accepted_trace p config env record core Ha) as (Hp & _ & Hb).
    split; assumption.
  - intros e1 e2 e3 e4 e5 rd ri rw re rc core He Hm Hd Hi Hw Her Hc.
    rewrite pushed_run_logs. cbn [map snd filter]. unfold accepted, Level.ltb.
    rewrite He, Hm, Hd, Hi, Hw, Her, Hc. reflexivity.
Qed.

Lemma log_level_filtering_witness :
  pushed (snd (run sample_platform (set_min_level default_config WARN)
                 (log_calls [(env_down 0 0, message_record DEBUG 0);
                             (env_down 0 0, message_record INFO 1);
                             (env_down 0 0, message_record WARN 2);
                             (env_down 0 0, message_record ERROR 3);
                             (env_down 0 0, message_record CRITICAL 4)])
                 (Core.new (set_min_level default_config WARN) true))) =
  map (serialize_record sample_platform (set_min_level default_config WARN))
    [message_record WARN 2; message_record ERROR 3; message_record CRITICAL 4].
Proof.
  destruct (log_level_filtering sample_platform (set_min_level default_config WARN))
    as (_ & _ & _ & H).
  apply H; reflexivity.
Defined.

(** C3: [flush] on an empty buffer returns with no effect: the state is
    unchanged and the transport is not called.  On a non-empty buffer it
    takes the whole contents, leaves the buffer empty, and calls
    [send_batch] once, with exactly the buffer contents in append order.  A
    flush that follows a flush finds the buffer empty and does nothing, so
    no record is handed over twice and none stays behind. *)
Theorem flush_takes_whole_buffer (env : Env) (core : DrtraceCore) :
  (batch_ core = [] -> flush env core = (core, [])) /\
  (batch_ core <> [] ->
   flush env core =
     ({| batch_ := [];
         transport_ := snd (fst (send_batch (transport_ core) env (batch_ core))) |},
      SendBatch (batch_ core)
        :: snd (send_batch (transport_ core) env (batch_ core))) /\
   batch_ (fst (flush env core)) = [] /\
   sent_batches (snd (flush env core)) = [batch_ core]) /\
  (forall env', flush env' (fst (flush env core)) = (fst (flush env core), [])).
Proof.
  unfold flush. split; [| split].
  - intros He. unfold flush_internal. rewrite He. reflexivity.
  - intros Hne. split; [apply flush_internal_nonempty, Hne |].
    destruct (flush_internal_trace env core Hne) as (Hb & Hs & _).
    split; assumption.
  - intros env'.
    assert (Hb : batch_ (fst (flush_internal env core)) = []).
    { destruct (batch_ core) as [| r rest] eqn:Eb.
      - unfold flush_internal. rewrite Eb. exact Eb.
      - apply flush_internal_trace. congruence. }
    unfold flush_internal at 1. rewrite Hb. reflexivity.
Qed.

Lemma flush_takes_whole_buffer_witness :
  flush (env_down 0 0) (Core.new default_config true)
    = (Core.new default_config true, []) /\
  batch_ (fst (flush (env_up_at 1 0)
                 (mkCore ["{a}"; "{b}"]%string sample_transport))) = [] /\
  sent_batches (snd (flush (env_up_at 1 0)
                       (mkCore ["{a}"; "{b}"]%string sample_transport)))
    = [["{a}"; "{b}"]%string].
Proof.
  split.
  - destruct (flush_takes_whole_buffer (env_down 0 0) (Core.new default_config true))
      as (H & _ & _).
    apply H. reflexivity.
  - destruct (flush_takes_whole_buffer (env_up_at 1 0)
                (mkCore ["{a}"; "{b}"]%string sample_transport)) as (_ & H & _).
    destruct H as (_ & Hb & Hs); [discriminate |].
    split; assumption.
Defined.

(** *** The bounded buffer *)

Lemma lastn_short {A : Type} (n : nat) (l : list A) :
  (length l <= n)%nat -> lastn n l = l.
Proof.
  intros H. unfold lastn. replace (length l - n)%nat with 0%nat by lia. reflexivity.
Qed.

Lemma length_lastn {A : Type} (n : nat) (l : list A) :
  length (lastn n l) = Nat.min n (length l).
Proof. unfold lastn. rewrite length_skipn. lia. Qed.

Lemma lastn_app_lastn {A : Type} (n : nat) (l l' : list A) :
  lastn n (lastn n l ++ l') = lastn n (l ++ l').
Proof.
  destruct (Nat.le_gt_cases (length l) n) as [H | H].
  - rewrite (lastn_short n l H). reflexivity.
  - unfold lastn at 1 3. rewrite !length_app, length_lastn.
    replace (Nat.min n (length l)) with n by lia.
    replace (n + length l' - n)%nat with (length l') by lia.
    rewrite !skipn_app, length_lastn.
    replace (Nat.min n (length l)) with n by lia.
    unfold lastn.
    rewrite skipn_skipn.
    replace (length l' + (length l - n))%nat with (length l + length l' - n)%nat by lia.
    replace (length l + length l' - n - length l)%nat with (length l' - n)%nat by lia.
    reflexivity.
Qed.

Lemma lastn_push {A : Type} (n : nat) (b : list A) (x : A) :
  (0 < n)%nat -> (length b <= n)%nat ->
  lastn n (b ++ [x]) = (if (n <=? length b)%nat then tl b else b) ++ [x].
Proof.
  intros Hn Hb. destruct (Nat.leb_spec n (length b)) as [H | H].
  - destruct b as [| o rest]; [simpl in H; lia |].
    unfold lastn. rewrite length_app. cbn [length tl].
    cbn [length] in H, Hb.
    replace (S (length rest) + 1 - n)%nat with 1%nat by lia.
    reflexivity.
  - apply lastn_short. rewrite length_app. simpl. lia.
Qed.

Lemma at_capacity_spec (config : DrtraceConfig) (batch : list string) :
  (0 < max_buffer_size config)%N ->
  at_capacity config batch = (N.to_nat (max_buffer_size config) <=? length batch)%nat.
Proof.
  intros Hm. unfold at_capacity.
  destruct (N.ltb_spec 0 (max_buffer_size config)); [| lia]. cbn [andb].
  destruct (N.leb_spec (max_buffer_size config) (N.of_nat (length batch))),
           (Nat.leb_spec (N.to_nat (max_buffer_size config)) (length batch));
    try reflexivity; lia.
Qed.

Lemma flush_internal_batch_bound (env : Env) (core : DrtraceCore) (n : nat) :
  (length (batch_ core) <= n)%nat ->
  (length (batch_ (fst (flush_internal env core))) <= n)%nat.
Proof.
  intros H. destruct (batch_ core) as [| r rest] eqn:Eb.
  - unfold flush_internal. rewrite Eb. cbn [fst]. rewrite Eb. exact H.
  - destruct (flush_internal_trace env core) as (Hb & _); [congruence |].
    rewrite Hb. simpl. lia.
Qed.

Lemma log_batch_bound (p : Platform) (config : DrtraceConfig) (env : Env)
    (record : LogRecord) (core : DrtraceCore) :
  (0 < max_buffer_size config)%N ->
  (length (batch_ core) <= N.to_nat (max_buffer_size config))%nat ->
  (length (batch_ (fst (log p config env record core)))
   <= N.to_nat (max_buffer_size config))%nat.
Proof.
  intros Hm Hb. destruct (accepted config record) eqn:Ha.
  - rewrite (log_accepted p config env record core Ha). cbv zeta.
    rewrite (at_capacity_spec config (batch_ core) Hm).
    set (kept := if (N.to_nat (max_buffer_size config) <=? length (batch_ core))%nat
                 then tl (batch_ core) else batch_ core).
    assert (Hk : (length (kept ++ [serialize_record p config record])
                  <= N.to_nat (max_buffer_size config))%nat).
    { subst kept. rewrite length_app. cbn [length].
      destruct (Nat.leb_spec (N.to_nat (max_buffer_size config)) (length (batch_ core))).
      - destruct (batch_ core); simpl in *; lia.
      - lia. }
    destruct (batch_size config <=? _)%N; cbn [fst].
    + apply flush_internal_batch_bound. exact Hk.
    + exact Hk.
  - rewrite (log_rejected p config env record core Ha). exact Hb.
Qed.

Lemma run_batch_bound (p : Platform) (config : DrtraceConfig) (calls : list Call)
    (core : DrtraceCore) :
  (0 < max_buffer_size config)%N ->
  (length (batch_ core) <= N.to_nat (max_buffer_size config))%nat ->
  (length (batch_ (fst (run p config calls core)))
   <= N.to_nat (max_buffer_size config))%nat.
Proof.
  intros Hm. revert core; induction calls as [| c calls IH]; intros core Hb.
  - exact Hb.
  - rewrite run_cons. cbn [fst]. apply IH.
    destruct c as [env record | env]; cbn [call].
    + apply log_batch_bound; assumption.
    + apply flush_internal_batch_bound. exact Hb.
Qed.

Lemma log_keeps_last (p : Platform) (config : DrtraceConfig) (env : Env)
    (record : LogRecord) (core : DrtraceCore) :
  (0 < max_buffer_size config)%N ->
  (max_buffer_size config < batch_size config)%N ->
  accepted config record = true ->
  (length (batch_ core) <= N.to_nat (max_buffer_size config))%nat ->
  fst (log p config env record core) =
  mkCore (lastn (N.to_nat (max_buffer_size config))
            (batch_ core ++ [serialize_record p config record]))
         (transport_ core).
Proof.
  intros Hm Hbs Ha Hb.
  rewrite (log_accepted p config env record core Ha). cbv zeta.
  rewrite (at_capacity_spec config (batch_ core) Hm).
  rewrite lastn_push by (assumption || lia).
  set (kept := if (N.to_nat (max_buffer_size config) <=? length (batch_ core))%nat
               then tl (batch_ core) else batch_ core).
  assert (Hk : (length (kept ++ [serialize_record p config record])
                <= N.to_nat (max_buffer_size config))%nat).
  { subst kept. rewrite length_app. cbn [length].
    destruct (Nat.leb_spec (N.to_nat (max_buffer_size config)) (length (batch_ core))).
    - destruct (batch_ core); simpl in *; lia.
    - lia. }
  destruct (N.leb_spec (batch_size config)
              (N.of_nat (length (kept ++ [serialize_record p config record]))));
    [lia | reflexivity].
Qed.

Lemma run_logs_keep_last (p : Platform) (config : DrtraceConfig)
    (l : list (Env * LogRecord)) (core : DrtraceCore) :
  (0 < max_buffer_size config)%N ->
  (max_buffer_size config < batch_size config)%N ->
  forallb (accepted config) (map snd l) = true ->
  (length (batch_ core) <= N.to_nat (max_buffer_size config))%nat ->
  batch_ (fst (run p config (log_calls l) core)) =
  lastn (N.to_nat (max_buffer_size config))
    (batch_ core ++ map (serialize_record p config) (map snd l)).
Proof.
  intros Hm Hbs. revert core; induction l as [| [env record] l IH]; intros core Ha Hb.
  - cbn. rewrite app_nil_r. symmetry. apply lastn_short, Hb.
  - cbn [map snd forallb] in Ha. apply andb_prop in Ha as [Har Hal].
    cbn [log_calls map fst snd]. rewrite run_cons. cbn [fst call].
    fold (log_calls l).
    rewrite (log_keeps_last p config env record core Hm Hbs Har Hb).
    rewrite IH; [| assumption | cbn [batch_]; rewrite length_lastn; lia].
    cbn [batch_]. rewrite lastn_app_lastn, <- app_assoc. reflexivity.
Qed.

Lemma log_evicts_oldest (p : Platform) (config : DrtraceConfig) (env : Env)
    (record : LogRecord) (core : DrtraceCore) :
  (0 < max_buffer_size config)%N ->
  accepted config record = true ->
  (max_buffer_size config <= N.of_nat (length (batch_ core)))%N ->
  exists oldest rest tail,
    batch_ core = oldest :: rest /\
    snd (log p config env record core) =
      BufErase oldest :: BufPush (serialize_record p config record) :: tail /\
    erased (snd (log p config env record core)) = [oldest] /\
    pushed (snd (log p config env record core)) = [serialize_record p config record].
Proof.
  intros Hm Ha Hfull.
  destruct (log_accepted_trace p config env record core Ha) as (Hp & He & _).
  assert (Hc : at_capacity config (batch_ core) = true).
  { rewrite at_capacity_spec by assumption. apply Nat.leb_le. lia. }
  rewrite Hc in He.
  destruct (batch_ core) as [| oldest rest] eqn:Eb; [simpl in Hfull; lia |].
  exists oldest, rest.
  rewrite (log_accepted p config env record core Ha) in *. cbv zeta in *.
  rewrite Eb, Hc in *. cbn [firstn map app tl] in *.
  destruct (batch_size config <=? _)%N; cbn [snd] in *;
    eexists; (split; [reflexivity |]); (split; [reflexivity |]);
    split; assumption.
Qed.

(** C1, as the claim states it, fails: with [max_buffer_size = 100] and the
    default [batch_size = 10], every tenth accepted [log] flushes, so after
    200 accepted logs the buffer is empty and does not hold the last 100
    records. *)
Lemma default_batch_size_empties_buffer :
  max_buffer_size (backpressure_config 10) = 100%N /\
  forallb (accepted (backpressure_config 10)) (map snd two_hundred_logs) = true /\
  length two_hundred_logs = 200%nat /\
  batch_ (fst (run sample_platform (backpressure_config 10)
                 (log_calls two_hundred_logs)
                 (Core.new (backpressure_config 10) true))) = [] /\
  batch_ (fst (run sample_platform (backpressure_config 10)
                 (log_calls two_hundred_logs)
                 (Core.new (backpressure_config 10) true)))
  <> map (serialize_record sample_platform (backpressure_config 10))
       (skipn 100 (map snd two_hundred_logs)).
Proof.
  assert (E : batch_ (fst (run sample_platform (backpressure_config 10)
                             (log_calls two_hundred_logs)
                             (Core.new (backpressure_config 10) true))) = [])
    by (vm_compute; reflexivity).
  split; [reflexivity |]. split; [vm_compute; reflexivity |].
  split; [reflexivity |]. split; [exact E |].
  rewrite E. intros H. apply (f_equal (@length string)) in H.
  rewrite length_map, length_skipn, length_map in H. vm_compute in H. discriminate H.
Qed.

(** C1, amended: with [max_buffer_size > 0], over every sequence of [log]
    and [flush] calls on a new engine the buffer never holds more than
    [max_buffer_size] records; an accepted [log] that finds the buffer at
    capacity erases exactly one entry, the oldest, and then appends the new
    serialized record; and when moreover [batch_size > max_buffer_size], so
    that no [log] triggers a flush, a run of accepted [log] calls leaves in
    the buffer the last [max_buffer_size] records appended, in append order:
    after 200 accepted logs with [max_buffer_size = 100] and [batch_size >
    100] the buffer holds exactly the last 100 records. *)
Theorem buffer_bounded_drop_oldest (p : Platform) (config : DrtraceConfig) :
  (0 < max_buffer_size config)%N ->
  (forall calls curl_easy_init_ok,
     (length (batch_ (fst (run p config calls (Core.new config curl_easy_init_ok))))
      <= N.to_nat (max_buffer_size config))%nat) /\
  (forall calls core,
     (length (batch_ core) <= N.to_nat (max_buffer_size config))%nat ->
     (length (batch_ (fst (run p config calls core)))
      <= N.to_nat (max_buffer_size config))%nat) /\
  (forall env record core,
     accepted config record = true ->
     (max_buffer_size config <= N.of_nat (length (batch_ core)))%N ->
     exists oldest rest tail,
       batch_ core = oldest :: rest /\
       snd (log p config env record core) =
         BufErase oldest :: BufPush (serialize_record p config record) :: tail /\
       erased (snd (log p config env record core)) = [oldest] /\
       pushed (snd (log p config env record core)) =
         [serialize_record p config record]) /\
  ((max_buffer_size config < batch_size config)%N ->
   forall l core,
     forallb (accepted config) (map snd l) = true ->
     (length (batch_ core) <= N.to_nat (max_buffer_size config))%nat ->
     batch_ (fst (run p config (log_calls l) core)) =
     lastn (N.to_nat (max_buffer_size config))
       (batch_ core ++ map (serialize_record p config) (map snd l))) /\
  (max_buffer_size config = 100%N ->
   (100 < batch_size config)%N ->
   forall l curl_easy_init_ok,
     forallb (accepted config) (map snd l) = true ->
     length l = 200%nat ->
     batch_ (fst (run p config (log_calls l) (Core.new config curl_easy_init_ok))) =
     map (serialize_record p config) (skipn 100 (map snd l))).
Proof.
  intros Hm. split; [| split; [| split; [| split]]].
  - intros calls h. apply run_batch_bound; [assumption | simpl; lia].
  - intros calls core. apply run_batch_bound; assumption.
  - intros env record core. apply log_evicts_oldest; assumption.
  - intros Hbs l core. apply run_logs_keep_last; assumption.
  - intros H100 Hbs l h Ha Hl.
    rewrite run_logs_keep_last; [| assumption | lia | assumption | simpl; lia].
    rewrite H100. cbn [Core.new batch_ app]. unfold lastn.
    rewrite !length_map, Hl. change (200 - N.to_nat 100)%nat with 100%nat.
    apply skipn_map.
Qed.

Lemma buffer_bounded_drop_oldest_witness :
  batch_ (fst (run sample_platform (backpressure_config 200)
                 (log_calls two_hundred_logs)
                 (Core.new (backpressure_config 200) true))) =
  map (serialize_record sample_platform (backpressure_config 200))
    (skipn 100 (map snd two_hundred_logs)).
Proof.
  destruct (buffer_bounded_drop_oldest sample_platform (backpressure_config 200))
    as (_ & _ & _ & _ & H); [reflexivity |].
  apply H; [reflexivity | reflexivity | vm_compute; reflexivity | reflexivity].
Defined.

End Engine.

(** ** Serialization and its round trip *)

Section Serialization.
Import Level Config Core JsonReader RoundTrip.

(** *** Escaping, character by character *)

Lemma read_escape_char (c : ascii) (rest : string) :
  read_chars (escape_char c ++ rest) = prepend (String c "") (read_chars rest).
Proof. destruct c as [[] [] [] [] [] [] [] []]; reflexivity. Qed.

Lemma read_escape_json (s rest : string) :
  read_chars (escape_json s ++ String dq rest) = Some (s, rest).
Proof.
  induction s as [| c s IH]; [reflexivity |].
  cbn [escape_json]. rewrite append_assoc, read_escape_char, IH. reflexivity.
Qed.

Lemma escape_json_plain (s : string) : plain_text s = true -> escape_json s = s.
Proof.
  induction s as [| c s IH]; [reflexivity |].
  unfold plain_text. cbn [string_forall escape_json]. intros H.
  apply andb_prop in H as [Hc Hs]. rewrite (IH Hs).
  apply andb_prop in Hc as [Hc H32]. apply andb_prop in Hc as [Hq Hb].
  unfold escape_char.
  apply negb_true_iff in Hq, Hb, H32. rewrite Hq, Hb, H32.
  assert (Hn : forall d, (code d <? 32)%N = true -> Ascii.eqb c d = false).
  { intros d Hd. destruct (Ascii.eqb_spec c d) as [-> |]; [congruence | reflexivity]. }
  rewrite (Hn "008"%char eq_refl), (Hn "012"%char eq_refl), (Hn "010"%char eq_refl),
    (Hn "013"%char eq_refl), (Hn "009"%char eq_refl).
  reflexivity.
Qed.

(** *** Numbers *)

Lemma span_number_text (lit rest : string) :
  string_forall number_char lit = true -> delimited rest = true ->
  span_number (lit ++ rest) = (lit, rest).
Proof.
  intros Hl Hr. induction lit as [| c lit IH].
  - destruct rest as [| c rest]; [reflexivity |].
    cbn in *. apply negb_true_iff in Hr. rewrite Hr. reflexivity.
  - cbn [string_forall] in Hl. apply andb_prop in Hl as [Hc Hl].
    cbn [append span_number]. rewrite Hc, (IH Hl). reflexivity.
Qed.

Lemma read_number_text (lit rest : string) :
  number_text lit = true -> delimited rest = true ->
  read_number (lit ++ rest) = Some (lit, rest).
Proof.
  unfold number_text, read_number. intros H Hr.
  apply andb_prop in H as [Hne Hl].
  rewrite (span_number_text lit rest Hl Hr).
  destruct lit; [discriminate Hne | reflexivity].
Qed.

Lemma quoted_append (x rest : string) :
  (quoted x ++ rest)%string = String dq (x ++ String dq rest).
Proof. unfold quoted. cbn [append]. rewrite append_assoc. reflexivity. Qed.

Lemma delimited_tail (ms : members) (rest : string) :
  delimited (render_tail ms ++ String "}" rest) = true.
Proof. destruct ms; reflexivity. Qed.


Lemma number_char_not_opening (c : ascii) :
  number_char c = true -> Ascii.eqb c dq = false /\ Ascii.eqb c "{" = false.
Proof.
  destruct c as [[] [] [] [] [] [] [] []]; vm_compute; intros H;
    first [discriminate H | split; reflexivity].
Qed.

Lemma need_pos (v : value) : (1 <= need v)%nat.
Proof. destruct v; simpl; lia. Qed.

Lemma render_object_text (k : string) (v : value) (ms : members) (rest : string) :
  (render (VObject (MCons k v ms)) ++ rest)%string =
  String "{" (String dq (escape_json k ++ String dq (String ":"
    (render v ++ render_tail ms ++ String "}" rest)))).
Proof.
  cbn [render]. unfold quoted.
  repeat first [rewrite append_assoc | progress cbn [append]]. reflexivity.
Qed.

Lemma render_tail_text (k : string) (v : value) (ms : members) (rest : string) :
  (render_tail (MCons k v ms) ++ rest)%string =
  String "," (String dq (escape_json k ++ String dq (String ":"
    (render v ++ render_tail ms ++ rest)))).
Proof.
  cbn [render_tail]. unfold quoted.
  repeat first [rewrite append_assoc | progress cbn [append]]. reflexivity.
Qed.

Lemma read_render (f : nat) :
  (forall v rest,
     well_formed v = true -> (need v <= f)%nat -> delimited rest = true ->
     read_value f (render v ++ rest) = Some (v, rest)) /\
  (forall k v ms rest,
     well_formed v = true -> well_formed_members ms = true ->
     (need_members (MCons k v ms) <= f)%nat ->
     read_members f
       (String dq (escape_json k ++ String dq (String ":"
          (render v ++ render_tail ms ++ String "}" rest))))
     = Some (MCons k v ms, rest)).
Proof.
  induction f as [| f [IHv IHm]].
  - split.
    + intros v rest _ Hn. pose proof (need_pos v). lia.
    + intros k v ms rest _ _ Hn. cbn in Hn. lia.
  - split.
    + intros v rest Hwf Hn Hd. destruct v as [s | lit | [| k v ms]].
      * cbn [render]. rewrite quoted_append. cbn [read_value].
        change (Ascii.eqb dq dq) with true. cbv iota.
        rewrite read_escape_json. reflexivity.
      * cbn [render well_formed] in *.
        destruct lit as [| c lit]; [discriminate Hwf |].
        assert (Hc : number_char c = true).
        { unfold number_text in Hwf. cbn in Hwf. apply andb_prop in Hwf as [Hc _]. exact Hc. }
        destruct (number_char_not_opening c Hc) as [Hq Hb].
        cbn [append read_value]. rewrite Hq, Hb.
        change (String c (lit ++ rest)) with (String c lit ++ rest)%string.
        rewrite (read_number_text _ _ Hwf Hd). reflexivity.
      * reflexivity.
      * rewrite render_object_text. cbn [read_value].
        change (Ascii.eqb "{" dq) with false. change (Ascii.eqb "{" "{") with true.
        cbv iota.
        cbn [well_formed well_formed_members need] in Hwf, Hn.
        apply andb_prop in Hwf as [Hv Hms].
        rewrite (IHm k v ms rest Hv Hms) by lia. reflexivity.
    + intros k v ms rest Hv Hms Hn. cbn [need_members] in Hn.
      cbn [read_members]. change (Ascii.eqb dq dq) with true. cbv iota.
      rewrite read_escape_json.
      rewrite (IHv v _ Hv) by (try apply delimited_tail; lia).
      destruct ms as [| k' v' ms']; [reflexivity |].
      rewrite render_tail_text.
      cbn [well_formed_members] in Hms. apply andb_prop in Hms as [Hv' Hms'].
      rewrite (IHm k' v' ms' rest Hv' Hms') by lia. reflexivity.
Qed.

Scheme value_members_ind := Induction for value Sort Prop
  with members_value_ind := Induction for members Sort Prop.

Lemma length_quoted (x : string) : String.length (quoted x) = S (S (String.length x)).
Proof. unfold quoted. cbn [String.length]. rewrite length_append. simpl. lia. Qed.

Lemma need_members_le_length (ms : members) :
  well_formed_members ms = true ->
  (need_members ms <= String.length (render_tail ms))%nat.
Proof.
  revert ms.
  apply (members_value_ind
    (fun v => well_formed v = true -> (need v <= String.length (render v))%nat)
    (fun ms => well_formed_members ms = true ->
               (need_members ms <= String.length (render_tail ms))%nat)).
  - intros s _. cbn [need render]. rewrite length_quoted. lia.
  - intros lit H. cbn [need render well_formed] in *.
    destruct lit; [discriminate H | simpl; lia].
  - intros ms IH H. cbn [well_formed] in H. specialize (IH H).
    destruct ms as [| k v ms]; [simpl; lia |].
    cbn [need render render_tail] in *.
    repeat (rewrite length_append in * || cbn [String.length] in * ).
    lia.
  - intros _. simpl. lia.
  - intros k v IHv ms IHms H. cbn [well_formed_members] in H.
    apply andb_prop in H as [Hv Hms]. specialize (IHv Hv). specialize (IHms Hms).
    cbn [need_members render_tail].
    repeat (rewrite length_append || cbn [String.length]).
    lia.
Qed.

Lemma need_le_length (v : value) :
  well_formed v = true -> (need v <= String.length (render v))%nat.
Proof.
  destruct v as [s | lit | ms]; cbn [need render well_formed].
  - intros _. rewrite length_quoted. lia.
  - intros H. destruct lit; [discriminate H | simpl; lia].
  - intros H. pose proof (need_members_le_length ms H) as Hm.
    destruct ms as [| k v ms]; [simpl; lia |].
    cbn [render_tail] in Hm.
    repeat (rewrite length_append in * || cbn [String.length] in * ).
    lia.
Qed.

(** Reading back what [render] wrote gives the value. *)
Lemma parse_render (v : value) : well_formed v = true -> parse (render v) = Some v.
Proof.
  intros Hwf. unfold parse.
  destruct (read_render (S (String.length (render v)))) as [Hv _].
  rewrite <- (append_nil_r (render v)) at 2.
  rewrite (Hv v "" Hwf); [reflexivity | | reflexivity].
  pose proof (need_le_length v Hwf). lia.
Qed.

(** *** [serialize_record] writes [record_value] *)

Lemma context_entries_tail (entries : list (string * string)) :
  context_entries entries = render_tail (context_members entries).
Proof.
  induction entries as [| [key value] entries IH]; [reflexivity |].
  cbn [context_entries context_members render_tail render]. rewrite IH. reflexivity.
Qed.

Lemma serialize_record_render (p : Platform) (config : DrtraceConfig)
    (record : LogRecord) :
  plain_text (this_thread_id p) = true ->
  serialize_record p config record = render (record_value p config record).
Proof.
  intros Hp. unfold serialize_record, record_value.
  rewrite context_entries_tail.
  rewrite <- (escape_json_plain (this_thread_id p) Hp) at 1.
  destruct (negb (service_name config =? "")%string),
           (negb (filename (source record) =? "")%string),
           (0 <? line (source record))%Z;
    cbn [render render_tail];
    change (escape_json "ts") with "ts"%string;
    change (escape_json "level") with "level"%string;
    change (escape_json "message") with "message"%string;
    change (escape_json "application_id") with "application_id"%string;
    change (escape_json "module_name") with "module_name"%string;
    change (escape_json "service_name") with "service_name"%string;
    change (escape_json "file_path") with "file_path"%string;
    change (escape_json "line_no") with "line_no"%string;
    change (escape_json "context") with "context"%string;
    change (escape_json "language") with "language"%string;
    change (escape_json "thread_id") with "thread_id"%string;
    change (escape_json "cpp") with "cpp"%string;
    unfold quoted;
    repeat first [rewrite append_assoc | progress cbn [append]];
    reflexivity.
Qed.

(** *** Integers print as number text *)

Lemma string_of_uint_digits (d : Decimal.uint) :
  string_forall number_char (NilEmpty.string_of_uint d) = true.
Proof. induction d; cbn [NilEmpty.string_of_uint string_forall]; auto. Qed.

Lemma print_int_number_text (n : Z) : number_text (print_int n) = true.
Proof.
  unfold print_int, number_text, NilZero.string_of_int, NilZero.string_of_uint.
  destruct (Z.to_int n) as [d | d].
  - destruct d; try reflexivity;
      cbn [NilEmpty.string_of_uint String.eqb negb andb string_forall];
      apply string_of_uint_digits.
  - destruct d; try reflexivity;
      cbn [NilEmpty.string_of_uint String.eqb negb andb string_forall];
      apply string_of_uint_digits.
Qed.

Lemma record_value_well_formed (p : Platform) (config : DrtraceConfig)
    (record : LogRecord) :
  number_text (ts_text p record) = true ->
  well_formed (record_value p config record) = true.
Proof.
  intros Hts. unfold record_value.
  assert (Hc : well_formed_members (context_members (context record)) = true).
  { induction (context record) as [| [k v] l IH]; [reflexivity | exact IH]. }
  destruct (negb (service_name config =? "")%string),
           (negb (filename (source record) =? "")%string),
           (0 <? line (source record))%Z;
    cbn [well_formed well_formed_members andb];
    rewrite Hts, ?print_int_number_text, Hc; reflexivity.
Qed.

Lemma escape_char_control (c : ascii) :
  (code c < 32)%N ->
  c <> "008"%char -> c <> "009"%char -> c <> "010"%char ->
  c <> "012"%char -> c <> "013"%char ->
  escape_char c =
  ("\u00" ++ String (hex_digit (code c / 16)) (String (hex_digit (code c mod 16)) ""))%string.
Proof.
  destruct c as [[] [] [] [] [] [] [] []]; intros Hlt H8 H9 H10 H12 H13;
    first [ reflexivity
          | vm_compute in Hlt; discriminate Hlt
          | exfalso;
            first [ apply H8; reflexivity | apply H9; reflexivity
                  | apply H10; reflexivity | apply H12; reflexivity
                  | apply H13; reflexivity ] ].
Qed.

Lemma escape_char_other (c : ascii) :
  (32 <= code c)%N -> c <> dq -> c <> "\"%char -> escape_char c = String c "".
Proof.
  destruct c as [[] [] [] [] [] [] [] []]; intros Hge Hq Hb;
    first [ reflexivity
          | exfalso; vm_compute in Hge; apply Hge; reflexivity
          | exfalso; first [apply Hq; reflexivity | apply Hb; reflexivity] ].
Qed.

(** C6: for every record, provided the runtime prints the timestamp as a
    number and the thread identifier as plain text, the text written by
    [serialize_record] parses as one JSON object whose members "level",
    "message", "application_id" and "module_name" are the level name (the
    lower-case name of the wire protocol, which [parse_log_level] reads back
    as the level of the record), the message, the application identifier
    and the logger name of the record, unchanged, whatever bytes they
    contain; reading an escaped string back gives the string.  [escape_json] works character by character: quote,
    backslash, backspace, form feed, newline, carriage return and tab become
    their two-character escapes, any other byte below 0x20 becomes
    backslash, u, 0, 0 and its two lower-case hexadecimal digits, and every
    other byte is copied. *)
Theorem serialize_record_round_trip (p : Platform) (config : DrtraceConfig)
    (record : LogRecord) :
  number_text (ts_text p record) = true ->
  plain_text (this_thread_id p) = true ->
  (exists v,
     parse (serialize_record p config record) = Some v /\
     string_member "level" v = Some (wire_level_name (level record)) /\
     parse_log_level (string_member "level" v) = level record /\
     string_member "message" v = Some (message record) /\
     string_member "application_id" v = Some (application_id config) /\
     string_member "module_name" v = Some (logger_name record)) /\
  (forall s rest, read_chars (escape_json s ++ String dq rest) = Some (s, rest)) /\
  (escape_json "" = ""%string /\
   forall c s, escape_json (String c s) = (escape_char c ++ escape_json s)%string) /\
  (escape_char dq = String "\" (String dq "") /\
   escape_char "\" = "\\"%string /\
   escape_char "008" = "\b"%string /\
   escape_char "012" = "\f"%string /\
   escape_char "010" = "\n"%string /\
   escape_char "013" = "\r"%string /\
   escape_char "009" = "\t"%string) /\
  (forall c,
     (code c < 32)%N ->
     c <> "008"%char -> c <> "009"%char -> c <> "010"%char ->
     c <> "012"%char -> c <> "013"%char ->
     escape_char c =
     ("\u00" ++ String (hex_digit (code c / 16))
                  (String (hex_digit (code c mod 16)) ""))%string) /\
  (forall c,
     (32 <= code c)%N -> c <> dq -> c <> "\"%char -> escape_char c = String c "").
Proof.
  intros Hts Hp.
  split; [| split; [| split; [| split; [| split]]]].
  - exists (record_value p config record).
    rewrite (serialize_record_render p config record Hp).
    rewrite (parse_render _ (record_value_well_formed p config record Hts)).
    split; [reflexivity |]. split; [reflexivity |]. split.
    { change (parse_log_level (Some (wire_level_name (level record))) = level record).
      destruct (level record); reflexivity. }
    repeat split.
  - apply read_escape_json.
  - split; reflexivity.
  - repeat split.
  - apply escape_char_control.
  - apply escape_char_other.
Qed.

Lemma serialize_record_round_trip_witness :
  exists v,
    parse (serialize_record sample_platform
             (set_service_name (set_application_id default_config "my-app") "svc")
             tricky_record) = Some v /\
    string_member "level" v = Some "error"%string /\
    parse_log_level (string_member "level" v) = ERROR /\
    string_member "message" v = Some (message tricky_record) /\
    string_member "application_id" v = Some "my-app"%string /\
    string_member "module_name" v = Some "test-logger"%string.
Proof.
  destruct (serialize_record_round_trip sample_platform
              (set_service_name (set_application_id default_config "my-app") "svc")
              tricky_record) as (H & _);
    [vm_compute; reflexivity | vm_compute; reflexivity |].
  exact H.
Defined.
End Serialization.

(** ** The payload of [send_batch] *)

Section Payload.
Import Config Transport Core JsonReader RoundTrip.
Local Open Scope Z_scope.

Lemma expect_same (c : ascii) (rest : string) :
  Envelope.expect c (String c rest) = Some rest.
Proof. unfold Envelope.expect. rewrite Ascii.eqb_refl. reflexivity. Qed.

Lemma read_string_escaped (s rest : string) :
  Envelope.read_string (String dq (escape_json s ++ String dq rest)) = Some (s, rest).
Proof. unfold Envelope.read_string. rewrite expect_same. apply read_escape_json. Qed.

Lemma read_value_rendered (v : value) (rest : string) :
  well_formed v = true -> delimited rest = true ->
  read_value (S (String.length (render v ++ rest))) (render v ++ rest) = Some (v, rest).
Proof.
  intros Hwf Hr.
  destruct (read_render (S (String.length (render v ++ rest)))) as [Hv _].
  apply Hv; [exact Hwf | | exact Hr].
  pose proof (need_le_length v Hwf). rewrite length_append. lia.
Qed.

(** No value starts with a closing bracket. *)
Lemma rendered_not_closing (v : value) (rest : string) :
  well_formed v = true -> Envelope.expect "]" (render v ++ rest) = None.
Proof.
  destruct v as [s | lit | ms]; cbn [well_formed render]; intros Hwf.
  - reflexivity.
  - destruct lit as [| c lit]; [discriminate Hwf |].
    unfold number_text in Hwf. cbn [String.eqb negb andb string_forall] in Hwf.
    apply andb_prop in Hwf as [Hc _].
    cbn [append Envelope.expect].
    destruct (Ascii.eqb_spec c "]") as [-> | _]; [discriminate Hc | reflexivity].
  - destruct ms; reflexivity.
Qed.

Lemma concat_cons (sep x y : string) (l : list string) :
  String.concat sep (x :: y :: l) = (x ++ sep ++ String.concat sep (y :: l))%string.
Proof. reflexivity. Qed.

Lemma read_elements_rendered (vs : list value) :
  forall (v : value) (rest : string) (fuel : nat),
    forallb well_formed (v :: vs) = true -> (length vs < fuel)%nat ->
    Envelope.read_elements fuel
      (String.concat "," (map render (v :: vs)) ++ String "]" rest)
    = Some (v :: vs, rest).
Proof.
  induction vs as [| v' vs IH]; intros v rest fuel Hwf Hfuel;
    (destruct fuel as [| fuel]; [cbn in Hfuel; lia |]);
    cbn [forallb] in Hwf; apply andb_prop in Hwf as [Hv Hvs].
  - cbn [map String.concat Envelope.read_elements].
    rewrite (read_value_rendered v (String "]" rest) Hv eq_refl). reflexivity.
  - pose proof (IH v' rest fuel Hvs ltac:(cbn [length] in Hfuel; lia)) as IH'.
    cbn [map] in IH' |- *. rewrite concat_cons. cbn [Envelope.read_elements].
    rewrite !append_assoc. cbn [append].
    rewrite (read_value_rendered v
               (String "," (String.concat "," (render v' :: map render vs)
                              ++ String "]" rest)) Hv eq_refl).
    rewrite expect_same, IH'. reflexivity.
Qed.

Lemma read_array_rendered (vs : list value) (rest : string) :
  forallb well_formed vs = true ->
  Envelope.read_array
    (String "[" (String.concat "," (map render vs) ++ String "]" rest))
  = Some (vs, rest).
Proof.
  intros Hwf. unfold Envelope.read_array. rewrite expect_same.
  destruct vs as [| v vs]; [reflexivity |].
  assert (Hv : well_formed v = true)
    by (cbn [forallb] in Hwf; apply andb_prop in Hwf as [Hv _]; exact Hv).
  assert (Hhead : Envelope.expect "]"
            (String.concat "," (map render (v :: vs)) ++ String "]" rest) = None).
  { destruct vs as [| v' vs]; cbn [map].
    - apply rendered_not_closing, Hv.
    - rewrite concat_cons, append_assoc. apply rendered_not_closing, Hv. }
  rewrite Hhead. apply read_elements_rendered; [exact Hwf |].
  assert (Hlen : forall (l : list value) (w : value),
            (length l
             < String.length (String.concat "," (map render (w :: l))))%nat
            \/ well_formed w = false \/ forallb well_formed l = false).
  { induction l as [| w' l IHl]; intros w.
    - destruct (well_formed w) eqn:Hw; [left | right; left; reflexivity].
      cbn [map String.concat length].
      pose proof (need_le_length w Hw). pose proof (need_pos w). lia.
    - destruct (well_formed w) eqn:Hw; [| right; left; reflexivity].
      destruct (IHl w') as [Hl | [Hl | Hl]].
      + left. cbn [map length] in Hl |- *. rewrite concat_cons.
        rewrite !length_append. cbn [String.length]. lia.
      + right. right. cbn [forallb]. rewrite Hl. reflexivity.
      + right. right. cbn [forallb]. rewrite Hl. apply andb_false_r. }
  cbn [forallb] in Hwf. apply andb_prop in Hwf as [_ Hvs].
  destruct (Hlen vs v) as [Hl | [Hl | Hl]]; [| congruence | congruence].
  rewrite length_append. lia.
Qed.

(** The text of the wire payload, escapes made explicit for a plain
    identifier. *)
Lemma wire_payload_text (id : string) (log_records : list string) :
  plain_text id = true ->
  wire_payload id log_records =
  String "{" (String dq (escape_json "application_id" ++ String dq (String ":"
    (String dq (escape_json id ++ String dq (String ","
      (String dq (escape_json "logs" ++ String dq (String ":"
        (String "[" (String.concat "," log_records ++ String "]" (String "}" "")))))))))))).
Proof.
  intros Hid. rewrite (escape_json_plain id Hid).
  change (escape_json "application_id") with "application_id"%string.
  change (escape_json "logs") with "logs"%string.
  unfold wire_payload. cbn [String.concat].
  repeat first [rewrite append_assoc | progress cbn [append]].
  reflexivity.
Qed.

Lemma parse_wire_payload (id : string) (values : list value) :
  plain_text id = true -> forallb well_formed values = true ->
  Envelope.parse (wire_payload id (map render values)) =
  Some (Envelope.mkEnvelope "application_id" id "logs" values).
Proof.
  intros Hid Hwf. rewrite (wire_payload_text id _ Hid). unfold Envelope.parse.
  rewrite expect_same, read_string_escaped, expect_same, read_string_escaped,
    expect_same, read_string_escaped, expect_same,
    (read_array_rendered values _ Hwf), expect_same.
  reflexivity.
Qed.

Lemma send_batch_only_payload (t : HttpTransport) (env : Env)
    (log_records : list string) (url payload : string) (timeout_ms : Z) :
  In (Setup url payload timeout_ms) (snd (send_batch t env log_records)) ->
  payload = build_payload t log_records.
Proof.
  unfold send_batch.
  destruct (shutdown_flag_ env BeforeLock); [simpl; tauto |].
  destruct log_records as [| r rest]; [simpl; tauto |].
  destruct (is_circuit_open t (now_ms_check env)); [simpl; tauto |].
  destruct (shutdown_flag_ env AfterLock || negb (curl_handle_ t)).
  - simpl. intros [H | []]. discriminate H.
  - pose proof (retry_loop_no_setup t env (Z.to_nat (max_retries_ t)) 1
                  url payload timeout_ms) as Hno.
    destruct (retry_loop t env (Z.to_nat (max_retries_ t)) 1) as [[ok t'] events].
    cbn [snd] in *. intros [H | [H | H]]; [discriminate H | | tauto].
    injection H as _ <- _. reflexivity.
Qed.

(** C7: the payload of [send_batch].  For every non-empty batch the payload
    built, and the only payload ever handed to the curl handle, is the text
    [{"application_id":"<id>","logs":[r1,r2,...]}], the record strings in
    batch order, joined by commas, each copied unchanged.  When the
    identifier holds no quote, backslash or control character and the
    records are JSON values, that text is one JSON object: it reads back as
    the identifier under the key [application_id] and the values of the
    records, in order, under the key [logs].  The identifier is copied
    without escaping, so for an identifier made of [a], a double quote and
    [b], and the batch [{}], the text is not a JSON object. *)
Theorem send_batch_wire_payload (t : HttpTransport) (env : Env)
    (log_records : list string) :
  log_records <> [] ->
  build_payload t log_records = wire_payload (application_id_ t) log_records /\
  (forall url payload timeout_ms,
     In (Setup url payload timeout_ms) (snd (send_batch t env log_records)) ->
     payload = wire_payload (application_id_ t) log_records) /\
  (guards_pass t env log_records ->
   exists events,
     snd (send_batch t env log_records) =
     Lock :: Setup (endpoint_ t) (wire_payload (application_id_ t) log_records)
               (http_timeout_ t) :: events) /\
  (forall values,
     log_records = map render values ->
     forallb well_formed values = true ->
     plain_text (application_id_ t) = true ->
     Envelope.parse (build_payload t log_records) =
     Some (Envelope.mkEnvelope "application_id" (application_id_ t) "logs" values)) /\
  (application_id_ quote_id_transport = String "a" (String dq "b") /\
   build_payload quote_id_transport [render (VObject MNil)] =
     wire_payload (String "a" (String dq "b")) ["{}"%string] /\
   Envelope.parse (build_payload quote_id_transport [render (VObject MNil)]) = None).
Proof.
  intros Hne. split; [apply build_payload_wire |]. split; [| split; [| split]].
  - intros url payload timeout_ms H. rewrite <- build_payload_wire.
    apply (send_batch_only_payload t env log_records url payload timeout_ms H).
  - intros Hg. rewrite (send_batch_guards_pass t env log_records Hg).
    destruct (retry_loop t env (Z.to_nat (max_retries_ t)) 1) as [[ok t'] events].
    exists events. cbn [snd]. rewrite build_payload_wire. reflexivity.
  - intros values -> Hwf Hid. rewrite build_payload_wire.
    apply parse_wire_payload; assumption.
  - split; [reflexivity |]. split; [apply build_payload_wire |].
    vm_compute. reflexivity.
Qed.

Lemma send_batch_wire_payload_witness :
  build_payload sample_transport
    (map render [VObject MNil; VString "b"; VNumber "3"]) =
    String.concat ""
      ["{"; String dq "application_id"; String dq ":"; String dq "my-app";
       String dq ","; String dq "logs"; String dq ":"; "[";
       "{}"; ","; String dq "b"; String dq ""; ","; "3"; "]"; "}"]%string /\
  Envelope.parse
    (build_payload sample_transport
       (map render [VObject MNil; VString "b"; VNumber "3"])) =
    Some (Envelope.mkEnvelope "application_id" "my-app" "logs"
            [VObject MNil; VString "b"; VNumber "3"]).
Proof.
  destruct (send_batch_wire_payload sample_transport (env_down 0 0)
              (map render [VObject MNil; VString "b"; VNumber "3"])
              ltac:(discriminate)) as (Htext & _ & _ & Hparse & _).
  split.
  - rewrite Htext. reflexivity.
  - apply Hparse; reflexivity.
Defined.

End Payload.

(** ** More on [DrtraceConfig::from_env] *)

Section FromEnvMembers.
Import Level Config Core RoundTrip.
Local Open Scope Z_scope.

Ltac split_matches :=
  repeat match goal with
  | |- context [match ?x with _ => _ end] => destruct x
  end.

Ltac pass_block F :=
  match goal with
  | |- F (?f ?e ?c) = _ =>
      let H := fresh in
      assert (H : forall c0, F (f e c0) = F c0)
        by (intro; unfold f; split_matches; reflexivity);
      rewrite (H c); clear H
  end.

Ltac at_block F :=
  match goal with
  | |- F (?f ?e ?c) = F (?f ?e ?d) =>
      let H := fresh in
      assert (H : forall c0 d0, F c0 = F d0 -> F (f e c0) = F (f e d0))
        by (intros ? ? ?; unfold f; split_matches; simpl; first [assumption | reflexivity]);
      apply H; clear H
  end.

Ltac member F :=
  unfold from_env; cbv zeta;
  repeat pass_block F; at_block F; repeat pass_block F; reflexivity.

Lemma from_env_application_id_block (e : ProcEnv) :
  application_id (from_env e) = application_id (read_application_id e default_config).
Proof. member application_id. Qed.

Lemma from_env_enabled_block (e : ProcEnv) :
  enabled (from_env e) = enabled (read_enabled e default_config).
Proof. member enabled. Qed.

Lemma from_env_min_level_block (e : ProcEnv) :
  min_level (from_env e) = min_level (read_min_level e default_config).
Proof. member min_level. Qed.

Lemma from_env_daemon_url_block (e : ProcEnv) :
  daemon_url (from_env e) = daemon_url (read_daemon_url e default_config).
Proof. member daemon_url. Qed.

Lemma from_env_service_name_block (e : ProcEnv) :
  service_name (from_env e) = service_name (read_service_name e default_config).
Proof. member service_name. Qed.

Lemma from_env_batch_size_default (e : ProcEnv) :
  batch_size (from_env e) = 10%N /\ flush_interval (from_env e) = 5000.
Proof.
  split; unfold from_env; cbv zeta.
  - repeat pass_block batch_size. reflexivity.
  - repeat pass_block flush_interval. reflexivity.
Qed.

(** X1: the application identifier of [from_env] is the value of
    DRTRACE_APPLICATION_ID whenever the variable is set (even to the empty
    string); otherwise the identifier found in the configuration file when
    there is one, and "my-app" when there is none.  With the variable unset
    the identifier is never empty. *)
Theorem from_env_application_id_fallback (e : ProcEnv) :
  (forall id, getenv e "DRTRACE_APPLICATION_ID" = Some id ->
     application_id (from_env e) = id) /\
  (getenv e "DRTRACE_APPLICATION_ID" = None ->
   config_file_application_id e <> ""%string ->
   application_id (from_env e) = config_file_application_id e) /\
  (getenv e "DRTRACE_APPLICATION_ID" = None ->
   config_file_application_id e = ""%string ->
   application_id (from_env e) = "my-app"%string) /\
  (getenv e "DRTRACE_APPLICATION_ID" = None ->
   application_id (from_env e) <> ""%string).
Proof.
  rewrite from_env_application_id_block. unfold read_application_id.
  repeat split.
  - intros id ->. reflexivity.
  - intros -> Hne. destruct (String.eqb_spec (config_file_application_id e) "");
      [congruence | reflexivity].
  - intros -> ->. reflexivity.
  - intros ->. destruct (String.eqb_spec (config_file_application_id e) "");
      cbn; [discriminate | assumption].
Qed.

Lemma from_env_application_id_fallback_witness :
  application_id (from_env (env_of [("DRTRACE_APPLICATION_ID", "")]%string)) = ""%string /\
  application_id (from_env (env_of [])) = "my-app"%string /\
  application_id
    (from_env {| getenv := fun _ => None; config_file_application_id := "billing" |})
    = "billing"%string.
Proof.
  split; [| split].
  - destruct (from_env_application_id_fallback
                (env_of [("DRTRACE_APPLICATION_ID", "")]%string)) as (H & _).
    apply H. reflexivity.
  - destruct (from_env_application_id_fallback (env_of [])) as (_ & _ & H & _).
    apply H; reflexivity.
  - destruct (from_env_application_id_fallback
                {| getenv := fun _ => None; config_file_application_id := "billing" |})
      as (_ & H & _).
    apply H; [reflexivity | discriminate].
Defined.

(** X2: [from_env] disables the client exactly when DRTRACE_ENABLED is the
    string "false", spelled in lower case; every other value, and an unset
    variable, leave it enabled. *)
Theorem from_env_disabled_only_by_false (e : ProcEnv) :
  enabled (from_env e) = false <-> getenv e "DRTRACE_ENABLED" = Some "false"%string.
Proof.
  rewrite from_env_enabled_block. unfold read_enabled.
  destruct (getenv e "DRTRACE_ENABLED") as [v |]; [| cbn; split; discriminate].
  destruct (String.eqb_spec v "false") as [-> | Hne]; cbn.
  - split; reflexivity.
  - split; [discriminate | congruence].
Qed.

Lemma stol_in_range (s : string) (v : Z) :
  stol s = Converted v -> LONG_MIN <= v <= LONG_MAX.
Proof.
  unfold stol, in_range. destruct (strtol10 s) as [w |]; [| discriminate].
  destruct (Z.leb_spec LONG_MIN w), (Z.leb_spec w LONG_MAX); cbn [andb];
    intros E; inversion E; subst; split; assumption.
Qed.

Lemma stoi_in_range (s : string) (v : Z) :
  stoi s = Converted v -> INT_MIN <= v <= INT_MAX.
Proof.
  unfold stoi, in_range. destruct (strtol10 s) as [w |]; [| discriminate].
  destruct (Z.leb_spec INT_MIN w), (Z.leb_spec w INT_MAX); cbn [andb];
    intros E; inversion E; subst; split; assumption.
Qed.

(** X3: whatever the environment holds, the configuration [from_env]
    returns has a positive circuit reset interval, HTTP timeout and retry
    backoff, each within the range of [long], a retry count between 0 and
    INT_MAX, and a buffer bound within the range of [long]. *)
Theorem from_env_numeric_ranges (e : ProcEnv) :
  0 < circuit_reset_interval (from_env e) <= LONG_MAX /\
  0 < http_timeout (from_env e) <= LONG_MAX /\
  0 < retry_backoff (from_env e) <= LONG_MAX /\
  0 <= max_retries (from_env e) <= INT_MAX /\
  Z.of_N (max_buffer_size (from_env e)) <= LONG_MAX.
Proof.
  rewrite from_env_circuit_reset_interval, from_env_http_timeout,
    from_env_retry_backoff, from_env_max_retries, from_env_max_buffer_size.
  unfold read_circuit_reset_ms, read_http_timeout_ms, read_retry_backoff_ms,
    read_max_retries, read_max_buffer_size.
  assert (HL : 30000 <= LONG_MAX) by (vm_compute; discriminate).
  assert (HI : 3 <= INT_MAX) by (vm_compute; discriminate).
  repeat split;
    repeat match goal with
    | |- context [match getenv e ?n with _ => _ end] => destruct (getenv e n)
    | |- context [match stol ?x with _ => _ end] =>
        let E := fresh "E" in
        destruct (stol x) eqn:E; [apply stol_in_range in E | |]
    | |- context [match stoi ?x with _ => _ end] =>
        let E := fresh "E" in
        destruct (stoi x) eqn:E; [apply stoi_in_range in E | |]
    | |- context [if ?b then _ else _] => destruct b eqn:?
    end;
    cbn [circuit_reset_interval http_timeout retry_backoff max_retries
         max_buffer_size default_config set_circuit_reset_interval
         set_http_timeout set_retry_backoff set_max_retries set_max_buffer_size];
    lia.
Qed.

(** X4: when no variable whose name starts with DRTRACE_ is set, whatever
    else the environment holds, [from_env] returns the compiled-in
    defaults, with the application identifier taken from the configuration
    file or, failing that, "my-app". *)
Theorem from_env_defaults (e : ProcEnv) :
  (forall name, String.prefix "DRTRACE_" name = true -> getenv e name = None) ->
  from_env e =
  set_application_id default_config
    (if (config_file_application_id e =? "")%string
     then "my-app"%string else config_file_application_id e).
Proof.
  intros Hnone. unfold from_env. cbv zeta.
  assert (Hid : forall f : ProcEnv -> DrtraceConfig -> DrtraceConfig,
            (forall c, f e c = c) -> forall c, f e c = c) by auto.
  rewrite (Hid read_max_retries), (Hid read_retry_backoff_ms),
    (Hid read_http_timeout_ms), (Hid read_min_level), (Hid read_max_buffer_size),
    (Hid read_circuit_reset_ms), (Hid read_enabled), (Hid read_service_name),
    (Hid read_daemon_url);
    try (intros c; unfold read_max_retries, read_retry_backoff_ms,
           read_http_timeout_ms, read_min_level, read_max_buffer_size,
           read_circuit_reset_ms, read_enabled, read_service_name, read_daemon_url;
         rewrite Hnone by reflexivity; reflexivity).
  unfold read_application_id. rewrite Hnone by reflexivity.
  destruct (config_file_application_id e =? "")%string; reflexivity.
Qed.

Lemma from_env_defaults_witness :
  from_env {| getenv := env_lookup [("PATH", "/usr/bin"); ("HOME", "/root")]%string;
              config_file_application_id := "shop" |} =
  set_application_id default_config "shop".
Proof.
  apply (from_env_defaults
           {| getenv := env_lookup [("PATH", "/usr/bin"); ("HOME", "/root")]%string;
              config_file_application_id := "shop" |}).
  intros name H. cbn [getenv env_lookup].
  destruct (String.eqb_spec "PATH" name) as [<- | _];
    [vm_compute in H; discriminate H |].
  destruct (String.eqb_spec "HOME" name) as [<- | _];
    [vm_compute in H; discriminate H |].
  reflexivity.
Defined.
End FromEnvMembers.

(** ** Decimal numerals in the environment *)

Section Numerals.
Import Level Config Core RoundTrip EnvText.
Local Open Scope Z_scope.

Lemma digits_value_stop (acc : Z) (suffix : string) :
  ends_number suffix = true -> digits_value acc suffix = acc.
Proof.
  destruct suffix as [| c suffix]; [reflexivity |].
  cbn. intros H. apply negb_true_iff in H. rewrite H. reflexivity.
Qed.

Lemma digits_value_acc (d : Decimal.uint) (acc : positive) (suffix : string) :
  ends_number suffix = true ->
  digits_value (Zpos acc) (NilEmpty.string_of_uint d ++ suffix) =
  Zpos (Pos.of_uint_acc d acc).
Proof.
  intros Hs. revert acc; induction d; intros acc;
    cbn [NilEmpty.string_of_uint append Pos.of_uint_acc];
    [apply digits_value_stop, Hs | ..];
    cbn [digits_value];
    match goal with
    | |- context [isdigit ?c] => change (isdigit c) with true
    end; cbv iota; rewrite <- IHd; f_equal;
    match goal with
    | |- context [Z.of_N (code ?c)] =>
        let v := eval vm_compute in (Z.of_N (code c)) in
        change (Z.of_N (code c)) with v
    end; lia.
Qed.

Lemma digits_value_uint (d : Decimal.uint) (suffix : string) :
  ends_number suffix = true ->
  digits_value 0 (NilEmpty.string_of_uint d ++ suffix) = Z.of_N (Pos.of_uint d).
Proof.
  intros Hs. induction d;
    cbn [NilEmpty.string_of_uint append Pos.of_uint];
    [apply digits_value_stop, Hs | ..];
    cbn [digits_value];
    match goal with
    | |- context [isdigit ?c] => change (isdigit c) with true
    end; cbv iota;
    match goal with
    | |- context [Z.of_N (code ?c)] =>
        let v := eval vm_compute in (Z.of_N (code c)) in
        change (Z.of_N (code c)) with v
    end;
    [ exact IHd | .. ];
    match goal with
    | |- digits_value ?a _ = Z.of_N (N.pos (Pos.of_uint_acc _ ?p)) =>
        change a with (Zpos p); apply digits_value_acc, Hs
    end.
Qed.

Lemma skip_space_prefix (ws : string) (c : ascii) (rest : string) :
  blank ws = true -> isspace c = false ->
  skip_space (ws ++ String c rest) = String c rest.
Proof.
  intros Hws Hc. induction ws as [| w ws IH].
  - cbn. rewrite Hc. reflexivity.
  - cbn [blank] in Hws. apply andb_prop in Hws as [Hw Hws].
    cbn [append skip_space]. rewrite Hw. apply IH, Hws.
Qed.

Lemma strtol10_uint (d : Decimal.uint) (ws suffix : string) :
  blank ws = true -> ends_number suffix = true ->
  strtol10 (ws ++ NilZero.string_of_uint d ++ suffix) = Some (Z.of_N (Pos.of_uint d)) /\
  strtol10 (ws ++ String "-" (NilZero.string_of_uint d ++ suffix)) =
    Some (- Z.of_N (Pos.of_uint d)).
Proof.
  intros Hws Hs. unfold strtol10.
  rewrite (skip_space_prefix ws "-" _ Hws eq_refl).
  pose proof (digits_value_uint d suffix Hs) as Hd.
  destruct d; cbn [NilZero.string_of_uint NilEmpty.string_of_uint append] in *;
    rewrite (skip_space_prefix ws) by first [exact Hws | reflexivity];
    cbv beta iota;
    match goal with
    | |- context [isdigit ?c] => change (isdigit c) with true
    end; cbv iota;
    first [ rewrite Hd; split; reflexivity
          | change (digits_value 0 (String "0" suffix)) with (digits_value 0 suffix);
            rewrite Hd; split; reflexivity ].
Qed.

Lemma strtol10_print_int (n : Z) (ws suffix : string) :
  blank ws = true -> ends_number suffix = true ->
  strtol10 (ws ++ print_int n ++ suffix) = Some n.
Proof.
  intros Hws Hs. unfold print_int, NilZero.string_of_int.
  destruct n as [| p | p]; cbn [Z.to_int].
  - destruct (strtol10_uint Decimal.zero ws suffix Hws Hs) as [H _].
    rewrite H. reflexivity.
  - destruct (strtol10_uint (Pos.to_uint p) ws suffix Hws Hs) as [H _].
    rewrite H, DecimalPos.Unsigned.of_to. reflexivity.
  - destruct (strtol10_uint (Pos.to_uint p) ws suffix Hws Hs) as [_ H].
    cbn [append]. rewrite H, DecimalPos.Unsigned.of_to. reflexivity.
Qed.

Lemma stol_print_int (n : Z) (ws suffix : string) :
  blank ws = true -> ends_number suffix = true ->
  LONG_MIN <= n <= LONG_MAX ->
  stol (ws ++ print_int n ++ suffix) = Converted n.
Proof.
  intros Hws Hs Hn. unfold stol, in_range.
  rewrite (strtol10_print_int n ws suffix Hws Hs).
  destruct (Z.leb_spec LONG_MIN n), (Z.leb_spec n LONG_MAX); try lia. reflexivity.
Qed.

Lemma stoi_print_int (n : Z) (ws suffix : string) :
  blank ws = true -> ends_number suffix = true ->
  (INT_MIN <= n <= INT_MAX -> stoi (ws ++ print_int n ++ suffix) = Converted n) /\
  (INT_MAX < n -> stoi (ws ++ print_int n ++ suffix) = OutOfRange).
Proof.
  intros Hws Hs. unfold stoi, in_range.
  rewrite (strtol10_print_int n ws suffix Hws Hs).
  split; intros Hn;
    destruct (Z.leb_spec INT_MIN n), (Z.leb_spec n INT_MAX); try lia; reflexivity.
Qed.

(** X5: [from_env] reads decimal numerals.  When a numeric variable holds
    the decimal notation of an integer [n], possibly after white space and
    possibly followed by text that does not start with a digit (as in
    [" 250ms"]), the member becomes [n] as soon as [n] is acceptable:
    positive and within [long] for the three durations, non-negative for the
    buffer bound, between 0 and INT_MAX for the retry count.  A negative
    duration keeps the default, and so does a retry count beyond INT_MAX. *)
Theorem from_env_reads_numerals (e : ProcEnv) (n : Z) (ws suffix : string) :
  blank ws = true ->
  ends_number suffix = true ->
  (getenv e "DRTRACE_CIRCUIT_RESET_MS" = Some (ws ++ print_int n ++ suffix)%string ->
   (1 <= n <= LONG_MAX -> circuit_reset_interval (from_env e) = n) /\
   (LONG_MIN <= n <= 0 -> circuit_reset_interval (from_env e) = 30000)) /\
  (getenv e "DRTRACE_HTTP_TIMEOUT_MS" = Some (ws ++ print_int n ++ suffix)%string ->
   (1 <= n <= LONG_MAX -> http_timeout (from_env e) = n) /\
   (LONG_MIN <= n <= 0 -> http_timeout (from_env e) = 1000)) /\
  (getenv e "DRTRACE_RETRY_BACKOFF_MS" = Some (ws ++ print_int n ++ suffix)%string ->
   (1 <= n <= LONG_MAX -> retry_backoff (from_env e) = n) /\
   (LONG_MIN <= n <= 0 -> retry_backoff (from_env e) = 100)) /\
  (getenv e "DRTRACE_MAX_BUFFER_SIZE" = Some (ws ++ print_int n ++ suffix)%string ->
   (0 <= n <= LONG_MAX -> Z.of_N (max_buffer_size (from_env e)) = n) /\
   (LONG_MIN <= n < 0 -> max_buffer_size (from_env e) = 10000%N)) /\
  (getenv e "DRTRACE_MAX_RETRIES" = Some (ws ++ print_int n ++ suffix)%string ->
   (0 <= n <= INT_MAX -> max_retries (from_env e) = n) /\
   (INT_MIN <= n < 0 -> max_retries (from_env e) = 3) /\
   (INT_MAX < n -> max_retries (from_env e) = 3)).
Proof.
  intros Hws Hs.
  assert (HL : LONG_MIN < 0 < LONG_MAX) by (vm_compute; split; reflexivity).
  assert (HI : INT_MIN < 0 < INT_MAX) by (vm_compute; split; reflexivity).
  rewrite from_env_circuit_reset_interval, from_env_http_timeout,
    from_env_retry_backoff, from_env_max_retries, from_env_max_buffer_size.
  unfold read_circuit_reset_ms, read_http_timeout_ms, read_retry_backoff_ms,
    read_max_retries, read_max_buffer_size.
  destruct (stoi_print_int n ws suffix Hws Hs) as [Hi Ho].
  repeat split; intros Hn;
    match goal with
    | H : getenv e _ = Some _ |- _ => rewrite H
    end;
    first [ rewrite stol_print_int by (assumption || lia)
          | rewrite Hi by lia
          | rewrite Ho by lia ];
    try reflexivity;
    match goal with
    | |- context [0 <? n] => destruct (Z.ltb_spec 0 n)
    | |- context [0 <=? n] => destruct (Z.leb_spec 0 n)
    end; try lia; cbn; try reflexivity; lia.
Qed.

Lemma from_env_reads_numerals_witness :
  http_timeout (from_env (env_of [("DRTRACE_HTTP_TIMEOUT_MS", " 250ms")]%string)) = 250.
Proof.
  destruct (from_env_reads_numerals
              (env_of [("DRTRACE_HTTP_TIMEOUT_MS", " 250ms")]%string)
              250 " " "ms" eq_refl eq_refl) as (_ & H & _).
  destruct (H eq_refl) as [Hok _]. apply Hok. vm_compute. split; discriminate.
Defined.
End Numerals.

(** ** Level names *)

Section LevelNames.
Import Level Config Core.
Local Open Scope Z_scope.

(** X6: the names [serialize_record] writes for the levels are read back by
    [parse_log_level]: parsing the name of a level gives that level, so two
    levels never share a name, and a DRTRACE_MIN_LEVEL set to the name of a
    level makes it the [min_level] of [from_env]. *)
Theorem level_name_round_trip (l : LogLevel) :
  parse_log_level (Some (level_str l)) = l /\
  (forall l', level_str l = level_str l' -> l = l') /\
  (forall e, getenv e "DRTRACE_MIN_LEVEL" = Some (level_str l) ->
     min_level (from_env e) = l).
Proof.
  assert (H : forall k, parse_log_level (Some (level_str k)) = k)
    by (intros []; reflexivity).
  split; [apply H |]. split.
  - intros l' E. rewrite <- (H l), <- (H l'), E. reflexivity.
  - intros e E. rewrite from_env_min_level_block. unfold read_min_level.
    rewrite E. apply H.
Qed.

Lemma level_name_round_trip_witness :
  min_level (from_env (env_of [("DRTRACE_MIN_LEVEL", level_str ERROR)]%string)) = ERROR.
Proof.
  destruct (level_name_round_trip ERROR) as (_ & _ & H). apply H. reflexivity.
Defined.

End LevelNames.

(** ** More on the engine *)

Section EngineMore.
Import Level Config Transport Core TraceMore.
Local Open Scope Z_scope.

(** X7: the level filter of [log] is monotone.  If [log] appends a record,
    then in any engine state it appends every record of the same or a
    higher level, and it still appends the record when [min_level] is
    lowered; with [min_level = DEBUG] an enabled engine appends every
    record. *)
Theorem log_filter_monotone (p : Platform) (config : DrtraceConfig)
    (record : LogRecord) :
  (forall record' env env' core core',
     pushed (snd (log p config env record core)) <> [] ->
     rank (level record) <= rank (level record') ->
     pushed (snd (log p config env' record' core'))
       = [serialize_record p config record']) /\
  (forall m env env' core core',
     pushed (snd (log p config env record core)) <> [] ->
     rank m <= rank (min_level config) ->
     pushed (snd (log p (set_min_level config m) env' record core'))
       = [serialize_record p (set_min_level config m) record]) /\
  (enabled config = true -> min_level config = DEBUG ->
   forall env core,
     pushed (snd (log p config env record core)) = [serialize_record p config record]).
Proof.
  split; [| split].
  - intros record' env env' core core' Hpush Hr. rewrite pushed_log in *.
    destruct (accepted config record) eqn:Ha; [| congruence].
    assert (Ha' : accepted config record' = true).
    { unfold accepted, Level.ltb in *. apply andb_prop in Ha as [-> Ha]. cbn.
      apply negb_true_iff in Ha. apply negb_true_iff.
      apply Z.ltb_ge. apply Z.ltb_ge in Ha. lia. }
    rewrite Ha'. reflexivity.
  - intros m env env' core core' Hpush Hr. rewrite pushed_log in *.
    destruct (accepted config record) eqn:Ha; [| congruence].
    assert (Ha' : accepted (set_min_level config m) record = true).
    { unfold accepted, Level.ltb in *. cbn [enabled min_level set_min_level].
      apply andb_prop in Ha as [-> Ha]. cbn.
      apply negb_true_iff in Ha. apply negb_true_iff.
      apply Z.ltb_ge. apply Z.ltb_ge in Ha. lia. }
    rewrite Ha'. reflexivity.
  - intros He Hm env core. rewrite pushed_log.
    unfold accepted, Level.ltb. rewrite He, Hm. cbn.
    destruct (Z.ltb_spec (rank (level record)) 0); [| reflexivity].
    destruct (level record); cbn in *; lia.
Qed.

Lemma log_filter_monotone_witness :
  pushed (snd (log sample_platform (set_min_level default_config WARN) (env_down 0 0)
                 (message_record CRITICAL 0)
                 (Core.new (set_min_level default_config WARN) true))) =
  [serialize_record sample_platform (set_min_level default_config WARN)
     (message_record CRITICAL 0)].
Proof.
  destruct (log_filter_monotone sample_platform (set_min_level default_config WARN)
              (message_record ERROR 0)) as (H & _).
  apply (H (message_record CRITICAL 0) (env_down 0 0) (env_down 0 0)
           (Core.new (set_min_level default_config WARN) true)
           (Core.new (set_min_level default_config WARN) true)).
  - vm_compute. discriminate.
  - cbn. lia.
Defined.

(** *** A disabled engine *)

Lemma call_disabled (p : Platform) (config : DrtraceConfig) (c : Call)
    (core : DrtraceCore) :
  enabled config = false -> batch_ core = [] ->
  call p config c core = (core, []).
Proof.
  intros He Hb. destruct c as [env record | env]; cbn [call].
  - apply log_rejected. unfold accepted. rewrite He. reflexivity.
  - unfold flush, flush_internal. rewrite Hb. reflexivity.
Qed.

(** X8: a disabled engine is inert.  With [enabled = false], no sequence of
    [log] and [flush] calls on a new engine has any effect: nothing is
    buffered, the transport is never called, the state stays as constructed. *)
Theorem disabled_engine_inert (p : Platform) (config : DrtraceConfig)
    (calls : list Call) (curl_easy_init_ok : bool) :
  enabled config = false ->
  run p config calls (Core.new config curl_easy_init_ok) =
  (Core.new config curl_easy_init_ok, []).
Proof.
  intros He.
  assert (H : forall core, batch_ core = [] -> run p config calls core = (core, [])).
  { induction calls as [| c calls IH]; intros core Hb; [reflexivity |].
    cbn [run]. rewrite (call_disabled p config c core He Hb), (IH core Hb).
    reflexivity. }
  apply H. reflexivity.
Qed.

Lemma disabled_engine_inert_witness :
  run sample_platform (set_enabled default_config false)
    (log_calls two_hundred_logs ++ [CallFlush (env_down 0 0)])
    (Core.new (set_enabled default_config false) true) =
  (Core.new (set_enabled default_config false) true, []).
Proof. apply disabled_engine_inert. reflexivity. Defined.


(** *** The size-triggered flush *)

Lemma flush_internal_empties (env : Env) (core : DrtraceCore) :
  batch_ (fst (flush_internal env core)) = [].
Proof.
  destruct (batch_ core) as [| r rest] eqn:Eb.
  - unfold flush_internal. rewrite Eb. exact Eb.
  - apply flush_internal_trace. congruence.
Qed.

Lemma call_below_batch_size (p : Platform) (config : DrtraceConfig) (c : Call)
    (core : DrtraceCore) :
  (N.of_nat (length (batch_ core)) <= batch_size config - 1)%N ->
  (N.of_nat (length (batch_ (fst (call p config c core)))) <= batch_size config - 1)%N.
Proof.
  intros Hb. destruct c as [env record | env]; cbn [call].
  - destruct (accepted config record) eqn:Ha.
    + rewrite (log_accepted p config env record core Ha). cbv zeta.
      match goal with
      | |- context [(batch_size config <=? ?n)%N] =>
          destruct (N.leb_spec (batch_size config) n)
      end; cbn [fst].
      * rewrite flush_internal_empties. cbn. lia.
      * cbn [batch_]. lia.
    + rewrite (log_rejected p config env record core Ha). exact Hb.
  - unfold flush. rewrite flush_internal_empties. cbn. lia.
Qed.

(** X9: after every call the buffer is below the flush threshold.  Over any
    sequence of [log] and [flush] calls on a new engine, the buffer holds
    fewer than [batch_size] records when [batch_size > 0], and is empty when
    [batch_size = 0]. *)
Theorem buffer_below_batch_size (p : Platform) (config : DrtraceConfig)
    (calls : list Call) (curl_easy_init_ok : bool) :
  ((0 < batch_size config)%N ->
   (N.of_nat (length (batch_ (fst (run p config calls
                                     (Core.new config curl_easy_init_ok)))))
    < batch_size config)%N) /\
  (batch_size config = 0%N ->
   batch_ (fst (run p config calls (Core.new config curl_easy_init_ok))) = []).
Proof.
  assert (H : forall core,
            (N.of_nat (length (batch_ core)) <= batch_size config - 1)%N ->
            (N.of_nat (length (batch_ (fst (run p config calls core))))
             <= batch_size config - 1)%N).
  { induction calls as [| c calls IH]; intros core Hb; [exact Hb |].
    rewrite run_cons. cbn [fst]. apply IH, call_below_batch_size, Hb. }
  specialize (H (Core.new config curl_easy_init_ok) ltac:(cbn; lia)).
  split.
  - intros Hpos. lia.
  - intros Hz. rewrite Hz in H.
    destruct (batch_ (fst (run p config calls (Core.new config curl_easy_init_ok))));
      [reflexivity | cbn in H; lia].
Qed.

Lemma buffer_below_batch_size_witness :
  (N.of_nat (length (batch_ (fst (run sample_platform (backpressure_config 7)
                                    (log_calls two_hundred_logs)
                                    (Core.new (backpressure_config 7) true)))))
   < 7)%N.
Proof.
  destruct (buffer_below_batch_size sample_platform (backpressure_config 7)
              (log_calls two_hundred_logs) true) as [H _].
  apply H. reflexivity.
Defined.

(** *** Nothing is lost or duplicated *)

Lemma call_conserves (p : Platform) (config : DrtraceConfig) (c : Call)
    (core : DrtraceCore) :
  concat (sent_batches (snd (call p config c core)))
    ++ batch_ (fst (call p config c core)) =
  skipn (length (erased (snd (call p config c core)))) (batch_ core)
    ++ pushed (snd (call p config c core)) /\
  (length (erased (snd (call p config c core))) <= length (batch_ core))%nat.
Proof.
  destruct c as [env record | env]; cbn [call].
  - destruct (accepted config record) eqn:Ha.
    + destruct (log_accepted_trace p config env record core Ha) as (Hp & He & Hc).
      rewrite Hc, Hp, He. unfold at_capacity.
      destruct ((0 <? max_buffer_size config)%N
                && (max_buffer_size config <=? N.of_nat (length (batch_ core)))%N)
        eqn:Ecap.
      * apply andb_prop in Ecap as [E0 E1].
        apply N.ltb_lt in E0. apply N.leb_le in E1.
        destruct (batch_ core) as [| o rest]; [cbn in E1; lia |].
        cbn. split; [reflexivity | lia].
      * cbn. split; [reflexivity | lia].
    + rewrite (log_rejected p config env record core Ha). cbn.
      rewrite app_nil_r. split; [reflexivity | lia].
  - unfold flush. destruct (batch_ core) as [| r rest] eqn:Eb.
    + unfold flush_internal. rewrite Eb. cbn. rewrite Eb. split; [reflexivity | lia].
    + destruct (flush_internal_trace env core) as (Hb & Hs & Hp & He); [congruence |].
      rewrite Hb, Hs, Hp, He, Eb. cbn. rewrite !app_nil_r.
      split; [reflexivity | lia].
Qed.

Lemma departed_app (a b : list Event) :
  departed (a ++ b) = departed a ++ departed b.
Proof. apply flat_map_app. Qed.

Lemma transport_events_depart_nothing (events : list Event) :
  forallb transport_event events = true -> departed events = [].
Proof.
  induction events as [| e events IH]; [reflexivity |].
  cbn [forallb]. intros H. apply andb_prop in H as [He H].
  destruct e; try discriminate He; exact (IH H).
Qed.

Lemma flush_internal_departed (env : Env) (core : DrtraceCore) :
  departed (snd (flush_internal env core)) ++ batch_ (fst (flush_internal env core))
  = batch_ core.
Proof.
  destruct (batch_ core) as [| r rest] eqn:Eb.
  - unfold flush_internal. rewrite Eb. cbn. exact Eb.
  - rewrite (flush_internal_nonempty env core) by congruence. cbn [fst snd batch_].
    change (SendBatch ?b :: ?l) with ([SendBatch b] ++ l).
    rewrite departed_app,
      (transport_events_depart_nothing _
         (send_batch_transport_events (transport_ core) env (batch_ core))).
    cbn. rewrite !app_nil_r. exact Eb.
Qed.

Lemma call_departed (p : Platform) (config : DrtraceConfig) (c : Call)
    (core : DrtraceCore) :
  departed (snd (call p config c core)) ++ batch_ (fst (call p config c core)) =
  batch_ core ++ pushed (snd (call p config c core)).
Proof.
  destruct c as [env record | env]; cbn [call].
  - destruct (accepted config record) eqn:Ha.
    + rewrite (log_accepted p config env record core Ha). cbv zeta.
      set (json := serialize_record p config record).
      assert (Hsplit : forall l : list string,
                departed (map BufErase (if at_capacity config l then firstn 1 l else []))
                  ++ (if at_capacity config l then tl l else l) = l).
      { intros l. destruct (at_capacity config l); [| reflexivity].
        destruct l; reflexivity. }
      assert (Hnone : forall l : list string, pushed (map BufErase l) = []).
      { intros l. induction l; [reflexivity | assumption]. }
      match goal with
      | |- context [if ?b then (fst ?f, _) else _] => destruct b
      end; cbn [fst snd batch_].
      * pose proof (flush_internal_departed env
                      (mkCore ((if at_capacity config (batch_ core)
                                then tl (batch_ core) else batch_ core) ++ [json])
                         (transport_ core))) as Hf.
        pose proof (flush_internal_trace env
                      (mkCore ((if at_capacity config (batch_ core)
                                then tl (batch_ core) else batch_ core) ++ [json])
                         (transport_ core))) as Ht.
        cbn [batch_] in Hf, Ht.
        destruct Ht as (_ & _ & Hp & _); [apply app_one_nonempty |].
        change (BufPush json :: ?l) with ([BufPush json] ++ l).
        rewrite !departed_app, !pushed_app, Hnone, Hp. cbn [departed pushed flat_map app].
        rewrite <- app_assoc, Hf, app_assoc, Hsplit. rewrite ?app_nil_r. reflexivity.
      * rewrite departed_app, pushed_app, Hnone. cbn [departed pushed flat_map app].
        rewrite app_nil_r, app_assoc, Hsplit. reflexivity.
    + rewrite (log_rejected p config env record core Ha). cbn.
      rewrite app_nil_r. reflexivity.
  - unfold flush. rewrite flush_internal_departed.
    destruct (batch_ core) as [| r rest] eqn:Eb.
    + unfold flush_internal. rewrite Eb. cbn. reflexivity.
    + destruct (flush_internal_trace env core) as (_ & _ & Hp & _); [congruence |].
      rewrite Hp, app_nil_r. reflexivity.
Qed.

Lemma pushed_run (p : Platform) (config : DrtraceConfig) (calls : list Call)
    (core : DrtraceCore) :
  pushed (snd (run p config calls core)) =
  map (serialize_record p config) (filter (accepted config) (logged calls)).
Proof.
  revert core; induction calls as [| c calls IH]; intros core; [reflexivity |].
  rewrite run_cons. cbn [snd]. rewrite pushed_app, IH.
  destruct c as [env record | env]; cbn [call logged flat_map app].
  - rewrite pushed_log. cbn [filter].
    destruct (accepted config record); reflexivity.
  - unfold flush. destruct (batch_ core) as [| r rest] eqn:Eb.
    + unfold flush_internal. rewrite Eb. reflexivity.
    + destruct (flush_internal_trace env core) as (_ & _ & Hp & _); [congruence |].
      rewrite Hp. reflexivity.
Qed.

(** X10: the buffer is first in, first out, and nothing is lost.  Over any
    sequence of [log] and [flush] calls, the records that left the buffer
    (evicted by backpressure or handed to the transport), in the order they
    left, followed by the records still in the buffer, are exactly the
    records the buffer held at the start followed by the serialized text of
    the records [log] did not filter out, in call order. *)
Theorem run_conserves_records (p : Platform) (config : DrtraceConfig)
    (calls : list Call) (core : DrtraceCore) :
  departed (snd (run p config calls core)) ++ batch_ (fst (run p config calls core))
  = batch_ core
    ++ map (serialize_record p config) (filter (accepted config) (logged calls)) /\
  pushed (snd (run p config calls core))
  = map (serialize_record p config) (filter (accepted config) (logged calls)).
Proof.
  split; [| apply pushed_run].
  rewrite <- pushed_run with (core := core).
  revert core; induction calls as [| c calls IH]; intros core.
  - cbn. rewrite app_nil_r. reflexivity.
  - rewrite run_cons. cbn [fst snd].
    rewrite departed_app, pushed_app, <- app_assoc, IH, app_assoc, call_departed,
      app_assoc.
    reflexivity.
Qed.

(** X11: without a buffer bound nothing is dropped and order is kept.  With
    [max_buffer_size = 0], over any sequence of [log] and [flush] calls the
    batches handed to the transport, in order, followed by what the buffer
    still holds, are exactly the records the buffer held at the start
    followed by the records appended, in append order: no record is lost,
    none is sent twice, none overtakes another. *)
Theorem run_unbounded_keeps_all (p : Platform) (config : DrtraceConfig)
    (calls : list Call) (core : DrtraceCore) :
  max_buffer_size config = 0%N ->
  erased (snd (run p config calls core)) = [] /\
  concat (sent_batches (snd (run p config calls core)))
    ++ batch_ (fst (run p config calls core)) =
  batch_ core ++ pushed (snd (run p config calls core)).
Proof.
  intros Hmax.
  assert (Hcall : forall c core0, erased (snd (call p config c core0)) = []).
  { intros [env record | env] core0; cbn [call].
    - destruct (accepted config record) eqn:Ha.
      + destruct (log_accepted_trace p config env record core0 Ha) as (_ & He & _).
        rewrite He. unfold at_capacity. rewrite Hmax. reflexivity.
      + rewrite (log_rejected p config env record core0 Ha). reflexivity.
    - unfold flush. destruct (batch_ core0) as [| r rest] eqn:Eb.
      + unfold flush_internal. rewrite Eb. reflexivity.
      + apply flush_internal_trace. congruence. }
  revert core; induction calls as [| c calls IH]; intros core.
  - cbn. rewrite app_nil_r. split; reflexivity.
  - rewrite run_cons. cbn [fst snd].
    destruct (IH (fst (call p config c core))) as [IHe IHc].
    destruct (call_conserves p config c core) as [Hc _].
    rewrite Hcall in Hc. cbn [length skipn] in Hc.
    rewrite pushed_app, erased_app, sent_batches_app, concat_app, Hcall, IHe.
    split; [reflexivity |].
    rewrite <- app_assoc, IHc, app_assoc, Hc, app_assoc. reflexivity.
Qed.

Lemma run_unbounded_keeps_all_witness :
  concat (sent_batches
            (snd (run sample_platform (set_max_buffer_size default_config 0)
                    (log_calls two_hundred_logs)
                    (Core.new (set_max_buffer_size default_config 0) true))))
    ++ batch_ (fst (run sample_platform (set_max_buffer_size default_config 0)
                      (log_calls two_hundred_logs)
                      (Core.new (set_max_buffer_size default_config 0) true))) =
  pushed (snd (run sample_platform (set_max_buffer_size default_config 0)
                 (log_calls two_hundred_logs)
                 (Core.new (set_max_buffer_size default_config 0) true))).
Proof.
  destruct (run_unbounded_keeps_all sample_platform
              (set_max_buffer_size default_config 0)
              (log_calls two_hundred_logs)
              (Core.new (set_max_buffer_size default_config 0) true) eq_refl)
    as [_ H].
  exact H.
Defined.


(** *** When the network is touched *)



(** X13: while the circuit is open, a flush drops the batch.  When the
    buffer is not empty, the circuit of the transport is open and the clock
    is before the deadline, [flush] empties the buffer, calls [send_batch]
    once, and that call does nothing: no lock, no attempt, the transport is
    unchanged and the records are not put back. *)
Theorem flush_with_open_circuit_drops_batch (env : Env) (core : DrtraceCore) :
  batch_ core <> [] ->
  circuit_open_ (transport_ core) = true ->
  now_ms_check env < circuit_open_until_ms_ (transport_ core) ->
  flush env core =
  ({| batch_ := []; transport_ := transport_ core |}, [SendBatch (batch_ core)]).
Proof.
  intros Hne Ho Hnow. unfold flush.
  rewrite (flush_internal_nonempty env core Hne).
  assert (E : send_batch (transport_ core) env (batch_ core)
              = (false, transport_ core, [])).
  { unfold send_batch, is_circuit_open. rewrite Ho. cbn [negb].
    destruct (Z.leb_spec (circuit_open_until_ms_ (transport_ core)) (now_ms_check env));
      [lia |].
    destruct (shutdown_flag_ env BeforeLock); [reflexivity |].
    destruct (batch_ core); reflexivity. }
  rewrite E. reflexivity.
Qed.

Lemma flush_with_open_circuit_drops_batch_witness :
  flush (env_up_at 1 5000)
    (mkCore ["{a}"; "{b}"]%string (open_circuit sample_transport 1000)) =
  (mkCore [] (open_circuit sample_transport 1000), [SendBatch ["{a}"; "{b}"]%string]).
Proof.
  apply (flush_with_open_circuit_drops_batch (env_up_at 1 5000)
           (mkCore ["{a}"; "{b}"]%string (open_circuit sample_transport 1000)));
    [discriminate | reflexivity | cbn; lia].
Defined.

End EngineMore.

(** ** More on [send_batch] *)

Section SendBatchMore.
Import Config Transport Core TraceMore.
Local Open Scope Z_scope.

(** How the retry loop can end: a first success, a shutdown seen before an
    attempt, or the failure of every attempt. *)
Lemma retry_loop_outcome (t : HttpTransport) (env : Env) (r a0 : nat) :
  (fst (fst (retry_loop t env r (Z.of_nat a0))) = true /\
   snd (fst (retry_loop t env r (Z.of_nat a0))) = close_circuit t /\
   exists pre k,
     snd (retry_loop t env r (Z.of_nat a0)) = pre ++ [Perform k] /\
     Z.of_nat a0 <= k < Z.of_nat a0 + Z.of_nat r /\
     shutdown_flag_ env (BeforeAttempt k) = false /\
     is_success (curl_easy_perform env k) = true) \/
  (fst (fst (retry_loop t env r (Z.of_nat a0))) = false /\
   snd (fst (retry_loop t env r (Z.of_nat a0))) = t) \/
  (fst (fst (retry_loop t env r (Z.of_nat a0))) = false /\
   snd (fst (retry_loop t env r (Z.of_nat a0))) = open_circuit t (now_ms_open env) /\
   performs (snd (retry_loop t env r (Z.of_nat a0))) = map Z.of_nat (seq a0 r) /\
   forall i, (a0 <= i < a0 + r)%nat -> attempt_fails env i).
Proof.
  revert a0; induction r as [| r IH]; intros a0; cbn [retry_loop].
  - right. right. cbn. repeat split; lia.
  - destruct (shutdown_flag_ env (BeforeAttempt (Z.of_nat a0))) eqn:Hs;
      [right; left; cbn; auto |].
    destruct (is_success (curl_easy_perform env (Z.of_nat a0))) eqn:Hp.
    + left. cbn. repeat split. exists [], (Z.of_nat a0). cbn.
      repeat split; try assumption; lia.
    + specialize (IH (S a0)).
      replace (Z.of_nat a0 + 1) with (Z.of_nat (S a0)) by lia.
      destruct (retry_loop t env r (Z.of_nat (S a0))) as [[ok t'] events].
      cbn [fst snd] in *.
      destruct IH as [(Hok & Ht & pre & k & He & Hk & Hks & Hkp)
                     | [(Hok & Ht) | (Hok & Ht & Hperf & Hfail)]].
      * left. repeat split; try assumption.
        exists (Perform (Z.of_nat a0)
                  :: (if Z.of_nat a0 <? max_retries_ t
                      then [Sleep (Int64.mul (base_backoff_ms_ t) (Z.of_nat a0))]
                      else [])
                  ++ pre), k.
        rewrite He. cbn [app]. rewrite <- app_assoc.
        repeat split; try assumption; lia.
      * right. left. split; assumption.
      * right. right. split; [assumption |]. split; [assumption |]. split.
        -- change (Perform ?x :: ?l) with ([Perform x] ++ l).
           rewrite !performs_app, Hperf.
           destruct (Z.of_nat a0 <? max_retries_ t); reflexivity.
        -- intros i Hi. destruct (Nat.eq_dec i a0) as [-> | Hne].
           ++ split; assumption.
           ++ apply Hfail. lia.
Qed.

Lemma send_batch_outcome (t : HttpTransport) (env : Env) (log_records : list string) :
  (fst (fst (send_batch t env log_records)) = true /\
   snd (fst (send_batch t env log_records)) = close_circuit t /\
   guards_pass t env log_records /\
   exists pre k,
     snd (send_batch t env log_records) = pre ++ [Perform k] /\
     1 <= k <= max_retries_ t /\
     shutdown_flag_ env (BeforeAttempt k) = false /\
     is_success (curl_easy_perform env k) = true) \/
  (fst (fst (send_batch t env log_records)) = false /\
   snd (fst (send_batch t env log_records)) = t) \/
  (fst (fst (send_batch t env log_records)) = false /\
   snd (fst (send_batch t env log_records)) = open_circuit t (now_ms_open env) /\
   guards_pass t env log_records /\
   performs (snd (send_batch t env log_records))
     = map Z.of_nat (seq 1 (Z.to_nat (max_retries_ t))) /\
   forall i, (1 <= i <= Z.to_nat (max_retries_ t))%nat -> attempt_fails env i).
Proof.
  unfold send_batch.
  destruct (shutdown_flag_ env BeforeLock) eqn:H0; [right; left; cbn; auto |].
  destruct log_records as [| r rest]; [right; left; cbn; auto |].
  destruct (is_circuit_open t (now_ms_check env)) eqn:Hc; [right; left; cbn; auto |].
  destruct (shutdown_flag_ env AfterLock) eqn:H1; [right; left; cbn; auto |].
  destruct (curl_handle_ t) eqn:Hh; [| right; left; cbn; auto].
  cbn [orb negb].
  assert (Hg : guards_pass t env (r :: rest))
    by (repeat split; try assumption; discriminate).
  pose proof (retry_loop_outcome t env (Z.to_nat (max_retries_ t)) 1) as H.
  change (Z.of_nat 1) with 1 in H.
  destruct (retry_loop t env (Z.to_nat (max_retries_ t)) 1) as [[ok t'] events].
  cbn [fst snd] in *.
  destruct H as [(Hok & Ht & pre & k & He & Hk & Hks & Hkp)
                | [(Hok & Ht) | (Hok & Ht & Hperf & Hfail)]].
  - left. repeat split; try assumption; try discriminate.
    exists (Lock :: Setup (endpoint_ t) (build_payload t (r :: rest)) (http_timeout_ t)
              :: pre), k.
    rewrite He. repeat split; try assumption; lia.
  - right. left. auto.
  - right. right. split; [assumption |]. split; [assumption |].
    split; [exact Hg |]. split; [exact Hperf |].
    intros i Hi. apply Hfail. lia.
Qed.

(** X14: [send_batch] returns true only for a delivered batch.  If it
    returns true, the call got past every early return, its last effect is
    an attempt numbered between 1 and [max_retries_] that answered with a
    code in 200..299, and afterwards the circuit flag is false and the
    deadline untouched.  If it returns false, the transport is unchanged,
    or the attempts 1 to [max_retries_] were all performed and all failed,
    the circuit flag is true and the deadline is the 64-bit sum
    [now + circuit_reset_interval_]. *)
Theorem send_batch_true_means_delivered (t : HttpTransport) (env : Env)
    (log_records : list string) :
  (fst (fst (send_batch t env log_records)) = true ->
   guards_pass t env log_records /\
   snd (fst (send_batch t env log_records)) = close_circuit t /\
   circuit_open_ (snd (fst (send_batch t env log_records))) = false /\
   circuit_open_until_ms_ (snd (fst (send_batch t env log_records)))
     = circuit_open_until_ms_ t /\
   exists pre k,
     snd (send_batch t env log_records) = pre ++ [Perform k] /\
     1 <= k <= max_retries_ t /\
     is_success (curl_easy_perform env k) = true) /\
  (fst (fst (send_batch t env log_records)) = false ->
   snd (fst (send_batch t env log_records)) = t \/
   (guards_pass t env log_records /\
    performs (snd (send_batch t env log_records))
      = map Z.of_nat (seq 1 (Z.to_nat (max_retries_ t))) /\
    (forall i, (1 <= i <= Z.to_nat (max_retries_ t))%nat -> attempt_fails env i) /\
    snd (fst (send_batch t env log_records)) = open_circuit t (now_ms_open env) /\
    circuit_open_ (snd (fst (send_batch t env log_records))) = true /\
    circuit_open_until_ms_ (snd (fst (send_batch t env log_records)))
      = Int64.add (now_ms_open env) (circuit_reset_interval_ t))).
Proof.
  destruct (send_batch_outcome t env log_records)
    as [(Hok & Ht & Hg & pre & k & He & Hk & _ & Hkp)
       | [(Hok & Ht) | (Hok & Ht & Hg & Hperf & Hfail)]].
  - split; [| congruence]. intros _.
    split; [exact Hg |]. split; [exact Ht |]. rewrite Ht.
    split; [reflexivity |]. split; [reflexivity |].
    exists pre, k. repeat split; try assumption; lia.
  - split; [congruence |]. intros _. left. exact Ht.
  - split; [congruence |]. intros _. right.
    split; [exact Hg |]. split; [exact Hperf |]. split; [exact Hfail |].
    split; [exact Ht |]. rewrite Ht. split; reflexivity.
Qed.

Lemma send_batch_true_means_delivered_witness :
  (guards_pass sample_transport (env_up_at 2 0) ["{a}"]%string /\
   snd (fst (send_batch sample_transport (env_up_at 2 0) ["{a}"]%string))
     = close_circuit sample_transport /\
   circuit_open_
     (snd (fst (send_batch sample_transport (env_up_at 2 0) ["{a}"]%string))) = false /\
   circuit_open_until_ms_
     (snd (fst (send_batch sample_transport (env_up_at 2 0) ["{a}"]%string)))
     = circuit_open_until_ms_ sample_transport /\
   exists pre k,
     snd (send_batch sample_transport (env_up_at 2 0) ["{a}"]%string)
       = pre ++ [Perform k] /\
     1 <= k <= max_retries_ sample_transport /\
     is_success (curl_easy_perform (env_up_at 2 0) k) = true) /\
  (snd (fst (send_batch sample_transport (env_down 0 7) ["{a}"]%string))
     = sample_transport \/
   (guards_pass sample_transport (env_down 0 7) ["{a}"]%string /\
    performs (snd (send_batch sample_transport (env_down 0 7) ["{a}"]%string))
      = map Z.of_nat (seq 1 (Z.to_nat (max_retries_ sample_transport))) /\
    (forall i, (1 <= i <= Z.to_nat (max_retries_ sample_transport))%nat ->
       attempt_fails (env_down 0 7) i) /\
    snd (fst (send_batch sample_transport (env_down 0 7) ["{a}"]%string))
      = open_circuit sample_transport (now_ms_open (env_down 0 7)) /\
    circuit_open_
      (snd (fst (send_batch sample_transport (env_down 0 7) ["{a}"]%string))) = true /\
    circuit_open_until_ms_
      (snd (fst (send_batch sample_transport (env_down 0 7) ["{a}"]%string)))
      = Int64.add (now_ms_open (env_down 0 7))
          (circuit_reset_interval_ sample_transport))).
Proof.
  split.
  - destruct (send_batch_true_means_delivered sample_transport (env_up_at 2 0)
                ["{a}"]%string) as [H _].
    apply H. reflexivity.
  - destruct (send_batch_true_means_delivered sample_transport (env_down 0 7)
                ["{a}"]%string) as [_ H].
    apply H. reflexivity.
Defined.

(** X15: [send_batch] only ever writes the two circuit members.  The
    endpoint, the application identifier, the retry and timing settings and
    the handle are the same after the call, whatever the environment; and a
    call that returns false never closes an open circuit. *)
Theorem send_batch_frame (t : HttpTransport) (env : Env) (log_records : list string) :
  endpoint_ (snd (fst (send_batch t env log_records))) = endpoint_ t /\
  application_id_ (snd (fst (send_batch t env log_records))) = application_id_ t /\
  max_retries_ (snd (fst (send_batch t env log_records))) = max_retries_ t /\
  base_backoff_ms_ (snd (fst (send_batch t env log_records))) = base_backoff_ms_ t /\
  http_timeout_ (snd (fst (send_batch t env log_records))) = http_timeout_ t /\
  curl_handle_ (snd (fst (send_batch t env log_records))) = curl_handle_ t /\
  circuit_reset_interval_ (snd (fst (send_batch t env log_records)))
    = circuit_reset_interval_ t /\
  (fst (fst (send_batch t env log_records)) = false ->
   circuit_open_ t = true ->
   circuit_open_ (snd (fst (send_batch t env log_records))) = true).
Proof.
  destruct (send_batch_outcome t env log_records)
    as [(Hok & Ht & _) | [(Hok & Ht) | (Hok & Ht & _)]];
    rewrite Ht; repeat split; try reflexivity; try congruence.
Qed.

Lemma send_batch_frame_witness :
  circuit_open_
    (snd (fst (send_batch (open_circuit sample_transport 1000) (env_down 2000 2000)
                 ["{a}"]%string))) = true.
Proof.
  destruct (send_batch_frame (open_circuit sample_transport 1000) (env_down 2000 2000)
              ["{a}"]%string) as (_ & _ & _ & _ & _ & _ & _ & H).
  apply H; reflexivity.
Defined.

(** X16: the deadline of the circuit never moves backwards while the sum
    fits.  On a steady clock (the reading taken when the circuit is opened
    is not before the reading taken at the circuit check), with a
    non-negative reset interval such that [now + circuit_reset_interval_]
    fits in 64 bits, and for a transport whose circuit is open,
    [send_batch] leaves the deadline where it was or moves it forward.
    The bound on the sum is needed: with the interval [INT64_MAX], which
    [from_env] accepts, a failed call at time 1 moves a deadline of 0 back
    to [INT64_MIN]. *)
Theorem send_batch_deadline_monotone (t : HttpTransport) (env : Env)
    (log_records : list string) :
  (circuit_open_ t = true ->
   0 <= circuit_reset_interval_ t ->
   now_ms_check env <= now_ms_open env ->
   Int64.in_range (now_ms_open env + circuit_reset_interval_ t) = true ->
   circuit_open_until_ms_ t
   <= circuit_open_until_ms_ (snd (fst (send_batch t env log_records)))) /\
  circuit_open_until_ms_
    (snd (fst (send_batch
                 (mkTransport "" "" 1 1 1 true true 0 Int64.INT64_MAX)
                 (env_down 1 1) ["{a}"]%string)))
  = Int64.INT64_MIN.
Proof.
  split; [| reflexivity].
  intros Ho Hi Hclock Hfit.
  destruct (send_batch_outcome t env log_records)
    as [(Hok & Ht & _) | [(Hok & Ht) | (Hok & Ht & Hg & _)]]; rewrite Ht.
  - cbn. lia.
  - lia.
  - destruct (open_circuit_state t (now_ms_open env)) as (_ & _ & Hexact).
    rewrite (Hexact Hfit).
    destruct Hg as (_ & _ & Hc & _). unfold is_circuit_open in Hc.
    rewrite Ho in Hc. cbn in Hc.
    destruct (Z.leb_spec (circuit_open_until_ms_ t) (now_ms_check env));
      [lia | discriminate].
Qed.

Lemma send_batch_deadline_monotone_witness :
  circuit_open_until_ms_ (open_circuit sample_transport 1000)
  <= circuit_open_until_ms_
       (snd (fst (send_batch (open_circuit sample_transport 1000)
                    (env_down 31000 40000) ["{a}"]%string))).
Proof.
  destruct (send_batch_deadline_monotone (open_circuit sample_transport 1000)
              (env_down 31000 40000) ["{a}"]%string) as [H _].
  apply H; [reflexivity | vm_compute; discriminate | vm_compute; discriminate
           | reflexivity].
Defined.

(** *** The schedule of attempts and sleeps *)

Lemma sleeps_app (a b : list Event) : sleeps (a ++ b) = sleeps a ++ sleeps b.
Proof. apply flat_map_app. Qed.

Lemma retry_loop_schedule (t : HttpTransport) (env : Env) (r a0 : nat) :
  (1 <= a0)%nat ->
  (a0 + r = Z.to_nat (max_retries_ t) + 1)%nat ->
  exists j j' : nat,
    performs (snd (retry_loop t env r (Z.of_nat a0))) = map Z.of_nat (seq a0 j) /\
    sleeps (snd (retry_loop t env r (Z.of_nat a0))) =
      map (fun i => Int64.mul (base_backoff_ms_ t) (Z.of_nat i)) (seq a0 j') /\
    (j <= r)%nat /\ (j' <= j <= j' + 1)%nat /\
    (j' = 0 \/ a0 + j' <= Z.to_nat (max_retries_ t))%nat.
Proof.
  revert a0; induction r as [| r IH]; intros a0 Ha Hr; cbn [retry_loop].
  - exists 0%nat, 0%nat. cbn. repeat split; auto; lia.
  - destruct (shutdown_flag_ env (BeforeAttempt (Z.of_nat a0))).
    { exists 0%nat, 0%nat. cbn. repeat split; auto; lia. }
    destruct (is_success (curl_easy_perform env (Z.of_nat a0))).
    { exists 1%nat, 0%nat. cbn. repeat split; auto; lia. }
    replace (Z.of_nat a0 + 1) with (Z.of_nat (S a0)) by lia.
    destruct (Z.ltb_spec (Z.of_nat a0) (max_retries_ t)) as [Hlt | Hge].
    + destruct (IH (S a0)) as (j & j' & Hp & Hs & Hj & Hjj & Hn); [lia | lia |].
      destruct (retry_loop t env r (Z.of_nat (S a0))) as [[ok t'] events].
      cbn [snd] in *.
      exists (S j), (S j'). cbn [seq map].
      change (Perform ?x :: ?l) with ([Perform x] ++ l).
      rewrite !performs_app, !sleeps_app, Hp, Hs. cbn.
      repeat split; try lia.
    + destruct r as [| r]; [| lia].
      cbn [retry_loop]. exists 1%nat, 0%nat. cbn. repeat split; auto; lia.
Qed.

Lemma total_app (a b : list Z) : total (a ++ b) = total a + total b.
Proof. unfold total. induction a as [| x a IH]; cbn; [reflexivity | rewrite IH; lia]. Qed.

Lemma total_linear (b : Z) (j : nat) :
  2 * total (map (fun i => b * Z.of_nat i) (seq 1 j)) = b * Z.of_nat j * (Z.of_nat j + 1).
Proof.
  induction j as [| j IH]; [cbn; lia |].
  rewrite seq_S, map_app, total_app. cbn [map Nat.add]. unfold total at 2. cbn [fold_right].
  nia.
Qed.

Lemma sleeps_exact (b : Z) (j' m : nat) :
  0 <= b -> b * Z.of_nat m <= Int64.INT64_MAX -> (j' <= m)%nat ->
  map (fun i => Int64.mul b (Z.of_nat i)) (seq 1 j') =
  map (fun i => b * Z.of_nat i) (seq 1 j').
Proof.
  intros Hb Hm Hj. apply map_ext_in. intros i Hi. apply in_seq in Hi.
  apply mul_exact.
  apply (in_range_between 0 Int64.INT64_MAX); [reflexivity | reflexivity |].
  split; [lia |]. unfold Int64.INT64_MAX in *. nia.
Qed.

(** X17: the schedule of one [send_batch] call.  Whatever the environment,
    the attempts performed are numbered 1, 2, ..., [j] with [j] at most
    [max_retries_]; the sleeps are the 64-bit products
    [base_backoff_ms_ * 1], ..., [base_backoff_ms_ * j'] where [j'] is [j]
    or [j - 1] and at most [max_retries_ - 1], so the last allowed attempt
    is never followed by a sleep.  For a non-negative backoff base whose
    largest product [base_backoff_ms_ * (max_retries_ - 1)] fits in 64
    bits, the sleeps are the exact products and the time slept is at most
    [base_backoff_ms_ * (max_retries_ - 1) * max_retries_ / 2]. *)
Theorem send_batch_schedule (t : HttpTransport) (env : Env) (log_records : list string) :
  exists j j' : nat,
    performs (snd (send_batch t env log_records)) = map Z.of_nat (seq 1 j) /\
    sleeps (snd (send_batch t env log_records)) =
      map (fun i => Int64.mul (base_backoff_ms_ t) (Z.of_nat i)) (seq 1 j') /\
    (j <= Z.to_nat (max_retries_ t))%nat /\
    (j' <= j <= j' + 1)%nat /\
    (j' <= Z.to_nat (max_retries_ t) - 1)%nat /\
    (0 <= base_backoff_ms_ t ->
     base_backoff_ms_ t * (Z.of_nat (Z.to_nat (max_retries_ t)) - 1)
       <= Int64.INT64_MAX ->
     sleeps (snd (send_batch t env log_records)) =
       map (fun i => base_backoff_ms_ t * Z.of_nat i) (seq 1 j') /\
     2 * total (sleeps (snd (send_batch t env log_records)))
     <= base_backoff_ms_ t * (Z.of_nat (Z.to_nat (max_retries_ t)) - 1)
        * Z.of_nat (Z.to_nat (max_retries_ t))).
Proof.
  assert (Hnone : exists j j' : nat,
            @nil Z = map Z.of_nat (seq 1 j) /\
            @nil Z = map (fun i => Int64.mul (base_backoff_ms_ t) (Z.of_nat i))
                       (seq 1 j') /\
            (j <= Z.to_nat (max_retries_ t))%nat /\
            (j' <= j <= j' + 1)%nat /\
            (j' <= Z.to_nat (max_retries_ t) - 1)%nat /\
            (0 <= base_backoff_ms_ t ->
             base_backoff_ms_ t * (Z.of_nat (Z.to_nat (max_retries_ t)) - 1)
               <= Int64.INT64_MAX ->
             @nil Z = map (fun i => base_backoff_ms_ t * Z.of_nat i) (seq 1 j') /\
             2 * total [] <= base_backoff_ms_ t * (Z.of_nat (Z.to_nat (max_retries_ t)) - 1)
                             * Z.of_nat (Z.to_nat (max_retries_ t)))).
  { exists 0%nat, 0%nat. cbn. repeat split; try lia. nia. }
  unfold send_batch.
  destruct (shutdown_flag_ env BeforeLock); [exact Hnone |].
  destruct log_records as [| r rest]; [exact Hnone |].
  destruct (is_circuit_open t (now_ms_check env)); [exact Hnone |].
  destruct (shutdown_flag_ env AfterLock || negb (curl_handle_ t)); [exact Hnone |].
  destruct (retry_loop_schedule t env (Z.to_nat (max_retries_ t)) 1)
    as (j & j' & Hp & Hs & Hj & Hjj & Hn); [lia | lia |].
  change (Z.of_nat 1) with 1 in *.
  destruct (retry_loop t env (Z.to_nat (max_retries_ t)) 1) as [[ok t'] events].
  cbn [snd] in *. exists j, j'.
  change (performs (Lock :: Setup ?u ?p ?m :: events)) with (performs events).
  change (sleeps (Lock :: Setup ?u ?p ?m :: events)) with (sleeps events).
  split; [exact Hp |]. split; [exact Hs |].
  split; [lia |]. split; [lia |]. split; [lia |].
  intros Hb Hfit.
  assert (Hexact : sleeps events =
                   map (fun i => base_backoff_ms_ t * Z.of_nat i) (seq 1 j')).
  { rewrite Hs.
    apply (sleeps_exact _ _ (Z.to_nat (max_retries_ t) - 1)); [exact Hb | | lia].
    destruct (Z.to_nat (max_retries_ t)) as [| m];
      [unfold Int64.INT64_MAX; cbn [Nat.sub Z.of_nat]; lia |].
    replace (Z.of_nat (S m - 1)) with (Z.of_nat (S m) - 1) by lia. exact Hfit. }
  split; [exact Hexact |].
  rewrite Hexact, total_linear. nia.
Qed.

Lemma send_batch_schedule_witness :
  2 * total (sleeps (snd (send_batch sample_transport (env_down 0 0) ["{a}"]%string)))
  <= base_backoff_ms_ sample_transport
     * (Z.of_nat (Z.to_nat (max_retries_ sample_transport)) - 1)
     * Z.of_nat (Z.to_nat (max_retries_ sample_transport)).
Proof.
  destruct (send_batch_schedule sample_transport (env_down 0 0) ["{a}"]%string)
    as (j & j' & _ & _ & _ & _ & _ & H).
  apply H; vm_compute; discriminate.
Defined.

End SendBatchMore.

(** ** More on escaping and serialization *)

Section SerializationMore.
Import Level Config Transport Core JsonReader RoundTrip.
Local Open Scope Z_scope.

Lemma escape_json_append (a b : string) :
  escape_json (a ++ b) = (escape_json a ++ escape_json b)%string.
Proof.
  induction a as [| c a IH]; [reflexivity |].
  cbn [append escape_json]. rewrite IH, append_assoc. reflexivity.
Qed.

(** X18: [escape_json] distributes over concatenation and loses nothing:
    the escaped text of [a ++ b] is the escaped text of [a] followed by that
    of [b], and two strings with the same escaped text are equal. *)
Theorem escape_json_compositional_injective :
  (forall a b, escape_json (a ++ b) = (escape_json a ++ escape_json b)%string) /\
  (forall s s', escape_json s = escape_json s' -> s = s').
Proof.
  split; [apply escape_json_append |].
  intros s s' E.
  pose proof (read_escape_json s "") as H.
  rewrite E, read_escape_json in H. congruence.
Qed.

Lemma escape_json_compositional_injective_witness :
  String dq (String "092" "n") = String dq (String "092" "n").
Proof.
  destruct escape_json_compositional_injective as [_ H].
  apply H. reflexivity.
Defined.

Lemma escape_char_length (c : ascii) :
  (1 <= String.length (escape_char c) <= 6)%nat.
Proof. destruct c as [[] [] [] [] [] [] [] []]; vm_compute; split; lia. Qed.

Lemma string_forall_append (f : ascii -> bool) (a b : string) :
  string_forall f (a ++ b) = string_forall f a && string_forall f b.
Proof.
  induction a as [| c a IH]; [reflexivity |].
  cbn [append string_forall]. rewrite IH, andb_assoc. reflexivity.
Qed.

Lemma escape_char_printable (c : ascii) :
  string_forall (fun x => (32 <=? code x)%N) (escape_char c) = true.
Proof.
  destruct c as [[] [] [] [] [] [] [] []]; vm_compute; reflexivity.
Qed.

(** X19: the escaped text is safe inside a JSON string literal and of
    bounded size: it contains no byte below 0x20, it is at least as long as
    the input and at most six times as long. *)
Theorem escape_json_printable_bounded (s : string) :
  string_forall (fun x => (32 <=? code x)%N) (escape_json s) = true /\
  (String.length s <= String.length (escape_json s) <= 6 * String.length s)%nat.
Proof.
  induction s as [| c s (IHp & IHl)]; [cbn; repeat split; lia |].
  cbn [escape_json String.length].
  rewrite string_forall_append, escape_char_printable, IHp, length_append.
  pose proof (escape_char_length c) as Hl.
  repeat split; lia.
Qed.


Lemma parse_serialized (p : Platform) (config : DrtraceConfig) (record : LogRecord) :
  number_text (ts_text p record) = true ->
  plain_text (this_thread_id p) = true ->
  parse (serialize_record p config record) = Some (record_value p config record).
Proof.
  intros Hts Hp. rewrite (serialize_record_render p config record Hp).
  apply parse_render, record_value_well_formed, Hts.
Qed.

(** X20: the optional members of a serialized record.  The object written
    by [serialize_record] has the members ts, level, message,
    application_id, module_name, then service_name exactly when a service
    name is configured, file_path exactly when the file name is not empty,
    line_no exactly when the line is positive, and last context, whose
    members are language, thread_id and the entries of the record's context
    in their order.  The function name of the source location is not
    written. *)
Theorem serialize_record_members (p : Platform) (config : DrtraceConfig)
    (record : LogRecord) :
  number_text (ts_text p record) = true ->
  plain_text (this_thread_id p) = true ->
  exists ms,
    parse (serialize_record p config record) = Some (VObject ms) /\
    Members.keys ms =
      ["ts"; "level"; "message"; "application_id"; "module_name"]%string
      ++ (if (service_name config =? "")%string then [] else ["service_name"%string])
      ++ (if (filename (source record) =? "")%string then [] else ["file_path"%string])
      ++ (if (0 <? line (source record))%Z then ["line_no"%string] else [])
      ++ ["context"%string] /\
    lookup "ts" ms = Some (VNumber (ts_text p record)) /\
    lookup "service_name" ms =
      (if (service_name config =? "")%string then None
       else Some (VString (service_name config))) /\
    lookup "file_path" ms =
      (if (filename (source record) =? "")%string then None
       else Some (VString (filename (source record)))) /\
    lookup "line_no" ms =
      (if (0 <? line (source record))%Z
       then Some (VNumber (print_int (line (source record)))) else None) /\
    lookup "context" ms =
      Some (VObject (MCons "language" (VString "cpp")
                    (MCons "thread_id" (VString (this_thread_id p))
                       (context_members (context record))))).
Proof.
  intros Hts Hp. rewrite (parse_serialized p config record Hts Hp).
  unfold record_value. eexists. split; [reflexivity |].
  destruct (service_name config =? "")%string,
           (filename (source record) =? "")%string,
           (0 <? line (source record))%Z;
    cbn [negb]; repeat split.
Qed.

Lemma serialize_record_members_witness :
  exists ms,
    parse (serialize_record sample_platform default_config tricky_record)
      = Some (VObject ms) /\
    Members.keys ms =
      ["ts"; "level"; "message"; "application_id"; "module_name"; "file_path";
       "line_no"; "context"]%string.
Proof.
  destruct (serialize_record_members sample_platform default_config tricky_record)
    as (ms & Hparse & Hkeys & _);
    [vm_compute; reflexivity | vm_compute; reflexivity |].
  exists ms. split; [exact Hparse | exact Hkeys].
Defined.

(** *** The direct client API *)

(** X21: what [DrtraceClient::log] sends.  For an enabled client and a level
    not below [min_level], the call appends exactly one record; its text
    parses as an object whose level, message, application_id and module_name
    are the lower-case name of the level, the message as given, the configured
    application identifier and the logger name of the client, and whose
    context holds the language tag followed by the identifier of the calling
    thread twice: once written by the serializer, once as the context entry
    the client adds.  The client keeps its logger name. *)
Theorem client_log_round_trip (p : Platform) (config : DrtraceConfig) (env : Env)
    (now : Z) (level : LogLevel) (message : string) (filename : option string)
    (line : Z) (function : option string) (client : Client.DrtraceClient) :
  enabled config = true ->
  rank (min_level config) <= rank level ->
  number_text
    (ts_text p (Client.make_record p (Client.logger_name_ client) now level message
                  filename line function)) = true ->
  plain_text (this_thread_id p) = true ->
  Client.logger_name_
    (fst (Client.log p config env now level message filename line function client))
    = Client.logger_name_ client /\
  exists json ms,
    pushed (snd (Client.log p config env now level message filename line function
                   client)) = [json] /\
    parse json = Some (VObject ms) /\
    lookup "level" ms = Some (VString (wire_level_name level)) /\
    lookup "message" ms = Some (VString message) /\
    lookup "application_id" ms = Some (VString (application_id config)) /\
    lookup "module_name" ms = Some (VString (Client.logger_name_ client)) /\
    lookup "context" ms =
      Some (VObject (MCons "language" (VString "cpp")
                    (MCons "thread_id" (VString (this_thread_id p))
                    (MCons "thread_id" (VString (this_thread_id p)) MNil)))).
Proof.
  intros He Hl Hts Hp. unfold Client.log. rewrite He. cbn [negb]. cbv zeta.
  set (record := Client.make_record p (Client.logger_name_ client) now level message
                   filename line function) in *.
  assert (Ha : accepted config record = true).
  { unfold accepted, Level.ltb. rewrite He. cbn.
    destruct (Z.ltb_spec (rank level) (rank (min_level config))); [lia | reflexivity]. }
  pose proof (pushed_log p config env record (Client.core_ client)) as Hpush.
  rewrite Ha in Hpush.
  destruct (Core.log p config env record (Client.core_ client)) as [core' events].
  cbn [fst snd] in *. split; [reflexivity |].
  exists (serialize_record p config record). eexists.
  split; [exact Hpush |].
  rewrite (parse_serialized p config record Hts Hp). unfold record_value.
  split; [reflexivity |].
  destruct (negb (service_name config =? "")%string),
           (negb (Core.filename (source record) =? "")%string),
           (0 <? Core.line (source record))%Z; repeat split.
Qed.

Lemma client_log_round_trip_witness :
  exists json ms,
    pushed (snd (Client.warn sample_platform default_config (env_down 0 0)
                   1700000000123456789 "disk almost full" None 0 None
                   (Client.new default_config None true))) = [json] /\
    parse json = Some (VObject ms) /\
    lookup "level" ms = Some (VString "warn") /\
    lookup "message" ms = Some (VString "disk almost full") /\
    lookup "module_name" ms = Some (VString "default").
Proof.
  destruct (client_log_round_trip sample_platform default_config (env_down 0 0)
              1700000000123456789 WARN "disk almost full" None 0 None
              (Client.new default_config None true))
    as (_ & json & ms & Hpush & Hparse & Hlevel & Hmsg & _ & Hmod & _);
    [reflexivity | cbn; lia | vm_compute; reflexivity | vm_compute; reflexivity |].
  exists json, ms. repeat split; assumption.
Defined.

End SerializationMore.

(** ** The spdlog adapter *)

Section SinkFacts.
Import Level Config Transport Core.
Local Open Scope Z_scope.

Lemma map_level_monotone (a b : Sink.level_enum) :
  a <> Sink.off -> b <> Sink.off ->
  Sink.severity a <= Sink.severity b ->
  rank (Sink.map_level a) <= rank (Sink.map_level b).
Proof.
  destruct a, b; cbn; intros Ha Hb H; try lia; congruence.
Qed.

Lemma pushed_sink (p : Platform) (config : DrtraceConfig) (env : Env)
    (msg : Sink.log_msg) (core : DrtraceCore) :
  pushed (snd (Sink.sink_it_ p config env msg core)) =
  if accepted config (Sink.convert_to_log_record p msg)
  then [serialize_record p config (Sink.convert_to_log_record p msg)] else [].
Proof.
  unfold Sink.sink_it_. destruct (enabled config) eqn:He; cbn [negb].
  - apply pushed_log.
  - unfold accepted. rewrite He. reflexivity.
Qed.

(** X22: the sink filters by spdlog severity.  The level mapping of
    [convert_to_log_record] keeps the order of the spdlog levels from trace
    to critical and reaches each of the five levels, so when [sink_it_]
    appends a message it also appends, in any engine state, every message of
    an equal or higher spdlog level; a level outside trace..critical is
    treated as info. *)
Theorem sink_filters_by_severity (p : Platform) (config : DrtraceConfig) :
  (forall a b,
     a <> Sink.off -> b <> Sink.off ->
     Sink.severity a <= Sink.severity b ->
     rank (Sink.map_level a) <= rank (Sink.map_level b)) /\
  (forall l, exists a, a <> Sink.off /\ Sink.map_level a = l) /\
  Sink.map_level Sink.off = INFO /\
  (forall env env' msg msg' core core',
     Sink.msg_level msg <> Sink.off -> Sink.msg_level msg' <> Sink.off ->
     Sink.severity (Sink.msg_level msg) <= Sink.severity (Sink.msg_level msg') ->
     pushed (snd (Sink.sink_it_ p config env msg core)) <> [] ->
     pushed (snd (Sink.sink_it_ p config env' msg' core')) =
     [serialize_record p config (Sink.convert_to_log_record p msg')]).
Proof.
  split; [apply map_level_monotone |]. split; [| split; [reflexivity |]].
  - intros [].
    + exists Sink.debug. split; [discriminate | reflexivity].
    + exists Sink.info. split; [discriminate | reflexivity].
    + exists Sink.warn. split; [discriminate | reflexivity].
    + exists Sink.err. split; [discriminate | reflexivity].
    + exists Sink.critical. split; [discriminate | reflexivity].
  - intros env env' msg msg' core core' Ha Hb Hsev Hpush.
    rewrite pushed_sink in *.
    destruct (accepted config (Sink.convert_to_log_record p msg)) eqn:Hacc;
      [| congruence].
    pose proof (map_level_monotone _ _ Ha Hb Hsev) as Hr.
    assert (Hacc' : accepted config (Sink.convert_to_log_record p msg') = true).
    { unfold accepted, Level.ltb in *. cbn [level Sink.convert_to_log_record] in *.
      apply andb_prop in Hacc as [-> Hl]. cbn.
      apply negb_true_iff in Hl. apply negb_true_iff.
      apply Z.ltb_ge. apply Z.ltb_ge in Hl. lia. }
    rewrite Hacc'. reflexivity.
Qed.

Lemma sink_filters_by_severity_witness :
  pushed (snd (Sink.sink_it_ sample_platform default_config (env_down 0 0)
                 (Sink.Build_log_msg Sink.err "disk full" "app" 1700000000123456789
                    None 0 None)
                 (Core.new default_config true))) =
  [serialize_record sample_platform default_config
     (Sink.convert_to_log_record sample_platform
        (Sink.Build_log_msg Sink.err "disk full" "app" 1700000000123456789
           None 0 None))].
Proof.
  destruct (sink_filters_by_severity sample_platform default_config) as (_ & _ & _ & H).
  apply (H (env_down 0 0) (env_down 0 0)
           (Sink.Build_log_msg Sink.info "started" "app" 1700000000123456789
              (Some "main.cpp"%string) 12 (Some "main"%string))
           _ (Core.new default_config true) (Core.new default_config true)).
  - discriminate.
  - discriminate.
  - cbn. lia.
  - vm_compute. discriminate.
Defined.

End SinkFacts.

(** ** One-time initialization of libcurl *)

Section CurlInitFacts.
Local Open Scope Z_scope.

Lemma curl_count_alive (ops : list CurlInit.Op) (count : Z) :
  fst (CurlInit.run ops count) = count + CurlInit.alive ops.
Proof.
  revert count; induction ops as [| [] ops IH]; intros count; cbn.
  - lia.
  - specialize (IH (count + 1)).
    destruct (CurlInit.run ops (count + 1)) as [c n]. cbn in *. lia.
  - unfold CurlInit.release. rewrite IH. lia.
Qed.

Lemma curl_run_app (a b : list CurlInit.Op) (count : Z) :
  CurlInit.run (a ++ b) count =
  (fst (CurlInit.run b (fst (CurlInit.run a count))),
   (snd (CurlInit.run a count) + snd (CurlInit.run b (fst (CurlInit.run a count))))%nat).
Proof.
  revert count; induction a as [| [] a IH]; intros count; cbn.
  - destruct (CurlInit.run b count). reflexivity.
  - rewrite IH. destruct (CurlInit.run a (count + 1)) as [c n]. cbn.
    destruct (CurlInit.run b c) as [c' n']. cbn.
    destruct (count =? 0); reflexivity.
  - apply IH.
Qed.

Lemma curl_initialized_while_alive (ops : list CurlInit.Op) (live : Z) :
  0 <= live -> CurlInit.well_bracketed ops live = true ->
  0 <= live + CurlInit.alive ops /\
  (0 < live + CurlInit.alive ops ->
   0 < live \/ (1 <= snd (CurlInit.run ops live))%nat).
Proof.
  revert live; induction ops as [| [] ops IH]; intros live Hl Hwb; cbn in *.
  - split; [lia |]. intros H. left. lia.
  - destruct (IH (live + 1) ltac:(lia) Hwb) as [H0 _].
    split; [lia |]. intros _.
    destruct (CurlInit.run ops (live + 1)) as [c n]. cbn [snd].
    destruct (Z.eqb_spec live 0); [right; lia | left; lia].
  - apply andb_prop in Hwb as [H1 Hwb]. apply Z.leb_le in H1.
    destruct (IH (live - 1) ltac:(lia) Hwb) as [H0 _].
    split; [lia |]. intros _. left. lia.
Qed.

(** X23: the reference count of libcurl's global initialization.  After any
    sequence of transport constructions and destructions the counter equals
    the number of transports alive.  A construction calls
    [curl_global_init] exactly when no transport is alive: so the first
    construction initializes, a construction while another transport is
    alive does not, and a construction after the last transport was
    destroyed initializes again.  When no destruction comes before its
    construction, the counter is never negative and libcurl has been
    initialized whenever a transport is alive. *)
Theorem curl_init_tracks_live_transports (ops : list CurlInit.Op) :
  fst (CurlInit.run ops 0) = CurlInit.alive ops /\
  snd (CurlInit.ensure_curl_initialized (fst (CurlInit.run ops 0)))
    = (CurlInit.alive ops =? 0) /\
  (forall more,
     snd (CurlInit.run (ops ++ CurlInit.Construct :: more) 0) =
     (snd (CurlInit.run ops 0%Z)
      + (if (CurlInit.alive ops =? 0)%Z then 1 else 0)
      + snd (CurlInit.run more (CurlInit.alive ops + 1)%Z))%nat) /\
  (CurlInit.well_bracketed ops 0 = true ->
   0 <= fst (CurlInit.run ops 0) /\
   (0 < fst (CurlInit.run ops 0) -> (1 <= snd (CurlInit.run ops 0%Z))%nat)).
Proof.
  pose proof (curl_count_alive ops 0) as H. cbn in H.
  split; [exact H |]. split; [| split].
  - unfold CurlInit.ensure_curl_initialized. cbn. rewrite H. reflexivity.
  - intros more. rewrite curl_run_app. cbn [snd fst CurlInit.run].
    unfold CurlInit.ensure_curl_initialized. rewrite H.
    destruct (CurlInit.run more (CurlInit.alive ops + 1)) as [c n]. cbn [snd].
    destruct (CurlInit.alive ops =? 0); lia.
  - intros Hwb. rewrite H.
    destruct (curl_initialized_while_alive ops 0 ltac:(lia) Hwb) as [H0 H1].
    cbn in H0, H1. split; [exact H0 |]. intros Hpos.
    destruct (H1 Hpos) as [Hbad | Hok]; [lia | exact Hok].
Qed.

Lemma curl_init_tracks_live_transports_witness :
  0 <= fst (CurlInit.run
              [CurlInit.Construct; CurlInit.Construct; CurlInit.Destruct] 0) /\
  (0 < fst (CurlInit.run
              [CurlInit.Construct; CurlInit.Construct; CurlInit.Destruct] 0) ->
   (1 <= snd (CurlInit.run
                [CurlInit.Construct; CurlInit.Construct; CurlInit.Destruct] 0%Z))%nat).
Proof.
  destruct (curl_init_tracks_live_transports
              [CurlInit.Construct; CurlInit.Construct; CurlInit.Destruct])
    as (_ & _ & _ & H).
  apply H. reflexivity.
Defined.

End CurlInitFacts.
